(** * ToDoApp: the resolver layer of [src/index.js]

    A shallow embedding of the GraphQL resolvers of the task-list server:
    the identity resolver ([getUserFromToken], [context]), the query and
    mutation handlers and the field resolvers of [User], [TaskList] and
    [ToDo], over a model of the three MongoDB collections they use.

    JavaScript objects (documents, argument objects) are finite maps from
    field names to values; a collection is the list of its documents in
    insertion order; a handler is a computation that may throw and that
    threads the store, the driver's identifier generator and the list of
    store accesses performed so far. *)

From Stdlib Require Import QArith Ascii String SpecFloat.
From stdpp Require Import gmap strings list fin_maps.

Set Warnings "-register-all".
Open Scope string_scope.
Open Scope list_scope.

(** ** BSON object identifiers

    [ObjectId] is the constructor of the [mongodb] driver, which the source
    calls as a function on every identifier it receives.  An identifier is
    twelve bytes; it is kept here as the 24 lowercase hexadecimal digits that
    [toString] prints. *)

Inductive oid : Type := OID (hex : string).

#[global] Instance oid_eq_dec : EqDecision oid.
Proof. solve_decision. Defined.

Definition oid_toString (o : oid) : string := match o with OID h => h end.

Definition is_hex_digit (c : ascii) : bool :=
  let n := N_of_ascii c in
  ((48 <=? n) && (n <=? 57) || (65 <=? n) && (n <=? 70)
   || (97 <=? n) && (n <=? 102))%N.

Definition lower_hex (c : ascii) : ascii :=
  let n := N_of_ascii c in
  if ((65 <=? n) && (n <=? 70))%N then ascii_of_N (n + 32) else c.

Definition hex_digit (n : N) : ascii :=
  if (n <? 10)%N then ascii_of_N (48 + n) else ascii_of_N (87 + n).

(** The two digits the driver's [hexTable] holds for one byte. *)
Definition hex_of_byte (c : ascii) : string :=
  let n := N_of_ascii c in
  String (hex_digit (n / 16)) (String (hex_digit (n mod 16)) EmptyString).

Fixpoint string_forallb (p : ascii -> bool) (s : string) : bool :=
  match s with
  | EmptyString => true
  | String c s' => p c && string_forallb p s'
  end.

Fixpoint string_map (f : ascii -> ascii) (s : string) : string :=
  match s with
  | EmptyString => EmptyString
  | String c s' => String (f c) (string_map f s')
  end.

Fixpoint string_flat_map (f : ascii -> string) (s : string) : string :=
  match s with
  | EmptyString => EmptyString
  | String c s' => f c +:+ string_flat_map f s'
  end.

(** [ObjectId(s)] on a string: a string of 12 bytes is taken as the raw
    bytes, a string of 24 hexadecimal digits (either case) is decoded, and
    anything else makes the constructor throw ([None]). *)
Definition ObjectId_fromString (s : string) : option oid :=
  if Nat.eqb (String.length s) 12 then Some (OID (string_flat_map hex_of_byte s))
  else if Nat.eqb (String.length s) 24 && string_forallb is_hex_digit s
       then Some (OID (string_map lower_hex s))
       else None.

(** ** Values and documents *)

Inductive value : Type :=
  | Undefined
  | Null
  | Bool (b : bool)
  | Str (s : string)
  | Id (o : oid)
  | Array (l : list value).

Fixpoint value_eqb (x y : value) : bool :=
  match x, y with
  | Undefined, Undefined => true
  | Null, Null => true
  | Bool a, Bool b => Bool.eqb a b
  | Str a, Str b => String.eqb a b
  | Id a, Id b => bool_decide (a = b)
  | Array l, Array l' =>
      (fix go (l l' : list value) : bool :=
         match l, l' with
         | [], [] => true
         | a :: m, b :: m' => value_eqb a b && go m m'
         | _, _ => false
         end) l l'
  | _, _ => false
  end.

(** A JavaScript object used as a record of fields. *)
Abbreviation doc := (gmap string value).

(** Property access [d.k]; a missing property reads as [undefined]. *)
Definition get (d : doc) (k : string) : value :=
  default Undefined (d !! k).

(** JavaScript truthiness, as used by [!x], [||], [if] and [filter]. *)
Definition truthy (v : value) : bool :=
  match v with
  | Undefined | Null => false
  | Bool b => b
  | Str s => negb (String.eqb s "")
  | Id _ => true
  | Array _ => true
  end.

(** [a || b]. *)
Definition js_or (a b : value) : value := if truthy a then a else b.

Fixpoint join (sep : string) (l : list string) : string :=
  match l with
  | [] => ""
  | [s] => s
  | s :: l' => s +:+ sep +:+ join sep l'
  end.

(** [x.toString()]; on [null] and [undefined] the call is a TypeError
    ([None]).  Inside an array they print as the empty string. *)
Fixpoint toString (x : value) : option string :=
  match x with
  | Undefined | Null => None
  | Bool true => Some "true"
  | Bool false => Some "false"
  | Str s => Some s
  | Id o => Some (oid_toString o)
  | Array l => Some (join "," (map (fun y => default "" (toString y)) l))
  end.

(** ** The store *)

Inductive coll : Type := Users | TaskList | ToDo.

#[global] Instance coll_eq_dec : EqDecision coll.
Proof. solve_decision. Defined.

Record Store : Type := mkStore {
  users : list doc;
  taskLists : list doc;
  toDos : list doc
}.

Definition collection (c : coll) (s : Store) : list doc :=
  match c with
  | Users => users s
  | TaskList => taskLists s
  | ToDo => toDos s
  end.

Definition with_collection (c : coll) (l : list doc) (s : Store) : Store :=
  match c with
  | Users => mkStore l (taskLists s) (toDos s)
  | TaskList => mkStore (users s) l (toDos s)
  | ToDo => mkStore (users s) (taskLists s) l
  end.

(** A query [{ k: q }]: the field equals [q], or is an array holding [q]. *)
Definition matches (k : string) (q : value) (d : doc) : bool :=
  value_eqb (get d k) q
  || match get d k with
     | Array l => existsb (fun x => value_eqb x q) l
     | _ => false
     end.

(** Update operators: [{ $set: m }] and [{ $push: { k: x } }].  [$push] on a
    field that is present and not an array is refused by the server. *)
Inductive update : Type :=
  | USet (m : doc)
  | UPush (k : string) (x : value).

Definition apply_update (u : update) (d : doc) : option doc :=
  match u with
  | USet m => Some (m ∪ d)
  | UPush k x =>
      match d !! k with
      | None => Some (<[k := Array [x]]> d)
      | Some (Array l) => Some (<[k := Array (l ++ [x])]> d)
      | Some _ => None
      end
  end.

(** The first document a predicate selects is replaced through [f]. *)
Fixpoint update_first (p : doc -> bool) (f : doc -> option doc) (l : list doc)
  : option (list doc) :=
  match l with
  | [] => Some []
  | d :: l' =>
      if p d then match f d with Some d' => Some (d' :: l') | None => None end
      else match update_first p f l' with
           | Some r => Some (d :: r)
           | None => None
           end
  end.

(** ** Computations of a request *)

Inductive exn : Type :=
  | Error (message : string)   (* [new Error(message)] of the handlers *)
  | TypeError                  (* a method called on a value without it *)
  | BSONTypeError              (* [ObjectId] on a malformed argument *)
  | JsonWebTokenError          (* [jwt.verify] refuses the token *)
  | BcryptError                (* [bcrypt] called on a non-string *)
  | MongoError.                (* a write the server refuses *)

Inductive access : Type := Read (c : coll) | Write (c : coll).

(** What a request can see and change: the store, the number of
    identifiers the driver has generated, and the store accesses so far. *)
Record World : Type := mkWorld {
  db : Store;
  pk : N;
  log : list access
}.

Inductive outcome (A : Type) : Type :=
  | Returned (a : A)
  | Thrown (e : exn).
Arguments Returned {A} a.
Arguments Thrown {A} e.

Definition M (A : Type) : Type := World -> outcome A * World.

Definition ret {A} (a : A) : M A := fun w => (Returned a, w).
Definition throw {A} (e : exn) : M A := fun w => (Thrown e, w).
Definition bind {A B} (m : M A) (k : A -> M B) : M B :=
  fun w => match m w with
           | (Returned a, w') => k a w'
           | (Thrown e, w') => (Thrown e, w')
           end.

Notation "'let*' x ':=' m 'in' k" := (bind m (fun x => k))
  (at level 10, x name, m at level 100, k at level 200).

Fixpoint mapM {A B} (f : A -> M B) (l : list A) : M (list B) :=
  match l with
  | [] => ret []
  | a :: l' => let* b := f a in let* bs := mapM f l' in ret (b :: bs)
  end.

(** [arr.find(p)]: the first element [p] accepts, [undefined] if none. *)
Fixpoint array_find (p : value -> M bool) (l : list value) : M value :=
  match l with
  | [] => ret Undefined
  | x :: l' => let* b := p x in if b then ret x else array_find p l'
  end.

(** ** Inputs of the schema *)

(** A nullable input field is absent, [null], or a string. *)
Inductive nullable : Type := Absent | IsNull | Given (s : string).

Definition with_nullable (k : string) (x : nullable) (d : doc) : doc :=
  match x with
  | Absent => d
  | IsNull => <[k := Null]> d
  | Given s => <[k := Str s]> d
  end.

(** ** JavaScript numbers

    A JavaScript number is an IEEE-754 binary64 value: 53 bits of
    precision, exponents below 1024.  The arithmetic is that of the Standard
    Library's specification of IEEE-754 floating point, which rounds to
    nearest, ties to even.  The length of an array is an integer below
    2^32, which binary64 holds exactly. *)

Definition number : Type := spec_float.

Definition number_of_nat (n : nat) : number :=
  binary_normalize 53 1024 (Z.of_nat n) 0 false.

Definition number_mul : number -> number -> number := SFmul 53 1024.

Definition number_div : number -> number -> number := SFdiv 53 1024.

Definition number_leb : number -> number -> bool := SFleb.

(** The rational a finite number stands for, in lowest terms. *)
Definition number_value (x : number) : option Q :=
  match x with
  | S754_zero _ => Some 0%Q
  | S754_finite s m e =>
      Some (Qred (inject_Z (if s then Zneg m else Zpos m) * Qpower 2 e))
  | _ => None
  end.

Record SignInInput : Type := {
  si_email : string;
  si_password : string
}.

Record SignUpInput : Type := {
  su_email : string;
  su_password : string;
  su_name : string;
  su_avatar : nullable
}.

(** The object GraphQL hands to [signUp] as [input]. *)
Definition SignUpInput_obj (i : SignUpInput) : doc :=
  with_nullable "avatar" (su_avatar i)
    (<["email" := Str (su_email i)]>
       (<["password" := Str (su_password i)]>
          (<["name" := Str (su_name i)]> ∅))).

(** The argument object of [updateToDo(id: ID!, content: String,
    isCompleted: Boolean!)]. *)
Definition updateToDo_args (id : string) (content : nullable)
    (isCompleted : bool) : doc :=
  with_nullable "content" content
    (<["id" := Str id]> (<["isCompleted" := Bool isCompleted]> ∅)).

Record AuthUser : Type := mkAuthUser {
  user : doc;
  token : string
}.

(** What a handler reads from outside the store: the clock and the salt
    [bcrypt] draws. *)
Record Env : Type := mkEnv {
  now : N;
  salt : string
}.

(** The opaque capabilities the resolvers consume: the driver's identifier
    generator (its [n]-th identifier), the signing secret, the token and
    hash primitives and the date printer. *)
Class Capabilities : Type := {
  generate : N -> oid;
  JWT_SECRET : string;
  jwt_sign : doc -> string -> string -> N -> string;
  jwt_verify : string -> string -> N -> option doc;
  bcrypt_hashSync : string -> string -> string;
  bcrypt_compareSync : string -> string -> bool;
  toISOString : N -> string
}.

Section Resolvers.

Context `{Capabilities}.

(** [ObjectId(v)]: an identifier is returned as it is, a string is decoded,
    [null] and [undefined] draw a fresh identifier, anything else throws. *)
Definition ObjectId (v : value) : M oid :=
  match v with
  | Id o => ret o
  | Str s =>
      match ObjectId_fromString s with
      | Some o => ret o
      | None => throw BSONTypeError
      end
  | Undefined | Null =>
      fun w => (Returned (generate (pk w)), mkWorld (db w) (pk w + 1) (log w))
  | Bool _ | Array _ => throw BSONTypeError
  end.

(** *** [db.collection(c)] *)

Definition findOne (c : coll) (k : string) (q : value) : M (option doc) :=
  fun w => (Returned (List.find (matches k q) (collection c (db w))),
            mkWorld (db w) (pk w) (log w ++ [Read c])).

Definition find (c : coll) (k : string) (q : value) : M (list doc) :=
  fun w => (Returned (List.filter (matches k q) (collection c (db w))),
            mkWorld (db w) (pk w) (log w ++ [Read c])).

(** [insertOne(d)]: the driver gives [d] an [_id] when it has none, the
    server refuses a second document with the same [_id]; the object that
    was passed in is the one that now carries the [_id]. *)
Definition insertOne (c : coll) (d : doc) : M doc :=
  fun w =>
    let '(d', pk') :=
      match d !! "_id" with
      | Some _ => (d, pk w)
      | None => (<["_id" := Id (generate (pk w))]> d, (pk w + 1)%N)
      end in
    if existsb (fun e => value_eqb (get e "_id") (get d' "_id"))
         (collection c (db w))
    then (Thrown MongoError, mkWorld (db w) pk' (log w ++ [Write c]))
    else (Returned d',
          mkWorld (with_collection c (collection c (db w) ++ [d']) (db w))
            pk' (log w ++ [Write c])).

Definition updateOne (c : coll) (k : string) (q : value) (u : update)
  : M unit :=
  fun w =>
    match update_first (matches k q) (apply_update u) (collection c (db w)) with
    | Some l => (Returned tt,
                 mkWorld (with_collection c l (db w)) (pk w)
                   (log w ++ [Write c]))
    | None => (Thrown MongoError,
               mkWorld (db w) (pk w) (log w ++ [Write c]))
    end.

Definition remove (c : coll) (k : string) (q : value) : M unit :=
  fun w =>
    (Returned tt,
     mkWorld
       (with_collection c
          (List.filter (fun d => negb (matches k q d)) (collection c (db w)))
          (db w))
       (pk w) (log w ++ [Write c])).

(** *** Tokens and the identity of a request *)

Definition getToken (env : Env) (user : doc) : string :=
  jwt_sign {["id" := get user "_id"]} JWT_SECRET "30 days" (now env).

Definition getUserFromToken (env : Env) (token : option string)
  : M (option doc) :=
  match token with
  | None => ret None
  | Some t =>
      if negb (truthy (Str t)) then ret None
      else
        match jwt_verify t JWT_SECRET (now env) with
        | None => throw JsonWebTokenError
        | Some tokenData =>
            if negb (truthy (get tokenData "id")) then ret None
            else
              let* o := ObjectId (get tokenData "id") in
              let* user := findOne Users "_id" (Id o) in
              ret user
        end
  end.

(** The [context] function of the server: [{ db, user }], of which [db] is
    the world the computation runs in. *)
Definition context (env : Env) (authorization : option string)
  : M (option doc) :=
  let* user := getUserFromToken env authorization in
  ret user.

(** *** Query *)

Definition myTaskLists (user : option doc) : M (list doc) :=
  match user with
  | None => throw (Error "Authentication Error. Please sing in")
  | Some u => find TaskList "userIds" (get u "_id")
  end.

Definition getTaskList (id : string) (user : option doc) : M (option doc) :=
  match user with
  | None => throw (Error "Authentication Error. Please sing in")
  | Some _ =>
      let* o := ObjectId (Str id) in
      findOne TaskList "_id" (Id o)
  end.

(** *** Mutation *)

Definition signUp (env : Env) (input : SignUpInput) : M AuthUser :=
  let hashedPassword := bcrypt_hashSync (salt env) (su_password input) in
  let user := <["password" := Str hashedPassword]> (SignUpInput_obj input) in
  let* user := insertOne Users user in
  ret (mkAuthUser user (getToken env user)).

Definition signIn (env : Env) (input : SignInInput) : M AuthUser :=
  let* user := findOne Users "email" (Str (si_email input)) in
  match user with
  | None => throw (Error "Invalid credentials!")
  | Some user =>
      match get user "password" with
      | Str hash =>
          let isPasswordCorrect :=
            bcrypt_compareSync (si_password input) hash in
          if negb isPasswordCorrect then throw (Error "Invalid credentials!")
          else ret (mkAuthUser user (getToken env user))
      | _ => throw BcryptError
      end
  end.

Definition createTaskList (env : Env) (title : string) (user : option doc)
  : M doc :=
  match user with
  | None => throw (Error "Authentication Error. Please sing in")
  | Some u =>
      let newTaskList : doc :=
        <["title" := Str title]>
          (<["createdAt" := Str (toISOString (now env))]>
             (<["userIds" := Array [get u "_id"]]> ∅)) in
      let* newTaskList := insertOne TaskList newTaskList in
      ret newTaskList
  end.

Definition updateTaskList (id title : string) (user : option doc)
  : M (option doc) :=
  match user with
  | None => throw (Error "Authentication Error. Please sing in")
  | Some _ =>
      let* o := ObjectId (Str id) in
      let* _ := updateOne TaskList "_id" (Id o) (USet {["title" := Str title]}) in
      let* o' := ObjectId (Str id) in
      findOne TaskList "_id" (Id o')
  end.

Definition addUserToTaskList (taskListId userId : string) (user : option doc)
  : M (option doc) :=
  match user with
  | None => throw (Error "Authentication Error. Please sing in")
  | Some _ =>
      let* o := ObjectId (Str taskListId) in
      let* taskList := findOne TaskList "_id" (Id o) in
      match taskList with
      | None => ret None
      | Some taskList =>
          match get taskList "userIds" with
          | Array userIds =>
              let* found :=
                array_find
                  (fun dbId =>
                     match toString dbId with
                     | Some s => ret (String.eqb s userId)
                     | None => throw TypeError
                     end) userIds in
              if truthy found
              then throw (Error "User already exists in this TaskList!")
              else
                let* o1 := ObjectId (Str taskListId) in
                let* u1 := ObjectId (Str userId) in
                let* _ := updateOne TaskList "_id" (Id o1) (UPush "userIds" (Id u1)) in
                let* u2 := ObjectId (Str userId) in
                ret (Some (<["userIds" := Array (userIds ++ [Id u2])]> taskList))
          | _ => throw TypeError
          end
      end
  end.

Definition deleteTaskList (id : string) (user : option doc) : M bool :=
  match user with
  | None => throw (Error "Authentication Error. Please sing in")
  | Some _ =>
      let* o := ObjectId (Str id) in
      let* _ := remove TaskList "_id" (Id o) in
      ret true
  end.

Definition createToDo (content taskListId : string) (user : option doc)
  : M doc :=
  match user with
  | None => throw (Error "Authentication Error. Please sing in")
  | Some _ =>
      let* o := ObjectId (Str taskListId) in
      let newToDo : doc :=
        <["content" := Str content]>
          (<["taskListId" := Id o]>
             (<["isCompleted" := Bool false]> ∅)) in
      let* newToDo := insertOne ToDo newToDo in
      ret newToDo
  end.

Definition updateToDo (data : doc) (user : option doc) : M (option doc) :=
  match user with
  | None => throw (Error "Authentication Error. Please sing in")
  | Some _ =>
      let* o := ObjectId (get data "id") in
      let* _ := updateOne ToDo "_id" (Id o) (USet data) in
      let* o' := ObjectId (get data "id") in
      findOne ToDo "_id" (Id o')
  end.

Definition deleteToDo (id : string) (user : option doc) : M bool :=
  match user with
  | None => throw (Error "Authentication Error. Please sing in")
  | Some _ =>
      let* o := ObjectId (Str id) in
      let* _ := remove ToDo "_id" (Id o) in
      ret true
  end.

(** *** Field resolvers *)

Definition User_id (parent : doc) : value :=
  js_or (get parent "_id") (get parent "id").

Definition TaskList_id (parent : doc) : value :=
  js_or (get parent "_id") (get parent "id").

(** [100 * completed.length / todos.length]: the product first, then the
    quotient, both in binary64; [return 0] is the number [+0]. *)
Definition TaskList_progress (parent : doc) : M number :=
  let* o := ObjectId (get parent "_id") in
  let* todos := find ToDo "taskListId" (Id o) in
  let completed := List.filter (fun todos => truthy (get todos "isCompleted")) todos in
  if Nat.eqb (length todos) 0 then ret (number_of_nat 0)
  else ret (number_div
              (number_mul (number_of_nat 100) (number_of_nat (length completed)))
              (number_of_nat (length todos))).

Definition TaskList_users (parent : doc) : M (list (option doc)) :=
  match get parent "userIds" with
  | Array userIds => mapM (fun userId => findOne Users "_id" userId) userIds
  | _ => throw TypeError
  end.

Definition TaskList_todos (parent : doc) : M (list doc) :=
  let* o := ObjectId (get parent "_id") in
  find ToDo "taskListId" (Id o).

Definition ToDo_id (parent : doc) : value :=
  js_or (get parent "_id") (get parent "id").

Definition ToDo_taskList (parent : doc) : M (option doc) :=
  let* o := ObjectId (get parent "taskListId") in
  findOne TaskList "_id" (Id o).

(** *** Response objects

    [type User] of the schema declares four fields.  A request names the
    fields it selects; one that names a field the type does not declare is
    refused before any resolver runs.  Of the object a handler returns, the
    response carries the selected fields: [id] through the resolver above,
    the others read off the object.  (Aliases and the null checks of [!]
    are left out.) *)
Definition User_fields : list string := ["id"; "name"; "email"; "avatar"].

Definition User_field (parent : doc) (name : string) : value :=
  if String.eqb name "id" then User_id parent else get parent name.

Definition User_select (selection : list string) (parent : doc)
  : option doc :=
  if forallb (fun name => existsb (String.eqb name) User_fields) selection
  then Some (list_to_map
               (List.map (fun name => (name, User_field parent name)) selection))
  else None.

(** *** Requests *)

Inductive request : Type :=
  | MyTaskLists
  | GetTaskList (id : string)
  | SignUp (input : SignUpInput)
  | SignIn (input : SignInInput)
  | CreateTaskList (title : string)
  | UpdateTaskList (id title : string)
  | AddUserToTaskList (taskListId userId : string)
  | DeleteTaskList (id : string)
  | CreateToDo (content taskListId : string)
  | UpdateToDo (id : string) (content : nullable) (isCompleted : bool)
  | DeleteToDo (id : string).

Inductive response : Type :=
  | Docs (l : list doc)
  | Doc (d : option doc)
  | Auth (a : AuthUser)
  | Done (b : bool).

Definition resolve (env : Env) (r : request) (user : option doc)
  : M response :=
  match r with
  | MyTaskLists => let* x := myTaskLists user in ret (Docs x)
  | GetTaskList id => let* x := getTaskList id user in ret (Doc x)
  | SignUp input => let* x := signUp env input in ret (Auth x)
  | SignIn input => let* x := signIn env input in ret (Auth x)
  | CreateTaskList title =>
      let* x := createTaskList env title user in ret (Doc (Some x))
  | UpdateTaskList id title =>
      let* x := updateTaskList id title user in ret (Doc x)
  | AddUserToTaskList taskListId userId =>
      let* x := addUserToTaskList taskListId userId user in ret (Doc x)
  | DeleteTaskList id => let* x := deleteTaskList id user in ret (Done x)
  | CreateToDo content taskListId =>
      let* x := createToDo content taskListId user in ret (Doc (Some x))
  | UpdateToDo id content isCompleted =>
      let* x := updateToDo (updateToDo_args id content isCompleted) user in
      ret (Doc x)
  | DeleteToDo id => let* x := deleteToDo id user in ret (Done x)
  end.

(** One operation of a request: the context is built from the
    authorization header, then the handler runs with it. *)
Definition serve (env : Env) (authorization : option string) (r : request)
  : M response :=
  let* user := context env authorization in
  resolve env r user.

Inductive field : Type :=
  | Progress
  | UsersOf
  | TodosOf
  | TaskListOf.

Definition resolve_field (f : field) (parent : doc) : M unit :=
  match f with
  | Progress => let* _ := TaskList_progress parent in ret tt
  | UsersOf => let* _ := TaskList_users parent in ret tt
  | TodosOf => let* _ := TaskList_todos parent in ret tt
  | TaskListOf => let* _ := ToDo_taskList parent in ret tt
  end.

(** The empty store, and the worlds the server can be in. *)
Definition empty_world : World := mkWorld (mkStore [] [] []) 0 [].

Inductive step : World -> World -> Prop :=
  | step_serve env authorization r w :
      step w (snd (serve env authorization r w))
  | step_field f parent w :
      step w (snd (resolve_field f parent w)).

Inductive reachable : World -> Prop :=
  | reachable_empty : reachable empty_world
  | reachable_step w w' : reachable w -> step w w' -> reachable w'.

End Resolvers.


(** ** Well-formed stores

    What every document of a collection looks like once it has gone through
    the handlers, and that [_id] is a key of each collection. *)

Definition is_Id (v : value) : Prop := exists o, v = Id o.

Definition has_id (d : doc) : Prop := is_Id (get d "_id").

Definition user_ok (d : doc) : Prop :=
  has_id d /\ (exists e, get d "email" = Str e)
  /\ (exists h, get d "password" = Str h).

Definition taskList_ok (d : doc) : Prop :=
  has_id d
  /\ exists x l, get d "userIds" = Array (x :: l) /\ Forall is_Id (x :: l).

Definition toDo_ok (d : doc) : Prop :=
  has_id d /\ is_Id (get d "taskListId")
  /\ (exists b, get d "isCompleted" = Bool b).

Definition doc_ok (c : coll) : doc -> Prop :=
  match c with
  | Users => user_ok
  | TaskList => taskList_ok
  | ToDo => toDo_ok
  end.

Definition ids (l : list doc) : list value :=
  map (fun d => get d "_id") l.

Definition store_ok (s : Store) : Prop :=
  forall c, Forall (doc_ok c) (collection c s) /\ NoDup (ids (collection c s)).

(** A computation keeps the store well formed, whatever it does, and what
    it returns satisfies [Q]. *)
Definition keeps {A} (m : M A) (Q : A -> Prop) : Prop :=
  forall w, store_ok (db w) ->
    store_ok (db (snd (m w))) /\ forall a, fst (m w) = Returned a -> Q a.

(** The identity a request runs with is a stored user, or none. *)
Definition identity_ok (user : option doc) : Prop :=
  forall u, user = Some u -> user_ok u.

(** The to-dos of a store that reference the list [o], and those of a list
    of to-dos that are completed. *)
Definition referencing (o : oid) (s : Store) : list doc :=
  List.filter (fun t => value_eqb (get t "taskListId") (Id o)) (toDos s).

Definition completed (l : list doc) : list doc :=
  List.filter (fun t => value_eqb (get t "isCompleted") (Bool true)) l.

(** The member set of a TaskList record. *)
Definition members (tl : doc) : list value :=
  match get tl "userIds" with
  | Array l => l
  | _ => []
  end.

(** [tl'] is the record [tl] at a later time, with every member it had. *)
Definition descends (tl tl' : doc) : Prop :=
  get tl' "_id" = get tl "_id" /\ exists ext, members tl' = members tl ++ ext.

(** From store [s] to store [s'] no list has lost a member: a list of [s']
    descends from a list of [s], or is new and has a single member. *)
Definition no_member_lost (s s' : Store) : Prop :=
  forall tl', In tl' (taskLists s') ->
    (exists tl, In tl (taskLists s) /\ descends tl tl')
    \/ (~ In (get tl' "_id") (ids (taskLists s)) /\ exists x, members tl' = [x]).

(** A computation loses no member, and a computation leaves the store as
    it is. *)
Definition evolves {A} (m : M A) : Prop :=
  forall w, store_ok (db w) -> no_member_lost (db w) (db (snd (m w))).

Definition reads {A} (m : M A) : Prop :=
  forall w, db (snd (m w)) = db w.

(** ** Further vocabulary *)

(** [x] is among the members of the list [tl]. *)
Definition is_member (x : value) (tl : doc) : bool :=
  existsb (fun y => value_eqb y x) (members tl).

(** The operations that ask for an identity: all but signUp and signIn. *)
Definition protected (r : request) : bool :=
  match r with
  | SignUp _ | SignIn _ => false
  | _ => true
  end.

(** The user with the identifier [x], and the user with the email [e], as
    [findOne] selects them: the first in the collection. *)
Definition user_by_id (x : value) (s : Store) : option doc :=
  List.find (fun u => value_eqb (get u "_id") x) (users s).

Definition user_by_email (e : string) (s : Store) : option doc :=
  List.find (fun u => value_eqb (get u "email") (Str e)) (users s).

(** A computation performs no write: the store is as before and every
    access it adds to the log is a read. *)
Definition only_reads {A} (m : M A) : Prop :=
  forall w,
    db (snd (m w)) = db w
    /\ exists l, log (snd (m w)) = log w ++ l
                 /\ Forall (fun a => exists c, a = Read c) l.

(** A computation leaves the Users collection as it is. *)
Definition leaves_users {A} (m : M A) : Prop :=
  forall w, users (db (snd (m w))) = users (db w).

(** ** Binary64 vocabulary

    The number of binary digits of a positive integer; the double that
    holds a positive integer below 2^53, with its mantissa of 53 digits; and
    the state of a right shift out of which no digit has fallen. *)
Definition digits (n : positive) : Z := Zpos (digits2_pos n).

Definition double_of (n : positive) : number :=
  S754_finite false (Z.to_pos (Zpos n * 2 ^ (53 - digits n))%Z)
    (digits n - 53)%Z.

Definition exactly (m : Z) : shr_record :=
  {| shr_m := m; shr_r := false; shr_s := false |}.

(** ** A sample deployment

    Stand-ins for the opaque capabilities, and a run of the server on them:
    they give the statements below concrete worlds to be checked on. *)

Module Sample.

Fixpoint hex_of_N (digits : nat) (n : N) : string :=
  match digits with
  | O => ""
  | S k => hex_of_N k (n / 16) +:+ String (hex_digit (n mod 16)) ""
  end.

Definition sign (payload : doc) (secret expiresIn : string) (t : N) : string :=
  secret +:+ ":" +:+ default "" (toString (get payload "id")).

Definition verify (tok secret : string) (t : N) : option doc :=
  if String.prefix (secret +:+ ":") tok
  then Some {["id" := Str (String.substring (String.length secret + 1)
                             (String.length tok) tok)]}
  else None.

Definition capabilities : Capabilities := {|
  generate := fun n => OID (hex_of_N 24 n);
  JWT_SECRET := "k";
  jwt_sign := sign;
  jwt_verify := verify;
  bcrypt_hashSync := fun salt password => salt +:+ "$" +:+ password;
  bcrypt_compareSync := fun password hash =>
    String.eqb
      (String.substring (String.length hash - String.length password)
         (String.length password) hash) password;
  toISOString := fun _ => "2021-03-01T09:00:00.000Z"
|}.

Definition env : Env := mkEnv 1614589200000 "s".

Definition alice : SignUpInput :=
  {| su_email := "alice@example.org"; su_password := "pw";
     su_name := "Alice"; su_avatar := Absent |}.

Definition bob : SignUpInput :=
  {| su_email := "bob@example.org"; su_password := "hunter2";
     su_name := "Bob"; su_avatar := IsNull |}.

Definition id0 : string := "000000000000000000000000".
Definition id1 : string := "000000000000000000000001".
Definition id2 : string := "000000000000000000000002".
Definition id3 : string := "000000000000000000000003".

Definition id4 : string := "000000000000000000000004".
Definition id5 : string := "000000000000000000000005".
Definition id6 : string := "000000000000000000000006".

Definition alice_token : option string := Some ("k:" +:+ id0).

Definition run (authorization : option string) (r : request) (w : World)
  : World := snd (serve (H := capabilities) env authorization r w).

(** Alice and Bob sign up, Alice creates a list and four to-dos in it and
    completes the first. *)
Definition served1 : World := run None (SignUp alice) empty_world.
Definition served2 : World := run None (SignUp bob) served1.
Definition served3 : World :=
  run alice_token (CreateTaskList "Groceries") served2.
Definition served4 : World := run alice_token (CreateToDo "milk" id2) served3.
Definition served5 : World := run alice_token (CreateToDo "eggs" id2) served4.
Definition served6 : World := run alice_token (CreateToDo "salt" id2) served5.
Definition served7 : World := run alice_token (CreateToDo "oats" id2) served6.
Definition served8 : World :=
  run alice_token (UpdateToDo id3 Absent true) served7.

(** The records these requests leave in the store. *)
Definition alice_doc : doc :=
  <["_id" := Id (OID id0)]>
    (<["password" := Str "s$pw"]> (SignUpInput_obj alice)).

Definition bob_doc : doc :=
  <["_id" := Id (OID id1)]>
    (<["password" := Str "s$hunter2"]> (SignUpInput_obj bob)).

Definition groceries : doc :=
  <["_id" := Id (OID id2)]>
    (<["title" := Str "Groceries"]>
       (<["createdAt" := Str "2021-03-01T09:00:00.000Z"]>
          (<["userIds" := Array [Id (OID id0)]]> ∅))).

Definition todo (id content : string) : doc :=
  <["_id" := Id (OID id)]>
    (<["content" := Str content]>
       (<["taskListId" := Id (OID id2)]>
          (<["isCompleted" := Bool false]> ∅))).

Definition milk_before : doc := todo id3 "milk".
Definition milk : doc := updateToDo_args id3 Absent true ∪ milk_before.
Definition eggs : doc := todo id4 "eggs".
Definition salt_ : doc := todo id5 "salt".
Definition oats : doc := todo id6 "oats".

Definition log7 : list access :=
  [Write Users; Write Users; Read Users; Write TaskList; Read Users;
   Write ToDo; Read Users; Write ToDo; Read Users; Write ToDo; Read Users;
   Write ToDo].

(** The worlds after the seventh and the eighth request. *)
Definition w7 : World :=
  mkWorld (mkStore [alice_doc; bob_doc] [groceries]
             [milk_before; eggs; salt_; oats]) 7 log7.

Definition w8 : World :=
  mkWorld (mkStore [alice_doc; bob_doc] [groceries] [milk; eggs; salt_; oats])
    7 (log7 ++ [Read Users; Write ToDo; Read ToDo]).

(** Alice then deletes the last to-do: three are left, one of them
    completed, and a third of 100 is no binary64 number: [progress] is
    33.333333333333336. *)
Definition served9 : World := run alice_token (DeleteToDo id6) served8.

Definition w9 : World :=
  mkWorld (mkStore [alice_doc; bob_doc] [groceries] [milk; eggs; salt_])
    7 (log7 ++ [Read Users; Write ToDo; Read ToDo] ++ [Read Users; Write ToDo]).

Definition third : number := S754_finite false 4691249611844267 (-47).

Definition carol : SignUpInput :=
  {| su_email := "carol@example.org"; su_password := "tr0ub4dor";
     su_name := "Carol"; su_avatar := Given "carol.png" |}.

(** A user identifier in capitals, the identifier it denotes, and a list
    identifier that is no identifier at all. *)
Definition capitals : string := "AAAAAAAAAAAAAAAAAAAAAAAA".
Definition small : oid := OID "aaaaaaaaaaaaaaaaaaaaaaaa".
Definition malformed : string := "groceries".

(** A token for a user that never signed up, and one [verify] refuses. *)
Definition stranger : string := "000000000000000000000009".
Definition stranger_token : string := "k:" +:+ stranger.
Definition forged_token : string := "forged".

End Sample.

(** ** More records for the sample deployment *)

Module Scenario.

Import Sample.

Definition id7 : string := "000000000000000000000007".

(** A list one of whose members never signed up. *)
Definition shared_with_stranger : doc :=
  <["userIds" := Array [Id (OID id0); Id (OID stranger)]]> groceries.

(** The to-do and the list the next request would create. *)
Definition tea : doc :=
  <["_id" := Id (OID id7)]>
    (<["content" := Str "tea"]>
       (<["taskListId" := Id (OID id2)]>
          (<["isCompleted" := Bool false]> ∅))).

Definition chores : doc :=
  <["_id" := Id (OID id7)]>
    (<["title" := Str "Chores"]>
       (<["createdAt" := Str "2021-03-01T09:00:00.000Z"]>
          (<["userIds" := Array [Id (OID id0)]]> ∅))).

(** A second sign-up under Alice's email, with another password. *)
Definition alice_again : SignUpInput :=
  {| su_email := "alice@example.org"; su_password := "other";
     su_name := "Alice II"; su_avatar := Absent |}.

(** What a sign-up of Carol answers to a request for every field of
    [type User]. *)
Definition carol_payload : doc :=
  list_to_map
    [("id", Id (OID id7)); ("name", Str "Carol");
     ("email", Str "carol@example.org"); ("avatar", Str "carol.png")].

End Scenario.
(** * Binary64 arithmetic

    What [progress] needs of IEEE-754 arithmetic: an integer below 2^53 is
    held exactly, so is the product of two such integers when it stays below
    2^53; the quotient of two of them is their ratio when that is a whole
    number, and is at most 100 once rounded when the ratio is at most
    100. *)

Section Binary64.

Local Open Scope Z_scope.

(** A positive integer of [d] digits lies between 2^(d-1) and 2^d. *)
Lemma digits_spec (n : positive) : 2 ^ (digits n - 1) <= Zpos n < 2 ^ digits n.
Proof.
  unfold digits. induction n as [n IH|n IH|]; cbn [digits2_pos].
  - rewrite Pos2Z.inj_succ. replace (Z.succ (Zpos (digits2_pos n)) - 1) with
      (Z.succ (Zpos (digits2_pos n) - 1)) by lia.
    rewrite !Z.pow_succ_r by lia. lia.
  - rewrite Pos2Z.inj_succ. replace (Z.succ (Zpos (digits2_pos n)) - 1) with
      (Z.succ (Zpos (digits2_pos n) - 1)) by lia.
    rewrite !Z.pow_succ_r by lia. lia.
  - cbn. lia.
Qed.

Lemma digits_pos (n : positive) : 0 < digits n.
Proof. unfold digits; lia. Qed.

Lemma digits_unique (n : positive) (d : Z) :
  2 ^ (d - 1) <= Zpos n < 2 ^ d -> digits n = d.
Proof.
  intros [Hl Hu]. pose proof (digits_spec n) as [Hl' Hu']. pose proof
      (digits_pos n).
  assert (0 < d).
  { destruct (Z.lt_trichotomy d 0) as [Hd|[->|Hd]]; [|cbn in Hu; lia|done].
    rewrite (Z.pow_neg_r 2 d) in Hu by done. lia. }
  destruct (Z.lt_trichotomy (digits n) d) as [Hlt|[->|Hgt]]; [|done|].
  - assert (2 ^ digits n <= 2 ^ (d - 1)) by (apply Z.pow_le_mono_r; lia). lia.
  - assert (2 ^ d <= 2 ^ (digits n - 1)) by (apply Z.pow_le_mono_r; lia). lia.
Qed.

Lemma digits_shift (n : positive) (k : Z) :
  0 <= k -> digits (Z.to_pos (Zpos n * 2 ^ k)) = digits n + k.
Proof.
  intros Hk. pose proof (digits_spec n) as [Hl Hu]. pose proof (digits_pos n).
  assert (0 < 2 ^ k) by (apply Z.pow_pos_nonneg; lia).
  apply digits_unique. rewrite Z2Pos.id by nia.
  replace (digits n + k - 1) with ((digits n - 1) + k) by lia.
  rewrite !Z.pow_add_r by lia. nia.
Qed.

(** The iteration the rounding functions shift with is plain iteration. *)
Lemma iter_pos_nat {A} (f : A -> A) (p : positive) (x : A) :
  SpecFloat.iter_pos f p x = Nat.iter (Pos.to_nat p) f x.
Proof.
  revert x. induction p as [p IH|p IH|]; intros x; cbn [SpecFloat.iter_pos].
  - rewrite !IH, Pos2Nat.inj_xI, <- Nat.iter_succ_r, <- Nat.iter_add.
    f_equal. lia.
  - rewrite !IH, Pos2Nat.inj_xO, <- Nat.iter_add. f_equal. lia.
  - done.
Qed.

Lemma shr_1_exact (x : Z) : 0 <= x -> shr_1 (exactly (2 * x)) = exactly x.
Proof. by destruct x. Qed.

(** Shifting out [k] zero digits loses nothing. *)
Lemma shr_iter_exact (k : nat) (x : Z) :
  0 <= x -> Nat.iter k shr_1 (exactly (x * 2 ^ Z.of_nat k)) = exactly x.
Proof.
  revert x. induction k as [|k IH]; intros x Hx.
  - cbn. f_equal. lia.
  - replace (x * 2 ^ Z.of_nat (S k)) with ((2 * x) * 2 ^ Z.of_nat k)
      by (rewrite Nat2Z.inj_succ, Z.pow_succ_r; lia).
    change (Nat.iter (S k) shr_1 ?r) with (shr_1 (Nat.iter k shr_1 r)).
    rewrite IH by lia. by apply shr_1_exact.
Qed.

Lemma fexp_normal (e : Z) : -1021 <= e -> fexp 53 1024 e = e - 53.
Proof. unfold fexp, emin. lia. Qed.

Lemma shr_fexp_exact (M m : positive) (e k : Z) :
  digits m = 53 -> 0 <= k -> -1074 <= e + k -> Zpos M = Zpos m * 2 ^ k ->
  shr_fexp 53 1024 (Zpos M) e loc_Exact = (exactly (Zpos m), e + k).
Proof.
  intros Hm Hk He HM. unfold shr_fexp. cbn [Zdigits2 shr_record_of_loc].
  assert (Zpos (digits2_pos M) = 53 + k) as ->.
  { change (digits M = 53 + k). rewrite <- Hm, <- (digits_shift m k Hk).
    f_equal. rewrite <- HM. done. }
  rewrite fexp_normal by lia.
  replace (53 + k + e - 53 - e) with k by lia.
  destruct k as [|p|p]; [| |lia].
  - cbn [shr]. f_equal; [|lia]. unfold exactly. f_equal. lia.
  - cbn [shr]. f_equal. rewrite iter_pos_nat. fold (exactly (Zpos M)).
    rewrite HM, <- (positive_nat_Z p). apply shr_iter_exact. lia.
Qed.

(** Rounding a mantissa of 53 digits followed by zeros drops the zeros. *)
Lemma binary_round_aux_exact (M m : positive) (e k : Z) :
  digits m = 53 -> 0 <= k -> -1074 <= e + k <= 971 -> Zpos M = Zpos m * 2 ^ k ->
  binary_round_aux 53 1024 false (Zpos M) e loc_Exact = S754_finite false m (e
      + k).
Proof.
  intros Hm Hk He HM. unfold binary_round_aux.
  rewrite (shr_fexp_exact M m e k) by (done || lia).
  cbn [exactly shr_m loc_of_shr_record round_nearest_even].
  rewrite (shr_fexp_exact m m (e + k) 0) by (done || lia).
  cbn [exactly shr_m]. replace (e + k + 0) with (e + k) by lia.
  destruct (Z.leb (e + k) (1024 - 53)) eqn:E; [done|].
  apply Z.leb_gt in E. lia.
Qed.

Lemma digits_le (n : positive) (d : Z) : Zpos n < 2 ^ d -> digits n <= d.
Proof.
  intros Hn. pose proof (digits_spec n) as [Hl _]. pose proof (digits_pos n).
  destruct (Z.le_gt_cases (digits n) d) as [|Hgt]; [done|].
  assert (2 ^ d <= 2 ^ (digits n - 1)); [|lia].
  destruct (Z.lt_trichotomy d 0) as [Hd|[->|Hd]].
  - rewrite (Z.pow_neg_r 2 d) by done. apply Z.pow_nonneg. lia.
  - apply Z.pow_le_mono_r; lia.
  - apply Z.pow_le_mono_r; lia.
Qed.

Lemma double_of_mantissa (n : positive) :
  Zpos n < 2 ^ 53 ->
  Zpos (Z.to_pos (Zpos n * 2 ^ (53 - digits n))) = Zpos n * 2 ^ (53 - digits n)
  /\ digits (Z.to_pos (Zpos n * 2 ^ (53 - digits n))) = 53.
Proof.
  intros Hn. pose proof (digits_le n 53 Hn).
  split.
  - apply Z2Pos.id. assert (0 < 2 ^ (53 - digits n)) by (apply
      Z.pow_pos_nonneg; lia). lia.
  - rewrite digits_shift by lia. lia.
Qed.

Lemma Pos_iter_xO (p d : positive) : Zpos (Pos.iter xO p d) = Zpos p * 2 ^ Zpos
    d.
Proof.
  induction d as [|d IH] using Pos.peano_ind.
  - cbn. lia.
  - rewrite Pos.iter_succ, Pos2Z.inj_succ, Z.pow_succ_r by lia.
    rewrite Pos2Z.inj_xO, IH. lia.
Qed.

(** An integer below 2^53 is held exactly. *)
Lemma number_of_nat_pos (k : nat) (n : positive) :
  Z.of_nat k = Zpos n -> Zpos n < 2 ^ 53 -> number_of_nat k = double_of n.
Proof.
  intros Hk Hn. destruct (double_of_mantissa n Hn) as [Hm Hd].
  pose proof (digits_le n 53 Hn) as Hle. pose proof (digits_pos n) as Hpos.
  unfold number_of_nat, double_of. rewrite Hk.
  cbn [binary_normalize]. unfold binary_round, shl_align.
  fold (digits n). rewrite fexp_normal by lia.
  replace (digits n + 0 - 53 - 0) with (digits n - 53) by lia.
  destruct (digits n - 53) as [|d|d] eqn:E; [|lia|].
  - assert (digits n = 53) as Hn53 by lia.
    rewrite (binary_round_aux_exact n n 0 0); [|done|lia|lia|lia].
    rewrite Hn53, Z.sub_diag, Z.pow_0_r, Z.mul_1_r. done.
  - rewrite (binary_round_aux_exact _ (Z.to_pos (Zpos n * 2 ^ (53 - digits n)))
      _ 0);
      [|done|lia|lia|].
    + f_equal. lia.
    + rewrite Pos_iter_xO, Hm. replace (53 - digits n) with (Zpos d) by lia.
        lia.
Qed.

(** A product below 2^53 is exact. *)
Lemma number_mul_double_of (a b : positive) :
  Zpos a * Zpos b < 2 ^ 53 -> number_mul (double_of a) (double_of b) =
      double_of (a * b).
Proof.
  intros Hab.
  assert (Zpos a < 2 ^ 53) as Ha by nia. assert (Zpos b < 2 ^ 53) as Hb by nia.
  assert (Zpos (a * b) < 2 ^ 53) as Hab' by lia.
  destruct (double_of_mantissa a Ha) as [Hma _].
  destruct (double_of_mantissa b Hb) as [Hmb _].
  destruct (double_of_mantissa (a * b) Hab') as [Hm Hd].
  pose proof (digits_le _ _ Ha). pose proof (digits_le _ _ Hb). pose proof
      (digits_le _ _ Hab').
  pose proof (digits_pos a). pose proof (digits_pos b). pose proof (digits_pos
      (a * b)).
  assert (digits a + digits b - 1 <= digits (a * b)) as Hlow.
  { pose proof (digits_spec a) as [La _]. pose proof (digits_spec b) as [Lb _].
    pose proof (digits_spec (a * b)) as [_ Uab].
    destruct (Z.le_gt_cases (digits a + digits b - 1) (digits (a * b))) as
        [|Hgt]; [done|].
    assert (2 ^ digits (a * b) <= 2 ^ ((digits a - 1) + (digits b - 1))) as Hp
      by (apply Z.pow_le_mono_r; lia).
    rewrite Z.pow_add_r in Hp by lia. nia. }
  unfold number_mul, double_of. cbn [SFmul xorb].
  set (k := 53 + digits (a * b) - digits a - digits b).
  rewrite (binary_round_aux_exact _ (Z.to_pos (Zpos (a * b) * 2 ^ (53 - digits
      (a * b)))) _ k);
    [|done|unfold k; lia|unfold k; lia|].
  - f_equal. unfold k. lia.
  - rewrite Pos2Z.inj_mul, Hma, Hmb, Hm, Pos2Z.inj_mul.
    replace (Zpos a * Zpos b * 2 ^ (53 - digits (a * b)) * 2 ^ k)
      with (Zpos a * Zpos b * (2 ^ (53 - digits (a * b)) * 2 ^ k)) by lia.
    rewrite <- Z.pow_add_r by (unfold k; lia).
    replace (Zpos a * 2 ^ (53 - digits a) * (Zpos b * 2 ^ (53 - digits b)))
      with (Zpos a * Zpos b * (2 ^ (53 - digits a) * 2 ^ (53 - digits b))) by
          lia.
    rewrite <- Z.pow_add_r by lia. do 2 f_equal. unfold k. lia.
Qed.

(** Rounding a quotient of 53 or 54 digits crosses no even integer. *)
Lemma first_round (qp : positive) (e : Z) (l : location) :
  2 ^ 52 <= Zpos qp < 2 ^ 54 -> -1074 <= e ->
  exists (m1 : positive) (e1 : Z),
    (let '(mrs, e') := shr_fexp 53 1024 (Zpos qp) e l in
     (round_nearest_even (shr_m mrs) (loc_of_shr_record mrs), e')) = (Zpos m1,
         e1)
    /\ 2 ^ 52 <= Zpos m1 <= 2 ^ 53 /\ e <= e1 <= e + 1
    /\ (forall N, Z.even N = true -> Zpos qp <= N -> (l <> loc_Exact -> Zpos qp
        < N) ->
          Zpos m1 * 2 ^ (e1 - e) <= N)
    /\ (forall L, Z.even L = true -> L <= Zpos qp -> L <= Zpos m1 * 2 ^ (e1 -
        e)).
Proof.
  intros HQ He.
  assert (digits qp = 53 /\ Zpos qp < 2 ^ 53 \/ digits qp = 54 /\ 2 ^ 53 <=
      Zpos qp) as [[Hd HQ']|[Hd HQ']].
  { destruct (Z.lt_ge_cases (Zpos qp) (2 ^ 53)).
    - left. split; [|done]. apply digits_unique. change (53 - 1) with 52. lia.
    - right. split; [|done]. apply digits_unique. change (54 - 1) with 53. lia.
        }
  - unfold shr_fexp. cbn [Zdigits2]. fold (digits qp). rewrite Hd, fexp_normal
      by lia.
    replace (53 + e - 53 - e) with 0 by lia. cbn [shr].
    assert (forall m1 : positive, Zpos qp <= Zpos m1 <= Zpos qp + 1 ->
              (Zpos m1 = Zpos qp + 1 -> l <> loc_Exact) ->
              2 ^ 52 <= Zpos m1 <= 2 ^ 53 /\ e <= e <= e + 1
              /\ (forall N, Z.even N = true -> Zpos qp <= N ->
                    (l <> loc_Exact -> Zpos qp < N) -> Zpos m1 * 2 ^ (e - e) <=
                        N)
              /\ (forall L, Z.even L = true -> L <= Zpos qp ->
                    L <= Zpos m1 * 2 ^ (e - e))) as Hok.
    { intros m1 H1 H2. rewrite Z.sub_diag, Z.pow_0_r.
      split; [lia|]. split; [lia|]. split.
      - intros N _ HN Hstrict.
        destruct (Z.eq_dec (Zpos m1) (Zpos qp + 1)) as [E|]; [|lia].
        specialize (Hstrict (H2 E)). lia.
      - intros L _ HL. lia. }
    destruct l as [|[]]; cbn [shr_record_of_loc shr_m loc_of_shr_record
        round_nearest_even].
    + exists qp, e. split; [done|]. apply Hok; lia.
    + destruct (Z.even (Zpos qp)).
      * exists qp, e. split; [done|]. apply Hok; lia.
      * exists (qp + 1)%positive, e. split; [done|]. apply Hok; [lia|done].
    + exists qp, e. split; [done|]. apply Hok; lia.
    + exists (qp + 1)%positive, e. split; [done|]. apply Hok; [lia|done].
  - unfold shr_fexp. cbn [Zdigits2]. fold (digits qp). rewrite Hd, fexp_normal
      by lia.
    replace (54 + e - 53 - e) with 1 by lia. cbn [shr SpecFloat.iter_pos].
    assert (forall m1 : positive, 2 * Zpos m1 <= Zpos qp + 1 ->
              Zpos qp <= 2 * Zpos m1 + 1 ->
              2 ^ 52 <= Zpos m1 <= 2 ^ 53 /\ e <= e + 1 <= e + 1
              /\ (forall N, Z.even N = true -> Zpos qp <= N ->
                    (l <> loc_Exact -> Zpos qp < N) -> Zpos m1 * 2 ^ (e + 1 -
                        e) <= N)
              /\ (forall L, Z.even L = true -> L <= Zpos qp ->
                    L <= Zpos m1 * 2 ^ (e + 1 - e))) as Hok.
    { intros m1 H1 H2. replace (e + 1 - e) with 1 by lia. rewrite Z.pow_1_r.
      split; [lia|]. split; [lia|]. split.
      - intros N HN HQN _. apply Z.even_spec in HN as [N' ->]. lia.
      - intros L HL HLQ. apply Z.even_spec in HL as [L' ->]. lia. }
    destruct qp as [p|p|]; [| |lia].
    + destruct l as [|[]];
        cbn [shr_record_of_loc shr_1 orb shr_m loc_of_shr_record
            round_nearest_even].
      * destruct (Z.even (Zpos p)).
        -- exists p, (e + 1). split; [done|]. apply Hok; lia.
        -- exists (p + 1)%positive, (e + 1). split; [done|]. apply Hok; lia.
      * exists (p + 1)%positive, (e + 1). split; [done|]. apply Hok; lia.
      * exists (p + 1)%positive, (e + 1). split; [done|]. apply Hok; lia.
      * exists (p + 1)%positive, (e + 1). split; [done|]. apply Hok; lia.
    + destruct l as [|[]];
        cbn [shr_record_of_loc shr_1 orb shr_m loc_of_shr_record
            round_nearest_even];
        exists p, (e + 1); (split; [done|]); apply Hok; lia.
Qed.

Lemma binary_round_aux_between (qp : positive) (e : Z) (l : location) :
  2 ^ 52 <= Zpos qp < 2 ^ 54 -> -1074 <= e <= 900 ->
  exists (m : positive) (E : Z),
    binary_round_aux 53 1024 false (Zpos qp) e l = S754_finite false m E
    /\ digits m = 53 /\ e <= E
    /\ (forall N, Z.even N = true -> Zpos qp <= N -> (l <> loc_Exact -> Zpos qp
        < N) ->
          Zpos m * 2 ^ (E - e) <= N)
    /\ (forall L, Z.even L = true -> L <= Zpos qp -> L <= Zpos m * 2 ^ (E - e)).
Proof.
  intros HQ He.
  destruct (first_round qp e l HQ (proj1 He)) as (m1 & e1 & Heq & Hm1 & He1 &
      Hup & Hlow).
  unfold binary_round_aux.
  destruct (shr_fexp 53 1024 (Zpos qp) e l) as [mrs e'].
  injection Heq as -> ->.
  destruct (Z.lt_ge_cases (Zpos m1) (2 ^ 53)) as [Hlt53|Hge53].
  - assert (digits m1 = 53) as Hd by (apply digits_unique; change (53 - 1) with
      52; lia).
    rewrite (shr_fexp_exact m1 m1 e1 0) by (done || lia).
    cbn [exactly shr_m]. rewrite Z.add_0_r.
    destruct (Z.leb e1 (1024 - 53)) eqn:E; [|apply Z.leb_gt in E; lia].
    exists m1, e1. split; [done|]. split; [done|]. split; [lia|]. done.
  - assert (Zpos m1 = 2 ^ 53) as Hm by lia.
    rewrite (shr_fexp_exact m1 (2 ^ 52)%positive e1 1); [|done|lia|lia|by
        rewrite Hm].
    cbn [exactly shr_m].
    destruct (Z.leb (e1 + 1) (1024 - 53)) eqn:E; [|apply Z.leb_gt in E; lia].
    exists (2 ^ 52)%positive, (e1 + 1). split; [done|]. split; [done|]. split;
        [lia|].
    assert (Zpos (2 ^ 52) * 2 ^ (e1 + 1 - e) = Zpos m1 * 2 ^ (e1 - e)) as ->;
        [|done].
    replace (e1 + 1 - e) with (1 + (e1 - e)) by lia.
    rewrite Z.pow_add_r, Hm by lia. change (2 ^ 1) with 2.
    change (Zpos (2 ^ 52)) with (2 ^ 52). change (2 ^ 53) with (2 ^ 52 * 2).
        lia.
Qed.

Lemma new_location_exact (n r : Z) : new_location n r <> loc_Exact -> r <> 0.
Proof.
  intros Hl ->. apply Hl. unfold new_location, new_location_even,
      new_location_odd.
  by destruct (Z.even n).
Qed.

Lemma at_most_100 (m : positive) (j K : Z) :
  digits m = 53 -> 46 <= K -> 0 <= j -> Zpos m * 2 ^ j <= 100 * 2 ^ K ->
  j - K < -46 \/ j - K = -46 /\ Zpos m <= 7036874417766400.
Proof.
  intros Hd HK Hj Hle.
  pose proof (digits_spec m) as [Hm _]. rewrite Hd in Hm. change (53 - 1) with
      52 in Hm.
  destruct (Z.lt_ge_cases (j - K) (-46)) as [|Hge]; [by left|right].
  assert (2 ^ j = 2 ^ (K - 46) * 2 ^ (j - K + 46)) as Ej
    by (rewrite <- Z.pow_add_r by lia; f_equal; lia).
  assert (2 ^ K = 2 ^ (K - 46) * 2 ^ 46) as EK
    by (rewrite <- Z.pow_add_r by lia; f_equal; lia).
  rewrite Ej, EK in Hle.
  assert (0 < 2 ^ (K - 46)) as Hu by (apply Z.pow_pos_nonneg; lia).
  assert (Zpos m * 2 ^ (j - K + 46) <= 100 * 2 ^ 46) as Hle'.
  { apply (Z.mul_le_mono_pos_l _ _ (2 ^ (K - 46)) Hu). lia. }
  destruct (Z.eq_dec (j - K + 46) 0) as [E0|Hne].
  - rewrite E0, Z.pow_0_r in Hle'. change (2 ^ 46) with 70368744177664 in Hle'.
      lia.
  - exfalso. assert (2 ^ 1 <= 2 ^ (j - K + 46)) as Hv by (apply
      Z.pow_le_mono_r; lia).
    change (2 ^ 1) with 2 in Hv.
    assert (Zpos m * 2 <= Zpos m * 2 ^ (j - K + 46)) by (apply
        Z.mul_le_mono_nonneg_l; lia).
    change (2 ^ 52) with 4503599627370496 in Hm.
    change (2 ^ 46) with 70368744177664 in Hle'. lia.
Qed.

(** The quotient of two integers lies on the same side of every whole
    multiple as their ratio. *)
Lemma number_div_between (a t : positive) :
  Zpos a < 2 ^ 53 -> Zpos t < 2 ^ 53 ->
  let K := 53 + digits t - digits a in
  exists (m : positive) (E : Z),
    number_div (double_of a) (double_of t) = S754_finite false m E
    /\ digits m = 53 /\ 0 <= E + K
    /\ (forall k, Zpos a <= k * Zpos t -> Zpos m * 2 ^ (E + K) <= k * 2 ^ K)
    /\ (forall k, k * Zpos t <= Zpos a -> k * 2 ^ K <= Zpos m * 2 ^ (E + K)).
Proof.
  intros Ha Ht K.
  destruct (double_of_mantissa a Ha) as [Hma Hda].
  destruct (double_of_mantissa t Ht) as [Hmt Hdt].
  pose proof (digits_le _ _ Ha) as Hla. pose proof (digits_le _ _ Ht) as Hlt.
  pose proof (digits_pos a) as Hpa. pose proof (digits_pos t) as Hpt.
  unfold number_div, double_of.
  set (mx := Z.to_pos (Zpos a * 2 ^ (53 - digits a))) in *.
  set (my := Z.to_pos (Zpos t * 2 ^ (53 - digits t))) in *.
  cbn [SFdiv xorb]. unfold SFdiv_core_binary. cbn [Zdigits2].
  fold (digits mx) (digits my). rewrite Hda, Hdt.
  set (e' := Z.min _ _).
  assert (e' = digits a - digits t - 53) as He' by (unfold e'; rewrite
      fexp_normal; lia).
  clearbody e'. subst e'.
  replace (digits a - 53 - (digits t - 53) - (digits a - digits t - 53)) with
      53 by lia.
  cbv iota beta. rewrite Z.shiftl_mul_pow2 by lia.
  pose proof (digits_spec mx) as Hrx. rewrite Hda in Hrx. change (53 - 1) with
      52 in Hrx.
  pose proof (digits_spec my) as Hry. rewrite Hdt in Hry. change (53 - 1) with
      52 in Hry.
  pose proof (Z_div_mod (Zpos mx * 2 ^ 53) (Zpos my) eq_refl) as Hdiv.
  destruct (Z.div_eucl (Zpos mx * 2 ^ 53) (Zpos my)) as [q r].
  destruct Hdiv as [Hq Hr].
  assert (forall k, Zpos my * (k * 2 ^ K) = k * Zpos t * 2 ^ (53 - digits a +
      53)) as Hscale.
  { intros k. rewrite Hmt.
    replace (Zpos t * 2 ^ (53 - digits t) * (k * 2 ^ K))
      with (k * Zpos t * (2 ^ (53 - digits t) * 2 ^ K)) by lia.
    rewrite <- Z.pow_add_r by (unfold K; lia). do 2 f_equal. unfold K. lia. }
  assert (Zpos my * q + r = Zpos a * 2 ^ (53 - digits a + 53)) as Hnum.
  { rewrite <- Hq, Hma, Z.pow_add_r by lia. lia. }
  assert (0 < 2 ^ (53 - digits a + 53)) as Hpow by (apply Z.pow_pos_nonneg;
      lia).
  assert (2 ^ 52 <= q < 2 ^ 54) as Hqr.
  { clear Hscale Hnum. change (2 ^ 54) with (2 * 2 ^ 53). change (2 ^ 53) with
      (2 * 2 ^ 52) in *.
    generalize dependent (2 ^ 52). intros c. intros. nia. }
  destruct q as [|qp|qp]; [lia| |lia].
  destruct (binary_round_aux_between qp (digits a - digits t - 53)
              (new_location (Zpos my) r)) as (m & E & Heq & Hm & HE & Hup &
                  Hlow);
    [done|lia|].
  replace (E - (digits a - digits t - 53)) with (E + K) in * by (unfold K; lia).
  assert (forall k, Z.even (k * 2 ^ K) = true) as Heven.
  { intros k. replace K with (Z.succ (K - 1)) by lia.
    rewrite Z.pow_succ_r by (unfold K; lia). rewrite !Z.even_mul. cbn.
    by rewrite orb_true_r. }
  exists m, E. split; [done|]. split; [done|]. split; [unfold K; lia|]. split.
  - intros k Hk. apply Hup; [apply Heven| |].
    + assert (Zpos my * Zpos qp + r <= Zpos my * (k * 2 ^ K)); [|nia].
      rewrite Hscale, Hnum. apply Z.mul_le_mono_nonneg_r; lia.
    + intros Hl. apply new_location_exact in Hl.
      assert (Zpos my * Zpos qp + r <= Zpos my * (k * 2 ^ K)); [|nia].
      rewrite Hscale, Hnum. apply Z.mul_le_mono_nonneg_r; lia.
  - intros k Hk. apply Hlow; [apply Heven|].
    assert (Zpos my * (k * 2 ^ K) <= Zpos my * Zpos qp + r); [|nia].
    rewrite Hscale, Hnum. apply Z.mul_le_mono_nonneg_r; lia.
Qed.

Lemma number_div_upper (a t : positive) :
  Zpos a < 2 ^ 53 -> Zpos t < 2 ^ 53 -> Zpos a <= 100 * Zpos t ->
  exists (m : positive) (E : Z),
    number_div (double_of a) (double_of t) = S754_finite false m E
    /\ (E < -46 \/ E = -46 /\ Zpos m <= 7036874417766400).
Proof.
  intros Ha Ht Hat.
  pose proof (digits_le _ _ Ha) as Hla. pose proof (digits_pos t) as Hpt.
  assert (digits a <= digits t + 7) as Hdd.
  { pose proof (digits_spec a) as [La _]. pose proof (digits_spec t) as [_ Ut].
    pose proof (digits_pos a).
    destruct (Z.le_gt_cases (digits a) (digits t + 7)) as [|Hgt]; [done|].
    assert (2 ^ (digits t + 7) <= 2 ^ (digits a - 1)) as Hp by (apply
        Z.pow_le_mono_r; lia).
    rewrite Z.pow_add_r in Hp by lia. change (2 ^ 7) with 128 in Hp. lia. }
  destruct (number_div_between a t Ha Ht) as (m & E & Heq & Hm & HE & Hup & _).
  exists m, E. split; [done|].
  replace E with ((E + (53 + digits t - digits a)) - (53 + digits t - digits
      a)) by lia.
  apply at_most_100; [done|lia|done|by apply Hup].
Qed.

Lemma double_of_unique (m k : positive) (j K : Z) :
  digits m = 53 -> Zpos k < 2 ^ 53 -> 0 <= j -> 0 <= K ->
  Zpos m * 2 ^ j = Zpos k * 2 ^ K ->
  S754_finite false m (j - K) = double_of k.
Proof.
  intros Hm Hk Hj HK Heq. pose proof (digits_le _ _ Hk) as Hle.
  assert (53 + j = digits k + K) as Hd.
  { rewrite <- Hm, <- (digits_shift m j Hj), <- (digits_shift k K HK). by
      rewrite Heq. }
  unfold double_of. f_equal; [|lia].
  assert (Zpos m = Zpos k * 2 ^ (53 - digits k)) as Hx; [|by rewrite <- Hx].
  assert (0 < 2 ^ j) as Hpj by (apply Z.pow_pos_nonneg; lia).
  apply (Z.mul_cancel_r _ _ (2 ^ j)); [lia|]. rewrite Heq.
  replace K with ((53 - digits k) + j) at 1 by lia.
  rewrite Z.pow_add_r by lia. lia.
Qed.

(** A whole ratio is the quotient. *)
Lemma number_div_exact (a t k : positive) :
  Zpos a < 2 ^ 53 -> Zpos t < 2 ^ 53 -> Zpos a = Zpos k * Zpos t ->
  number_div (double_of a) (double_of t) = double_of k.
Proof.
  intros Ha Ht Hk.
  pose proof (digits_le _ _ Ha) as Hla. pose proof (digits_pos t) as Hpt.
  destruct (number_div_between a t Ha Ht) as (m & E & -> & Hm & HE & Hup &
      Hlow).
  replace E with ((E + (53 + digits t - digits a)) - (53 + digits t - digits
      a)) at 1 by lia.
  apply double_of_unique; [done|nia|done|lia|].
  apply Z.le_antisymm; [apply Hup|apply Hlow]; lia.
Qed.

Lemma number_of_nat_100 : number_of_nat 100 = S754_finite false
    7036874417766400 (-46).
Proof. vm_compute. reflexivity. Qed.

Lemma SFleb_finite (m M : positive) (E E' : Z) :
  E < E' \/ E = E' /\ Zpos m <= Zpos M ->
  SFleb (S754_finite false m E) (S754_finite false M E') = true.
Proof.
  intros HE. unfold SFleb. cbn [SFcompare].
  destruct HE as [HE|[-> Hm]].
  - apply Z.compare_lt_iff in HE. by rewrite HE.
  - rewrite Z.compare_refl. unfold Z.le in Hm. cbn [Z.compare] in Hm.
    unfold Pos.compare in Hm. by destruct (Pos.compare_cont Eq m M).
Qed.

Lemma at_most_number_100 (m : positive) (E : Z) :
  E < -46 \/ E = -46 /\ Zpos m <= 7036874417766400 ->
  number_leb (S754_finite false m E) (number_of_nat 100) = true.
Proof. intros HE. rewrite number_of_nat_100. by apply SFleb_finite. Qed.

Lemma progress_value (c t : nat) :
  (c <= t)%nat -> (0 < t)%nat -> Z.of_nat t < 2 ^ 32 ->
  let p := number_div (number_mul (number_of_nat 100) (number_of_nat c))
      (number_of_nat t) in
  p = S754_zero false
  \/ exists (m : positive) (E : Z),
       p = S754_finite false m E /\ (E < -46 \/ E = -46 /\ Zpos m <=
           7036874417766400).
Proof.
  intros Hct Ht Hbig p.
  destruct (Z.of_nat t) as [|tp|tp] eqn:Et; [lia| |lia].
  assert (2 ^ 32 * 100 < 2 ^ 53) as Hpow by done.
  assert (number_of_nat t = double_of tp) as E't by (apply number_of_nat_pos;
      [done|lia]).
  destruct (Z.of_nat c) as [|cp|cp] eqn:Ec; [| |lia].
  - left. assert (number_of_nat c = S754_zero false) as E'c by (unfold
      number_of_nat; by rewrite Ec).
    unfold p. rewrite E'c, E't. done.
  - right. assert (number_of_nat c = double_of cp) as E'c by (apply
      number_of_nat_pos; [done|lia]).
    assert (number_of_nat 100 = double_of 100) as E'100 by (by apply
        number_of_nat_pos).
    unfold p. rewrite E'c, E't, E'100. rewrite number_mul_double_of by lia.
    apply number_div_upper; lia.
Qed.

(** The percentage of [c] out of [t] lies between 0 and 100. *)
Lemma progress_range (c t : nat) :
  (c <= t)%nat -> (0 < t)%nat -> Z.of_nat t < 2 ^ 32 ->
  let p := number_div (number_mul (number_of_nat 100) (number_of_nat c))
      (number_of_nat t) in
  number_leb (number_of_nat 0) p = true /\ number_leb p (number_of_nat 100) =
      true.
Proof.
  intros Hct Ht Hbig p.
  destruct (progress_value c t Hct Ht Hbig) as [Hp|(m & E & Hp & HE)];
    fold p in Hp; rewrite Hp.
  - split; [done|]. by rewrite number_of_nat_100.
  - split; [done|]. by apply at_most_number_100.
Qed.

(** A whole percentage is computed exactly. *)
Lemma progress_whole (c t k : nat) :
  (c <= t)%nat -> (0 < t)%nat -> Z.of_nat t < 2 ^ 32 -> (100 * c = k * t)%nat ->
  number_div (number_mul (number_of_nat 100) (number_of_nat c)) (number_of_nat
      t) = number_of_nat k.
Proof.
  intros Hct Ht Hbig Hk.
  destruct (Z.of_nat t) as [|tp|tp] eqn:Et; [lia| |lia].
  assert (2 ^ 32 * 100 < 2 ^ 53) as Hpow by done.
  assert (number_of_nat t = double_of tp) as E't by (apply number_of_nat_pos;
      [done|lia]).
  destruct (Z.of_nat c) as [|cp|cp] eqn:Ec; [| |lia].
  - assert (k = 0)%nat as -> by nia.
    assert (number_of_nat c = S754_zero false) as E'c by (unfold number_of_nat;
        by rewrite Ec).
    rewrite E'c, E't. done.
  - destruct (Z.of_nat k) as [|kp|kp] eqn:Ek; [nia| |lia].
    assert (Zpos (100 * cp) = Zpos kp * Zpos tp) as Hmul by lia.
    assert (number_of_nat c = double_of cp) as E'c by (apply number_of_nat_pos;
        [done|lia]).
    assert (number_of_nat 100 = double_of 100) as E'100 by (by apply
        number_of_nat_pos).
    assert (number_of_nat k = double_of kp) as E'k by (apply number_of_nat_pos;
        [done|nia]).
    rewrite E'c, E't, E'100, E'k. rewrite number_mul_double_of by lia.
    apply number_div_exact; [lia|lia|done].
Qed.

End Binary64.


(** * Properties *)

(** ** Values and queries *)

Lemma value_ind' (P : value -> Prop) :
  P Undefined -> P Null -> (forall b, P (Bool b)) -> (forall s, P (Str s)) ->
  (forall o, P (Id o)) -> (forall l, Forall P l -> P (Array l)) ->
  forall v, P v.
Proof.
  intros HU HN HB HS HI HA. fix IH 1.
  intros [ | | b | s | o | l].
  - exact HU.
  - exact HN.
  - apply HB.
  - apply HS.
  - apply HI.
  - apply HA. induction l as [|a l IHl]; constructor; [apply IH | exact IHl].
Qed.

Lemma value_eqb_eq (x y : value) : value_eqb x y = true <-> x = y.
Proof.
  revert y. induction x as [ | | b | s | o | l IHl] using value_ind';
    intros [ | | b' | s' | o' | l']; simpl; try (split; congruence).
  - rewrite Bool.eqb_true_iff. split; congruence.
  - rewrite String.eqb_eq. split; congruence.
  - rewrite bool_decide_eq_true. split; congruence.
  - revert l'. induction IHl as [|a l Ha _ IH]; intros [|b l'];
      try (split; congruence).
    rewrite andb_true_iff, Ha, IH. split.
    + intros [-> E]. congruence.
    + intros E. injection E as -> ->. auto.
Qed.

Lemma value_eqb_refl (x : value) : value_eqb x x = true.
Proof. by apply value_eqb_eq. Qed.

Lemma value_eqb_neq (x y : value) : value_eqb x y = false <-> x <> y.
Proof.
  rewrite <- value_eqb_eq. destruct (value_eqb x y); split; congruence.
Qed.

Lemma oid_toString_inj (a b : oid) : oid_toString a = oid_toString b -> a = b.
Proof. destruct a, b; simpl; congruence. Qed.

(** A query on a field that holds an identifier or a string selects by
    equality. *)
Lemma matches_Id (k : string) (q : value) (d : doc) (o : oid) :
  get d k = Id o -> matches k q d = true <-> q = Id o.
Proof.
  intros E. unfold matches. rewrite E, orb_false_r, value_eqb_eq.
  split; congruence.
Qed.

Lemma matches_Str (k : string) (q : value) (d : doc) (s : string) :
  get d k = Str s -> matches k q d = true <-> q = Str s.
Proof.
  intros E. unfold matches. rewrite E, orb_false_r, value_eqb_eq.
  split; congruence.
Qed.

Lemma matches_id_iff (q : value) (d : doc) :
  has_id d -> matches "_id" q d = true <-> get d "_id" = q.
Proof.
  intros [o E]. rewrite (matches_Id _ _ _ _ E), E. split; congruence.
Qed.

(** ** The store operations keep the store well formed *)

Lemma collection_with_same (c : coll) (l : list doc) (s : Store) :
  collection c (with_collection c l s) = l.
Proof. by destruct c. Qed.

Lemma collection_with_other (c c' : coll) (l : list doc) (s : Store) :
  c <> c' -> collection c' (with_collection c l s) = collection c' s.
Proof. by destruct c, c'. Qed.

Lemma store_ok_with (c : coll) (l : list doc) (s : Store) :
  store_ok s -> Forall (doc_ok c) l -> NoDup (ids l) ->
  store_ok (with_collection c l s).
Proof.
  intros Hs Hl Hn c'. destruct (decide (c = c')) as [<-|Hne].
  - by rewrite collection_with_same.
  - rewrite collection_with_other by done. apply Hs.
Qed.

Lemma ids_filter_NoDup (p : doc -> bool) (l : list doc) :
  NoDup (ids l) -> NoDup (ids (List.filter p l)).
Proof.
  induction l as [|d l IH]; simpl; [done|].
  rewrite NoDup_cons. intros [Hd Hl]. destruct (p d); simpl; [|by auto].
  apply NoDup_cons. split; [|by auto].
  intros Hin. apply Hd. unfold ids in *.
  apply list_elem_of_fmap in Hin as (e & -> & He).
  apply list_elem_of_fmap. exists e. split; [done|].
  apply list_elem_of_In. apply list_elem_of_In, filter_In in He. tauto.
Qed.

Lemma filter_Forall (P : doc -> Prop) (p : doc -> bool) (l : list doc) :
  Forall P l -> Forall P (List.filter p l).
Proof.
  induction 1 as [|d l Hd _ IH]; simpl; [constructor|].
  destruct (p d); [by constructor | done].
Qed.

Lemma update_first_Forall (P : doc -> Prop) (p : doc -> bool)
    (f : doc -> option doc) (l l' : list doc) :
  (forall d d', P d -> f d = Some d' -> P d') ->
  Forall P l -> update_first p f l = Some l' -> Forall P l'.
Proof.
  intros Hf Hl. revert l'. induction Hl as [|d l Hd Hl IH]; simpl; intros l' E.
  - injection E as <-. constructor.
  - destruct (p d).
    + destruct (f d) as [d'|] eqn:Ef; [|done]. injection E as <-.
      constructor; eauto.
    + destruct (update_first p f l) as [r|]; [|done]. injection E as <-.
      constructor; auto.
Qed.

Lemma update_first_ids (P : doc -> Prop) (p : doc -> bool)
    (f : doc -> option doc) (l l' : list doc) :
  (forall d d', P d -> f d = Some d' -> get d' "_id" = get d "_id") ->
  Forall P l -> update_first p f l = Some l' -> ids l' = ids l.
Proof.
  intros Hf Hl. revert l'. induction Hl as [|d l Hd Hl IH]; simpl; intros l' E.
  - by injection E as <-.
  - destruct (p d).
    + destruct (f d) as [d'|] eqn:Ef; [|done]. injection E as <-.
      simpl. f_equal. eauto.
    + destruct (update_first p f l) as [r|]; [|done]. injection E as <-.
      simpl. f_equal. auto.
Qed.

Section Properties.

Context `{Capabilities}.

Lemma keeps_ret {A} (a : A) (Q : A -> Prop) : Q a -> keeps (ret a) Q.
Proof. intros Ha w Hw. split; [done|]. simpl. by intros ? [= <-]. Qed.

Lemma keeps_throw {A} (e : exn) (Q : A -> Prop) : keeps (throw e) Q.
Proof. intros w Hw. by split. Qed.

Lemma keeps_bind {A B} (m : M A) (k : A -> M B) (Q : A -> Prop)
    (R : B -> Prop) :
  keeps m Q -> (forall a, Q a -> keeps (k a) R) -> keeps (bind m k) R.
Proof.
  intros Hm Hk w Hw. unfold bind. destruct (Hm w Hw) as [H1 H2].
  destruct (m w) as [[a|e] w1]; simpl in *.
  - apply Hk; auto.
  - by split.
Qed.

Lemma keeps_weaken {A} (m : M A) (Q R : A -> Prop) :
  keeps m Q -> (forall a, Q a -> R a) -> keeps m R.
Proof. intros Hm HQR w Hw. destruct (Hm w Hw). split; auto. Qed.

Lemma keeps_ObjectId (v : value) : keeps (ObjectId v) (fun _ => True).
Proof.
  intros w Hw. unfold ObjectId.
  destruct v as [ | | b | s | o | l]; simpl; try done.
  destruct (ObjectId_fromString s); by split.
Qed.

Lemma keeps_findOne (c : coll) (k : string) (q : value) :
  keeps (findOne c k q)
    (fun r => forall d, r = Some d -> doc_ok c d /\ matches k q d = true).
Proof.
  intros w Hw. split; [done|]. simpl. intros r [= <-] d Hd.
  apply find_some in Hd as [Hin Hm]. split; [|done].
  destruct (Hw c) as [Hok _]. rewrite Forall_forall in Hok.
  apply Hok. by apply list_elem_of_In.
Qed.

Lemma keeps_find (c : coll) (k : string) (q : value) :
  keeps (find c k q) (Forall (doc_ok c)).
Proof.
  intros w Hw. split; [done|]. simpl. intros r [= <-].
  apply filter_Forall, Hw.
Qed.

Lemma keeps_insertOne (c : coll) (d : doc) :
  d !! "_id" = None -> (forall o, doc_ok c (<["_id" := Id o]> d)) ->
  keeps (insertOne c d) (doc_ok c).
Proof.
  intros Hn Hd w Hw. unfold insertOne. rewrite Hn.
  destruct (existsb _ _) eqn:Ex; simpl; [by split|].
  split; [|by intros ? [= <-]].
  destruct (Hw c) as [Hok Hnd].
  apply store_ok_with; [done | | ].
  - apply Forall_app. split; [done|]. by repeat constructor.
  - unfold ids. rewrite fmap_app. apply NoDup_app. split; [done|].
    split; [|apply NoDup_singleton].
    intros x Hx Hx'. apply list_elem_of_singleton in Hx'. subst x.
    apply list_elem_of_fmap in Hx as (e & He & Hin).
    assert (existsb (fun e => value_eqb (get e "_id")
              (get (<["_id" := Id (generate (pk w))]> d) "_id"))
              (collection c (db w)) = true); [|congruence].
    apply existsb_exists. exists e. split; [by apply list_elem_of_In|].
    rewrite He. apply value_eqb_refl.
Qed.

Lemma keeps_updateOne (c : coll) (k : string) (q : value) (u : update) :
  (forall d d', doc_ok c d -> apply_update u d = Some d' ->
     doc_ok c d' /\ get d' "_id" = get d "_id") ->
  keeps (updateOne c k q u) (fun _ => True).
Proof.
  intros Hu w Hw. unfold updateOne.
  destruct (update_first _ _ _) as [l|] eqn:E; simpl; [|by split].
  split; [|done]. destruct (Hw c) as [Hok Hnd].
  apply store_ok_with; [done | | ].
  - eapply update_first_Forall; [|exact Hok|exact E].
    intros d d' Hd Hd'. by apply (Hu d d').
  - erewrite update_first_ids; [exact Hnd| |exact Hok|exact E].
    intros d d' Hd Hd'. by apply (Hu d d').
Qed.

Lemma keeps_remove (c : coll) (k : string) (q : value) :
  keeps (remove c k q) (fun _ => True).
Proof.
  intros w Hw. split; [|done]. simpl. destruct (Hw c) as [Hok Hnd].
  apply store_ok_with; [done | by apply filter_Forall
                              | by apply ids_filter_NoDup].
Qed.

(** ** Reading documents *)

Lemma get_insert_eq (d : doc) (k : string) (v : value) :
  get (<[k := v]> d) k = v.
Proof. unfold get. by rewrite lookup_insert_eq. Qed.

Lemma get_insert_ne (d : doc) (k k' : string) (v : value) :
  k <> k' -> get (<[k := v]> d) k' = get d k'.
Proof. intros. unfold get. by rewrite lookup_insert_ne. Qed.

Lemma get_union_l (m d : doc) (k : string) (v : value) :
  m !! k = Some v -> get (m ∪ d) k = v.
Proof. intros E. unfold get. by rewrite (lookup_union_Some_l _ _ _ _ E). Qed.

Lemma get_union_r (m d : doc) (k : string) :
  m !! k = None -> get (m ∪ d) k = get d k.
Proof. intros E. unfold get. by rewrite lookup_union_r. Qed.

Lemma updateToDo_args_lookup (id : string) (content : nullable)
    (isCompleted : bool) (k : string) :
  k <> "id" -> k <> "content" -> k <> "isCompleted" ->
  updateToDo_args id content isCompleted !! k = None.
Proof.
  intros. unfold updateToDo_args, with_nullable.
  destruct content; by simplify_map_eq.
Qed.

Lemma updateToDo_args_id (id : string) (content : nullable)
    (isCompleted : bool) :
  updateToDo_args id content isCompleted !! "id" = Some (Str id).
Proof. unfold updateToDo_args, with_nullable. by destruct content. Qed.

Lemma updateToDo_args_isCompleted (id : string) (content : nullable)
    (isCompleted : bool) :
  updateToDo_args id content isCompleted !! "isCompleted"
  = Some (Bool isCompleted).
Proof. unfold updateToDo_args, with_nullable. by destruct content. Qed.

(** ** The handlers keep the store well formed *)

Lemma keeps_mapM {A B} (f : A -> M B) (l : list A) :
  (forall a, keeps (f a) (fun _ => True)) -> keeps (mapM f l) (fun _ => True).
Proof.
  intros Hf. induction l as [|a l IH]; simpl.
  - by apply keeps_ret.
  - eapply keeps_bind; [apply Hf|]. intros b _.
    eapply keeps_bind; [apply IH|]. intros bs _. by apply keeps_ret.
Qed.

Lemma keeps_array_find (p : value -> M bool) (l : list value) :
  (forall x, keeps (p x) (fun _ => True)) ->
  keeps (array_find p l) (fun _ => True).
Proof.
  intros Hp. induction l as [|x l IH]; simpl.
  - by apply keeps_ret.
  - eapply keeps_bind; [apply Hp|]. intros [] _; [by apply keeps_ret|done].
Qed.

Lemma keeps_getUserFromToken (env : Env) (token : option string) :
  keeps (getUserFromToken env token) identity_ok.
Proof.
  unfold getUserFromToken. destruct token as [t|]; [|by apply keeps_ret].
  destruct (negb _); [by apply keeps_ret|].
  destruct (jwt_verify _ _ _) as [tokenData|]; [|apply keeps_throw].
  destruct (negb _); [by apply keeps_ret|].
  eapply keeps_bind; [apply keeps_ObjectId|]. intros o _.
  eapply keeps_bind; [apply keeps_findOne|]. intros r Hr.
  apply keeps_ret. intros u ->. by apply (Hr u).
Qed.

Lemma keeps_context (env : Env) (authorization : option string) :
  keeps (context env authorization) identity_ok.
Proof.
  unfold context. eapply keeps_bind; [apply keeps_getUserFromToken|].
  intros u Hu. by apply keeps_ret.
Qed.

Lemma keeps_signUp (env : Env) (input : SignUpInput) :
  keeps (signUp env input) (fun _ => True).
Proof.
  unfold signUp. eapply keeps_bind; [|intros; by apply keeps_ret].
  apply keeps_insertOne.
  - unfold SignUpInput_obj, with_nullable. by destruct (su_avatar input).
  - intros o. unfold SignUpInput_obj, with_nullable.
    destruct (su_avatar input); (split; [by eexists|split; by eexists]).
Qed.

Lemma keeps_signIn (env : Env) (input : SignInInput) :
  keeps (signIn env input) (fun _ => True).
Proof.
  unfold signIn. eapply keeps_bind; [apply keeps_findOne|].
  intros [u|] _; [|apply keeps_throw].
  destruct (get u "password"); try apply keeps_throw.
  destruct (negb _); [apply keeps_throw | by apply keeps_ret].
Qed.

Lemma keeps_createTaskList (env : Env) (title : string) (user : option doc) :
  identity_ok user -> keeps (createTaskList env title user) (fun _ => True).
Proof.
  intros Hu. unfold createTaskList. destruct user as [u|]; [|apply keeps_throw].
  destruct (Hu u eq_refl) as [Hid _].
  eapply keeps_bind; [|intros; by apply keeps_ret].
  apply keeps_insertOne; [done|]. intros o. split; [by eexists|].
  exists (get u "_id"), []. split; [done|]. by constructor.
Qed.

Lemma keeps_updateTaskList (id title : string) (user : option doc) :
  keeps (updateTaskList id title user) (fun _ => True).
Proof.
  unfold updateTaskList. destruct user as [u|]; [|apply keeps_throw].
  eapply keeps_bind; [apply keeps_ObjectId|]. intros o _.
  eapply keeps_bind.
  - apply keeps_updateOne. intros d d' Hd [= <-].
    assert (forall k, k <> "title" ->
              get ({["title" := Str title]} ∪ d) k = get d k) as E.
    { intros k Hk. apply get_union_r. by apply lookup_singleton_ne. }
    unfold doc_ok, taskList_ok, has_id in *. by rewrite !E.
  - intros _ _. eapply keeps_bind; [apply keeps_ObjectId|]. intros o' _.
    eapply keeps_weaken; [apply keeps_findOne|done].
Qed.

Lemma keeps_addUserToTaskList (taskListId userId : string)
    (user : option doc) :
  keeps (addUserToTaskList taskListId userId user) (fun _ => True).
Proof.
  unfold addUserToTaskList. destruct user as [u|]; [|apply keeps_throw].
  eapply keeps_bind; [apply keeps_ObjectId|]. intros o _.
  eapply keeps_bind; [apply keeps_findOne|].
  intros [tl|] _; [|by apply keeps_ret].
  destruct (get tl "userIds") as [ | | | | |userIds]; try apply keeps_throw.
  eapply keeps_bind.
  { apply keeps_array_find. intros x.
    destruct (toString x); [by apply keeps_ret | apply keeps_throw]. }
  intros found _. destruct (truthy found); [apply keeps_throw|].
  eapply keeps_bind; [apply keeps_ObjectId|]. intros o1 _.
  eapply keeps_bind; [apply keeps_ObjectId|]. intros u1 _.
  eapply keeps_bind; [|intros _ _; eapply keeps_bind;
                        [apply keeps_ObjectId|intros; by apply keeps_ret]].
  apply keeps_updateOne. intros d d' (Hid & x & l & Hl & HF) Hd'.
  simpl in Hd'. unfold get in Hl.
  destruct (d !! "userIds") as [v|] eqn:E; [|done]. simpl in Hl. subst v.
  injection Hd' as <-. split; [split|].
  - unfold has_id. by rewrite get_insert_ne.
  - exists x, (l ++ [Id u1]). rewrite get_insert_eq. split; [done|].
    rewrite app_comm_cons. apply Forall_app. split; [done|].
    repeat constructor. by eexists.
  - by rewrite get_insert_ne.
Qed.

Lemma keeps_deleteTaskList (id : string) (user : option doc) :
  keeps (deleteTaskList id user) (fun _ => True).
Proof.
  unfold deleteTaskList. destruct user as [u|]; [|apply keeps_throw].
  eapply keeps_bind; [apply keeps_ObjectId|]. intros o _.
  eapply keeps_bind; [apply keeps_remove|]. intros; by apply keeps_ret.
Qed.

Lemma keeps_createToDo (content taskListId : string) (user : option doc) :
  keeps (createToDo content taskListId user) (fun _ => True).
Proof.
  unfold createToDo. destruct user as [u|]; [|apply keeps_throw].
  eapply keeps_bind; [apply keeps_ObjectId|]. intros o _.
  eapply keeps_bind; [|intros; by apply keeps_ret].
  apply keeps_insertOne; [done|]. intros o'.
  split; [by eexists|split; by eexists].
Qed.

Lemma keeps_updateToDo (id : string) (content : nullable) (isCompleted : bool)
    (user : option doc) :
  keeps (updateToDo (updateToDo_args id content isCompleted) user)
    (fun _ => True).
Proof.
  unfold updateToDo. destruct user as [u|]; [|apply keeps_throw].
  eapply keeps_bind; [apply keeps_ObjectId|]. intros o _.
  eapply keeps_bind.
  - apply keeps_updateOne. intros d d' (Hid & Htl & b & Hb) [= <-].
    unfold doc_ok, toDo_ok, has_id.
    rewrite !get_union_r by (by apply updateToDo_args_lookup).
    rewrite (get_union_l _ _ _ _ (updateToDo_args_isCompleted _ _ _)).
    repeat split; eauto.
  - intros _ _. eapply keeps_bind; [apply keeps_ObjectId|]. intros o' _.
    eapply keeps_weaken; [apply keeps_findOne|done].
Qed.

Lemma keeps_deleteToDo (id : string) (user : option doc) :
  keeps (deleteToDo id user) (fun _ => True).
Proof.
  unfold deleteToDo. destruct user as [u|]; [|apply keeps_throw].
  eapply keeps_bind; [apply keeps_ObjectId|]. intros o _.
  eapply keeps_bind; [apply keeps_remove|]. intros; by apply keeps_ret.
Qed.

Lemma keeps_resolve (env : Env) (r : request) (user : option doc) :
  identity_ok user -> keeps (resolve env r user) (fun _ => True).
Proof.
  intros Hu. destruct r; simpl;
    (apply (keeps_bind _ _ (fun _ => True)); [|intros; by apply keeps_ret]).
  - unfold myTaskLists. destruct user; [|apply keeps_throw].
    eapply keeps_weaken; [apply keeps_find|done].
  - unfold getTaskList. destruct user; [|apply keeps_throw].
    eapply keeps_bind; [apply keeps_ObjectId|]. intros o _.
    eapply keeps_weaken; [apply keeps_findOne|done].
  - apply keeps_signUp.
  - apply keeps_signIn.
  - by apply keeps_createTaskList.
  - apply keeps_updateTaskList.
  - apply keeps_addUserToTaskList.
  - apply keeps_deleteTaskList.
  - apply keeps_createToDo.
  - apply keeps_updateToDo.
  - apply keeps_deleteToDo.
Qed.

Lemma keeps_serve (env : Env) (authorization : option string) (r : request) :
  keeps (serve env authorization r) (fun _ => True).
Proof.
  unfold serve. eapply keeps_bind; [apply keeps_context|].
  intros u Hu. by apply keeps_resolve.
Qed.

Lemma keeps_resolve_field (f : field) (parent : doc) :
  keeps (resolve_field f parent) (fun _ => True).
Proof.
  destruct f; simpl;
    (apply (keeps_bind _ _ (fun _ => True)); [|intros; by apply keeps_ret]).
  - unfold TaskList_progress.
    eapply keeps_bind; [apply keeps_ObjectId|]. intros o _.
    eapply keeps_bind; [apply keeps_find|]. intros l _.
    destruct (Nat.eqb _ _); by apply keeps_ret.
  - unfold TaskList_users. destruct (get parent "userIds");
      try apply keeps_throw.
    apply keeps_mapM. intros x.
    eapply keeps_weaken; [apply keeps_findOne|done].
  - unfold TaskList_todos.
    eapply keeps_bind; [apply keeps_ObjectId|]. intros o _.
    eapply keeps_weaken; [apply keeps_find|done].
  - unfold ToDo_taskList.
    eapply keeps_bind; [apply keeps_ObjectId|]. intros o _.
    eapply keeps_weaken; [apply keeps_findOne|done].
Qed.

(** Every world the server can be in holds a well-formed store. *)
Lemma reachable_store_ok (w : World) : reachable w -> store_ok (db w).
Proof.
  induction 1 as [|w w' _ IH Hs].
  - intros c. destruct c; simpl; split; constructor.
  - destruct Hs as [env authorization r w|f parent w].
    + by apply keeps_serve.
    + by apply keeps_resolve_field.
Qed.

End Properties.

(** ** Selecting by [_id] in a well-formed collection *)

Lemma doc_ok_has_id (c : coll) (d : doc) : doc_ok c d -> has_id d.
Proof. destruct c; simpl; unfold user_ok, taskList_ok, toDo_ok; tauto. Qed.

Lemma store_ok_has_id (s : Store) (c : coll) :
  store_ok s -> Forall has_id (collection c s).
Proof.
  intros Hs. destruct (Hs c) as [Hok _].
  eapply Forall_impl; [exact Hok|]. apply doc_ok_has_id.
Qed.

Lemma find_by_id (l : list doc) (d : doc) :
  Forall has_id l -> NoDup (ids l) -> In d l ->
  List.find (matches "_id" (get d "_id")) l = Some d.
Proof.
  induction l as [|a l IH]; simpl; intros HF Hn Hin; [done|].
  apply Forall_cons in HF as [Ha HF]. apply NoDup_cons in Hn as [Hna Hn].
  destruct Hin as [->|Hin].
  - by rewrite (proj2 (matches_id_iff _ _ Ha) eq_refl).
  - destruct (matches "_id" (get d "_id") a) eqn:E; [|by apply IH].
    apply (matches_id_iff _ _ Ha) in E. exfalso. apply Hna. rewrite E.
    apply list_elem_of_fmap. exists d. split; [done|].
    by apply list_elem_of_In.
Qed.

Lemma find_by_id_None (l : list doc) (q : value) :
  Forall has_id l -> (forall d, In d l -> get d "_id" <> q) ->
  List.find (matches "_id" q) l = None.
Proof.
  induction l as [|a l IH]; simpl; intros HF Hq; [done|].
  apply Forall_cons in HF as [Ha HF].
  destruct (matches "_id" q a) eqn:E.
  - apply (matches_id_iff _ _ Ha) in E. by destruct (Hq a (or_introl eq_refl)).
  - apply IH; auto.
Qed.

Lemma update_first_by_id (f : doc -> option doc) (pre post : list doc)
    (d d' : doc) :
  Forall has_id (pre ++ d :: post) -> NoDup (ids (pre ++ d :: post)) ->
  f d = Some d' ->
  update_first (matches "_id" (get d "_id")) f (pre ++ d :: post)
  = Some (pre ++ d' :: post).
Proof.
  intros HF Hn Hf. induction pre as [|a pre IH]; simpl in *.
  - apply Forall_cons in HF as [Hd _].
    by rewrite (proj2 (matches_id_iff _ _ Hd) eq_refl), Hf.
  - apply Forall_cons in HF as [Ha HF]. apply NoDup_cons in Hn as [Hna Hn].
    destruct (matches "_id" (get d "_id") a) eqn:E.
    + apply (matches_id_iff _ _ Ha) in E. exfalso. apply Hna. rewrite E.
      unfold ids. rewrite fmap_app. apply elem_of_app. right. simpl. left.
    + by rewrite IH.
Qed.

Lemma update_first_no_match (f : doc -> option doc) (l : list doc)
    (p : doc -> bool) :
  (forall d, In d l -> p d = false) -> update_first p f l = Some l.
Proof.
  induction l as [|a l IH]; simpl; intros Hp; [done|].
  rewrite (Hp a) by auto. rewrite IH; auto.
Qed.

(** ** The claims *)

Section Claims.

Context `{Capabilities}.

(** C1: every protected operation (myTaskLists, getTaskList,
    createTaskList, updateTaskList, addUserToTaskList, deleteTaskList,
    createToDo, updateToDo, deleteToDo), run without an identity, throws
    the authentication error and hands back the world it was given: the
    store, the identifier generator and the list of store accesses are
    untouched, so no read and no write was performed. *)
Theorem protected_operations_require_identity (env : Env) (w : World) :
  let denied {A} : outcome A * World :=
    (Thrown (Error "Authentication Error. Please sing in"), w) in
  myTaskLists None w = denied
  /\ (forall id, getTaskList id None w = denied)
  /\ (forall title, createTaskList env title None w = denied)
  /\ (forall id title, updateTaskList id title None w = denied)
  /\ (forall taskListId userId,
        addUserToTaskList taskListId userId None w = denied)
  /\ (forall id, deleteTaskList id None w = denied)
  /\ (forall content taskListId,
        createToDo content taskListId None w = denied)
  /\ (forall data, updateToDo data None w = denied)
  /\ (forall id, deleteToDo id None w = denied).
Proof. repeat split. Qed.

Lemma filter_ext_Forall (p q : doc -> bool) (l : list doc) :
  Forall (fun d => p d = q d) l -> List.filter p l = List.filter q l.
Proof.
  induction 1 as [|d l E _ IH]; simpl; [done|]. rewrite E, IH. done.
Qed.

Lemma filter_length_le (p : doc -> bool) (l : list doc) :
  length (List.filter p l) <= length l.
Proof. induction l as [|d l IH]; simpl; [lia|]. destruct (p d); simpl; lia. Qed.

(** C2 (amended): on a TaskList, [progress] returns the number 0 when no
    to-do references the list, and otherwise the binary64 quotient of the
    binary64 product of 100 and the number of referencing to-dos whose
    [isCompleted] is true, by the number of referencing to-dos: the
    quotient is a double, never rounded to an integer.  For every list of
    fewer than 2^32 to-dos, which is as many as a JavaScript array holds, it
    lies between 0 and 100, and it is the percentage itself whenever that is
    a whole number: the number 25 for four to-dos of which one is
    completed. *)
Theorem TaskList_progress_spec (w : World) (parent : doc) (o : oid) :
  reachable w -> get parent "_id" = Id o ->
  let total := length (referencing o (db w)) in
  let done := length (completed (referencing o (db w))) in
  exists p : number,
    fst (TaskList_progress parent w) = Returned p
    /\ db (snd (TaskList_progress parent w)) = db w
    /\ (total = 0 -> p = number_of_nat 0)
    /\ (total <> 0 ->
        p = number_div (number_mul (number_of_nat 100) (number_of_nat done))
              (number_of_nat total))
    /\ ((Z.of_nat total < 2 ^ 32)%Z ->
        number_leb (number_of_nat 0) p = true
        /\ number_leb p (number_of_nat 100) = true)
    /\ (total <> 0 -> (Z.of_nat total < 2 ^ 32)%Z ->
        forall k : nat, 100 * done = k * total -> p = number_of_nat k)
    /\ (total = 4 -> done = 1 ->
        p = number_of_nat 25 /\ number_value p = Some 25%Q).
Proof.
  intros Hw Hid total done.
  destruct (reachable_store_ok w Hw ToDo) as [Hok _]. simpl in Hok.
  assert (List.filter (matches "taskListId" (Id o)) (toDos (db w))
          = referencing o (db w)) as E1.
  { apply filter_ext_Forall. eapply Forall_impl; [exact Hok|].
    intros t (_ & [o' Ho'] & _). unfold matches. rewrite Ho'. simpl.
    by rewrite orb_false_r. }
  assert (List.filter (fun t => truthy (get t "isCompleted"))
            (referencing o (db w)) = completed (referencing o (db w))) as E2.
  { apply filter_ext_Forall. apply filter_Forall.
    eapply Forall_impl; [exact Hok|].
    intros t (_ & _ & [b Hb]). rewrite Hb. by destruct b. }
  unfold TaskList_progress, bind, find. rewrite Hid.
  cbn [ObjectId ret fst snd db collection].
  rewrite E1, E2. fold total done.
  assert (done <= total) as Hle by apply filter_length_le.
  destruct (Nat.eqb_spec total 0) as [Hz|Hnz]; cbn [ret fst snd db].
  - exists (number_of_nat 0). split; [done|]. split; [done|]. split; [done|].
    split; [done|]. split; [done|]. split; [done|]. intros Hd. lia.
  - eexists. split; [reflexivity|]. split; [done|]. split; [done|].
    split; [done|]. split; [|split].
    + intros Hbig. apply progress_range; [done|lia|done].
    + intros _ Hbig k Hk. apply progress_whole; [done|lia|done|done].
    + intros -> ->. split; vm_compute; reflexivity.
Qed.

(** *** Adding a member *)

Lemma bind_Returned {A B} (m : M A) (k : A -> M B) (w w' : World) (a : A) :
  m w = (Returned a, w') -> bind m k w = k a w'.
Proof. intros E. unfold bind. by rewrite E. Qed.

Lemma bind_Thrown {A B} (m : M A) (k : A -> M B) (w w' : World) (e : exn) :
  m w = (Thrown e, w') -> bind m k w = (Thrown e, w').
Proof. intros E. unfold bind. by rewrite E. Qed.

Lemma ObjectId_Str (s : string) (o : oid) (w : World) :
  ObjectId_fromString s = Some o -> ObjectId (Str s) w = (Returned o, w).
Proof. intros E. unfold ObjectId. by rewrite E. Qed.

Lemma ObjectId_Str_malformed (s : string) (w : World) :
  ObjectId_fromString s = None -> ObjectId (Str s) w = (Thrown BSONTypeError, w).
Proof. intros E. unfold ObjectId. by rewrite E. Qed.

Lemma get_Array_lookup (d : doc) (k : string) (l : list value) :
  get d k = Array l -> d !! k = Some (Array l).
Proof. unfold get. destruct (d !! k); simpl; congruence. Qed.

Lemma existsb_value_In (x : value) (l : list value) :
  existsb (fun y => value_eqb y x) l = true <-> In x l.
Proof.
  rewrite existsb_exists. split.
  - intros (y & Hy & E). apply value_eqb_eq in E. by subst.
  - intros Hx. exists x. split; [done|apply value_eqb_refl].
Qed.

(** The search for the new member among identifiers: it finds the member
    exactly when its identifier is in the array. *)
Lemma array_find_member (userId : string) (m : oid) (members : list value)
    (w : World) :
  oid_toString m = userId -> Forall is_Id members ->
  array_find
    (fun dbId =>
       match toString dbId with
       | Some s => ret (String.eqb s userId)
       | None => throw TypeError
       end) members w
  = (Returned (if existsb (fun y => value_eqb y (Id m)) members
               then Id m else Undefined), w).
Proof.
  intros Hm. induction 1 as [|x l [o ->] _ IH]; simpl; [done|].
  unfold bind, ret at 1. simpl.
  destruct (String.eqb_spec (oid_toString o) userId) as [E|E].
  - rewrite <- Hm in E. apply oid_toString_inj in E. subst o.
    by rewrite bool_decide_eq_true_2.
  - rewrite bool_decide_eq_false_2 by congruence. exact IH.
Qed.

Lemma addUserToTaskList_missing (w : World) (u : doc)
    (taskListId userId : string) (l : oid) :
  store_ok (db w) -> ObjectId_fromString taskListId = Some l ->
  (forall tl, In tl (taskLists (db w)) -> get tl "_id" <> Id l) ->
  addUserToTaskList taskListId userId (Some u) w
  = (Returned None, mkWorld (db w) (pk w) (log w ++ [Read TaskList])).
Proof.
  intros Hs Hl Hno. unfold addUserToTaskList.
  rewrite (bind_Returned _ _ _ _ _ (ObjectId_Str _ _ _ Hl)).
  unfold bind, findOne. simpl.
  by rewrite find_by_id_None by (by apply (store_ok_has_id _ TaskList) || done).
Qed.

Lemma addUserToTaskList_found (w : World) (u tl : doc)
    (taskListId userId : string) (l m : oid) (members : list value)
    (before after : list doc) :
  store_ok (db w) ->
  ObjectId_fromString taskListId = Some l ->
  ObjectId_fromString userId = Some m -> oid_toString m = userId ->
  taskLists (db w) = before ++ tl :: after ->
  get tl "_id" = Id l -> get tl "userIds" = Array members ->
  let w' := mkWorld (db w) (pk w) (log w ++ [Read TaskList]) in
  let tl' := <["userIds" := Array (members ++ [Id m])]> tl in
  addUserToTaskList taskListId userId (Some u) w
  = if existsb (fun y => value_eqb y (Id m)) members
    then (Thrown (Error "User already exists in this TaskList!"), w')
    else (Returned (Some tl'),
          mkWorld (with_collection TaskList (before ++ tl' :: after) (db w))
            (pk w) (log w' ++ [Write TaskList])).
Proof.
  intros Hs Hl Hm Hcanon Hsplit Hid Hmem w' tl'.
  pose proof (store_ok_has_id _ TaskList Hs) as Hhas.
  destruct (Hs TaskList) as [Hok Hnd]. simpl in Hhas, Hok, Hnd.
  assert (In tl (taskLists (db w))) as Hin.
  { rewrite Hsplit. apply in_elt. }
  assert (Forall is_Id members) as Hids.
  { rewrite Forall_forall in Hok.
    destruct (Hok tl) as (_ & x & r & E & HF); [by apply list_elem_of_In|].
    rewrite Hmem in E. by injection E as ->. }
  unfold addUserToTaskList.
  rewrite (bind_Returned _ _ _ _ _ (ObjectId_Str _ _ _ Hl)).
  unfold bind at 1, findOne at 1. simpl.
  rewrite <- Hid, (find_by_id _ _ Hhas Hnd Hin), Hmem.
  rewrite (bind_Returned _ _ _ _ _ (array_find_member _ _ _ _ Hcanon Hids)).
  fold w'. destruct (existsb _ members); simpl; [done|].
  rewrite (bind_Returned _ _ _ _ _ (ObjectId_Str _ _ _ Hl)).
  rewrite (bind_Returned _ _ _ _ _ (ObjectId_Str _ _ _ Hm)).
  unfold bind at 1, updateOne at 1. simpl. rewrite Hsplit, <- Hid.
  rewrite (update_first_by_id _ _ _ tl tl').
  - by rewrite (bind_Returned _ _ _ _ _ (ObjectId_Str _ _ _ Hm)).
  - by rewrite <- Hsplit.
  - by rewrite <- Hsplit.
  - simpl. by rewrite (get_Array_lookup _ _ _ Hmem).
Qed.

(** C3 (amended): for an authenticated identity and a user identifier
    written the way [toString] prints it: when [ObjectId] rejects the list
    identifier, addUserToTaskList throws the driver's error and touches
    nothing; when it accepts it, addUserToTaskList returns null and leaves
    the store alone if no TaskList has the list identifier; throws the
    conflict error and leaves the store alone if the user identifier is
    among the members of the list; and otherwise appends the user
    identifier to the members of the stored list and returns the list with
    the member appended, after which the same call throws the conflict
    error. *)
Theorem addUserToTaskList_spec (w : World) (u : doc)
    (taskListId userId : string) (m : oid) :
  reachable w ->
  ObjectId_fromString userId = Some m -> oid_toString m = userId ->
  let r := addUserToTaskList taskListId userId (Some u) w in
  let conflict := Error "User already exists in this TaskList!" in
  (ObjectId_fromString taskListId = None -> r = (Thrown BSONTypeError, w))
  /\ forall l, ObjectId_fromString taskListId = Some l ->
       ((forall tl, In tl (taskLists (db w)) -> get tl "_id" <> Id l) ->
        fst r = Returned None /\ db (snd r) = db w)
       /\ (forall tl members,
             In tl (taskLists (db w)) -> get tl "_id" = Id l ->
             get tl "userIds" = Array members ->
             (In (Id m) members ->
              fst r = Thrown conflict /\ db (snd r) = db w)
             /\ (~ In (Id m) members ->
                 let tl' := <["userIds" := Array (members ++ [Id m])]> tl in
                 fst r = Returned (Some tl')
                 /\ (exists before after,
                        taskLists (db w) = before ++ tl :: after
                        /\ db (snd r)
                           = with_collection TaskList
                               (before ++ tl' :: after) (db w))
                 /\ fst (addUserToTaskList taskListId userId (Some u) (snd r))
                    = Thrown conflict)).
Proof.
  intros Hw Hm Hcanon r conflict.
  pose proof (reachable_store_ok w Hw) as Hs. split.
  { intros Hbad. unfold r, addUserToTaskList.
    by rewrite (bind_Thrown _ _ _ _ _ (ObjectId_Str_malformed _ _ Hbad)). }
  intros l Hl. split.
  - intros Hno. unfold r.
    by rewrite (addUserToTaskList_missing _ _ _ _ _ Hs Hl Hno).
  - intros tl members Hin Hid Hmem.
    destruct (in_split _ _ Hin) as (before & after & Hsplit).
    pose proof (addUserToTaskList_found w u tl taskListId userId l m members
                  before after Hs Hl Hm Hcanon Hsplit Hid Hmem) as E.
    cbv zeta in E. fold r in E. split.
    + intros Hmember. apply existsb_value_In in Hmember.
      rewrite Hmember in E. by rewrite E.
    + intros Hnew. set (tl' := <["userIds" := Array (members ++ [Id m])]> tl).
      destruct (existsb _ members) eqn:Ex;
        [by apply existsb_value_In in Ex|].
      assert (fst r = Returned (Some tl')) as E1 by (by rewrite E).
      assert (db (snd r)
              = with_collection TaskList (before ++ tl' :: after) (db w))
        as E2 by (by rewrite E).
      split; [done|]. split; [by eauto|].
      assert (store_ok (db (snd r))) as Hs'.
      { by apply (keeps_addUserToTaskList taskListId userId (Some u) w). }
      rewrite (addUserToTaskList_found (snd r) u tl' taskListId userId l m
                 (members ++ [Id m]) before after Hs' Hl Hm Hcanon).
      * rewrite (proj2 (existsb_value_In _ _)); [done|].
        apply in_or_app. right. by left.
      * by rewrite E2.
      * unfold tl'. by rewrite get_insert_ne.
      * unfold tl'. by rewrite get_insert_eq.
Qed.

(** C4: for every authenticated identity and every identifier of a stored
    TaskList, getTaskList returns that TaskList, whoever asks: nothing is
    required of the identity, so neither is membership in the list. *)
Theorem getTaskList_ignores_membership (w : World) (u tl : doc)
    (id : string) (o : oid) :
  reachable w -> ObjectId_fromString id = Some o ->
  In tl (taskLists (db w)) -> get tl "_id" = Id o ->
  fst (getTaskList id (Some u) w) = Returned (Some tl)
  /\ db (snd (getTaskList id (Some u) w)) = db w.
Proof.
  intros Hw Ho Hin Hid. pose proof (reachable_store_ok w Hw) as Hs.
  destruct (Hs TaskList) as [_ Hnd].
  pose proof (store_ok_has_id _ TaskList Hs) as Hhas. simpl in Hnd, Hhas.
  unfold getTaskList.
  rewrite (bind_Returned _ _ _ _ _ (ObjectId_Str _ _ _ Ho)).
  unfold findOne. simpl.
  by rewrite <- Hid, (find_by_id _ _ Hhas Hnd Hin).
Qed.

(** *** Signing in and up *)

Lemma find_ext_Forall (p q : doc -> bool) (l : list doc) :
  Forall (fun d => p d = q d) l -> List.find p l = List.find q l.
Proof.
  induction 1 as [|d l E _ IH]; simpl; [done|]. by rewrite E, IH.
Qed.

Lemma find_by_email (s : Store) (email : string) :
  store_ok s ->
  List.find (matches "email" (Str email)) (users s)
  = List.find (fun u => value_eqb (get u "email") (Str email)) (users s).
Proof.
  intros Hs. apply find_ext_Forall. destruct (Hs Users) as [Hok _].
  eapply Forall_impl; [exact Hok|]. intros u (_ & [e He] & _).
  unfold matches. rewrite He. by rewrite orb_false_r.
Qed.

(** C5: signIn throws the invalid-credentials error exactly when no user
    record has the given email, or the given password fails the hash
    comparison against the hash stored in the record found by that email;
    when it returns, it returns that record and a token signed over the
    claim [{ id }] holding the record's identifier. *)
Theorem signIn_spec (w : World) (env : Env) (input : SignInInput) :
  reachable w ->
  let r := signIn env input w in
  let invalid := Error "Invalid credentials!" in
  let found :=
    List.find (fun u => value_eqb (get u "email") (Str (si_email input)))
      (users (db w)) in
  (fst r = Thrown invalid <->
   (forall u, In u (users (db w)) -> get u "email" <> Str (si_email input))
   \/ (exists u hash,
         found = Some u /\ get u "password" = Str hash
         /\ bcrypt_compareSync (si_password input) hash = false))
  /\ (forall a, fst r = Returned a ->
        found = Some (user a)
        /\ token a
           = jwt_sign {["id" := get (user a) "_id"]} JWT_SECRET "30 days"
               (now env))
  /\ (fst r = Thrown invalid \/ exists a, fst r = Returned a).
Proof.
  intros Hw r invalid found. pose proof (reachable_store_ok w Hw) as Hs.
  assert (fst r
          = match found with
            | None => Thrown invalid
            | Some u =>
                match get u "password" with
                | Str hash =>
                    if negb (bcrypt_compareSync (si_password input) hash)
                    then Thrown invalid
                    else Returned (mkAuthUser u (getToken env u))
                | _ => Thrown BcryptError
                end
            end) as E.
  { unfold r, signIn, bind, findOne. simpl. rewrite (find_by_email _ _ Hs).
    fold found. destruct found as [u|]; [|done].
    destruct (get u "password"); try done. by destruct (negb _). }
  destruct found as [u|] eqn:Ef.
  - pose proof (find_some _ _ Ef) as [Hin Hemail].
    apply value_eqb_eq in Hemail.
    destruct (Hs Users) as [Hok _]. rewrite Forall_forall in Hok.
    destruct (Hok u) as (_ & _ & [hash Hh]); [by apply list_elem_of_In|].
    rewrite Hh in E.
    destruct (bcrypt_compareSync (si_password input) hash) eqn:Ec;
      simpl in E; rewrite E.
    + split; [|split].
      * split; [done|]. intros [Hno|(u' & h' & [= <-] & Hh' & Hc)].
        -- by destruct (Hno u Hin).
        -- congruence.
      * by intros a [= <-].
      * right. by eexists.
    + split; [|split]; [|done|by left].
      split; [|done]. intros _. right. by exists u, hash.
  - rewrite E. split; [|split]; [|done|by left].
    split; [|done]. intros _. left. intros u Hin Hemail.
    pose proof (find_none _ _ Ef u Hin) as Hne. simpl in Hne.
    apply value_eqb_neq in Hne. done.
Qed.

Lemma User_select_fields (selection : list string) (parent payload : doc) :
  User_select selection parent = Some payload ->
  forall k v, payload !! k = Some v ->
    In k selection /\ In k User_fields /\ v = User_field parent k.
Proof.
  unfold User_select.
  destruct (forallb _ selection) eqn:Hall; [|done]. intros [= <-] k v Hk.
  apply elem_of_list_to_map_2 in Hk. apply list_elem_of_In in Hk.
  apply in_map_iff in Hk as (name & [= <- <-] & Hin).
  split; [done|]. split; [|done].
  rewrite forallb_forall in Hall. specialize (Hall _ Hin).
  apply existsb_exists in Hall as (f & Hf & E).
  apply String.eqb_eq in E. by subst f.
Qed.

(** C6 (amended): whenever the identifier the driver generates is not
    taken, signUp returns; the user object it returns holds, under
    [password], the hash of the given password, and is the very record that
    was inserted into the Users collection.  The response does not carry
    it: whatever fields of [type User] the request selects, the user
    payload holds declared fields only, none named [password]: a request
    that selects [password] is refused, and the full selection answers the
    identifier, the name, the email and the avatar. *)
Theorem signUp_response_omits_hash (w : World) (env : Env)
    (input : SignUpInput) :
  (forall u, In u (users (db w)) -> get u "_id" <> Id (generate (pk w))) ->
  exists a,
    fst (signUp env input w) = Returned a
    /\ get (user a) "password"
       = Str (bcrypt_hashSync (salt env) (su_password input))
    /\ users (db (snd (signUp env input w))) = users (db w) ++ [user a]
    /\ (forall k, k <> "_id" -> k <> "password" ->
          user a !! k = SignUpInput_obj input !! k)
    /\ (forall selection payload,
          User_select selection (user a) = Some payload ->
          payload !! "password" = None
          /\ forall k v, payload !! k = Some v ->
               In k User_fields /\ v = User_field (user a) k)
    /\ (forall selection,
          In "password" selection -> User_select selection (user a) = None)
    /\ exists payload,
         User_select User_fields (user a) = Some payload
         /\ payload !! "id" = Some (Id (generate (pk w)))
         /\ payload !! "name" = Some (Str (su_name input))
         /\ payload !! "email" = Some (Str (su_email input))
         /\ payload !! "avatar" = Some (get (SignUpInput_obj input) "avatar").
Proof.
  intros Hfresh. unfold signUp, bind, insertOne.
  assert (SignUpInput_obj input !! "_id" = None) as Hn.
  { unfold SignUpInput_obj, with_nullable. by destruct (su_avatar input). }
  rewrite lookup_insert_ne, Hn by done.
  rewrite get_insert_eq.
  destruct (existsb _ _) eqn:Ex.
  - apply existsb_exists in Ex as (u & Hin & E). apply value_eqb_eq in E.
    by destruct (Hfresh u Hin).
  - cbn [ret fst snd]. eexists. split; [reflexivity|]. cbn [user].
    set (d := <["_id" := Id (generate (pk w))]>
                (<["password" := Str (bcrypt_hashSync (salt env) (su_password input))]>
                   (SignUpInput_obj input))).
    assert (forall k, k <> "_id" -> k <> "password" ->
              d !! k = SignUpInput_obj input !! k) as Hd.
    { intros k H1 H2. unfold d. by rewrite !lookup_insert_ne. }
    split; [by unfold d; rewrite get_insert_ne, get_insert_eq|].
    split; [done|]. split; [exact Hd|]. split; [|split].
    + intros selection payload Hsel.
      pose proof (User_select_fields _ _ _ Hsel) as Hf. split.
      * destruct (payload !! "password") as [v|] eqn:Hp; [|done].
        destruct (Hf _ _ Hp) as (_ & Hin & _).
        by repeat destruct Hin as [?|Hin].
      * intros k v Hk. by destruct (Hf k v Hk) as (_ & ? & ?).
    + intros selection Hin. unfold User_select.
      destruct (forallb _ selection) eqn:Hall; [|done].
      rewrite forallb_forall in Hall. by specialize (Hall _ Hin).
    + eexists. split; [reflexivity|].
      assert (get d "_id" = Id (generate (pk w))) as Hid
        by (unfold d; apply get_insert_eq).
      assert (forall k, k <> "_id" -> k <> "password" ->
                get d k = get (SignUpInput_obj input) k) as Hg
        by (intros k H1 H2; unfold get; by rewrite Hd).
      cbn [User_fields List.map list_to_map uncurry].
      unfold User_field, User_id. cbn [String.eqb Ascii.eqb Bool.eqb].
      rewrite Hid, !Hg by done. cbn [js_or truthy].
      rewrite !list_to_map_cons.
      split; [by rewrite lookup_insert_eq|].
      split; [|split].
      * rewrite lookup_insert_ne, lookup_insert_eq by done.
        unfold SignUpInput_obj, with_nullable, get.
        by destruct (su_avatar input).
      * rewrite !lookup_insert_ne, lookup_insert_eq by done.
        unfold SignUpInput_obj, with_nullable, get.
        by destruct (su_avatar input).
      * rewrite !lookup_insert_ne, lookup_insert_eq by done. done.
Qed.

(** *** The identity of a request *)

Lemma ObjectId_fromString_nonempty (s : string) (o : oid) :
  ObjectId_fromString s = Some o -> truthy (Str s) = true.
Proof. by destruct s. Qed.

(** C7: getUserFromToken returns null, without throwing and without
    touching the store, when there is no credential; it returns null
    without throwing when the token verifies and its identifier is that of
    no stored user; and when a credential is present and [jwt.verify]
    throws, nothing catches it: building the context throws, and the
    request fails before any handler has run. *)
Theorem getUserFromToken_spec (w : World) (env : Env) :
  getUserFromToken env None w = (Returned None, w)
  /\ context env None w = (Returned None, w)
  /\ (forall t tokenData s o,
        reachable w ->
        jwt_verify t JWT_SECRET (now env) = Some tokenData ->
        t <> "" -> get tokenData "id" = Str s ->
        ObjectId_fromString s = Some o ->
        (forall u, In u (users (db w)) -> get u "_id" <> Id o) ->
        fst (getUserFromToken env (Some t) w) = Returned None
        /\ fst (context env (Some t) w) = Returned None
        /\ db (snd (context env (Some t) w)) = db w)
  /\ (forall t,
        t <> "" -> jwt_verify t JWT_SECRET (now env) = None ->
        getUserFromToken env (Some t) w = (Thrown JsonWebTokenError, w)
        /\ context env (Some t) w = (Thrown JsonWebTokenError, w)
        /\ forall r, serve env (Some t) r w = (Thrown JsonWebTokenError, w)).
Proof.
  split; [done|]. split; [done|]. split.
  - intros t tokenData s o Hw Hv Ht Hid Ho Hno.
    pose proof (reachable_store_ok w Hw) as Hs.
    pose proof (store_ok_has_id _ Users Hs) as Hhas. simpl in Hhas.
    assert (getUserFromToken env (Some t) w
            = (Returned None,
               mkWorld (db w) (pk w) (log w ++ [Read Users]))) as E.
    { unfold getUserFromToken. simpl.
      destruct (String.eqb_spec t "") as [|_]; [done|]. simpl.
      rewrite Hv, Hid, (ObjectId_fromString_nonempty _ _ Ho). simpl.
      rewrite (bind_Returned _ _ _ _ _ (ObjectId_Str _ _ _ Ho)).
      unfold bind, findOne. simpl. by rewrite find_by_id_None. }
    unfold context, bind. by rewrite E.
  - intros t Ht Hv.
    assert (getUserFromToken env (Some t) w = (Thrown JsonWebTokenError, w))
      as E.
    { unfold getUserFromToken. simpl.
      destruct (String.eqb_spec t "") as [|_]; [done|]. simpl.
      by rewrite Hv. }
    split; [done|]. unfold serve, context, bind. by rewrite E.
Qed.

(** *** Deleting a list *)

Lemma matches_id_eqb (q : value) (d : doc) :
  has_id d -> matches "_id" q d = value_eqb (get d "_id") q.
Proof. intros [o E]. unfold matches. by rewrite E, orb_false_r. Qed.

Lemma ObjectId_Id (o : oid) (w : World) : ObjectId (Id o) w = (Returned o, w).
Proof. done. Qed.

(** C8: for every authenticated identity and list identifier,
    deleteTaskList leaves the ToDo collection (and the Users collection) as
    it was; when the identifier is one [ObjectId] accepts it returns true
    and the TaskList collection loses exactly the records with that
    identifier; after it, every to-do whose [taskListId] is that identifier
    is still found by its own identifier, and its [taskList] resolver
    resolves to null. *)
Theorem deleteTaskList_orphans_todos (w : World) (u : doc) (id : string) :
  reachable w ->
  let r := deleteTaskList id (Some u) w in
  toDos (db (snd r)) = toDos (db w)
  /\ users (db (snd r)) = users (db w)
  /\ forall o, ObjectId_fromString id = Some o ->
       fst r = Returned true
       /\ taskLists (db (snd r))
          = List.filter (fun tl => negb (value_eqb (get tl "_id") (Id o)))
              (taskLists (db w))
       /\ forall t, In t (toDos (db w)) -> get t "taskListId" = Id o ->
            fst (findOne ToDo "_id" (get t "_id") (snd r)) = Returned (Some t)
            /\ fst (ToDo_taskList t (snd r)) = Returned None.
Proof.
  intros Hw r. pose proof (reachable_store_ok w Hw) as Hs.
  pose proof (store_ok_has_id _ TaskList Hs) as HhasL.
  pose proof (store_ok_has_id _ ToDo Hs) as HhasT.
  destruct (Hs ToDo) as [_ HndT]. simpl in HhasL, HhasT, HndT.
  unfold r, deleteTaskList.
  destruct (ObjectId_fromString id) as [o|] eqn:Ho.
  - rewrite (bind_Returned _ _ _ _ _ (ObjectId_Str _ _ _ Ho)).
    assert (List.filter (fun d => negb (matches "_id" (Id o) d))
              (taskLists (db w))
            = List.filter (fun tl => negb (value_eqb (get tl "_id") (Id o)))
                (taskLists (db w))) as E.
    { apply filter_ext_Forall. eapply Forall_impl; [exact HhasL|].
      intros d Hd. simpl. by rewrite matches_id_eqb. }
    unfold bind, remove, ret.
    cbn [fst snd db collection with_collection taskLists toDos users].
    rewrite E. split; [done|]. split; [done|].
    intros o' [= <-]. split; [done|]. split; [done|].
    intros t Hin Hlist. split.
    + unfold findOne.
      cbn [fst snd db collection with_collection taskLists toDos users].
      by rewrite (find_by_id _ _ HhasT HndT Hin).
    + unfold ToDo_taskList. rewrite Hlist.
      rewrite (bind_Returned _ _ _ _ _ (ObjectId_Id _ _)).
      unfold findOne.
      cbn [fst snd db collection with_collection taskLists toDos users].
      rewrite find_by_id_None; [done|by apply filter_Forall|].
      intros d Hd%filter_In. destruct Hd as [_ Hd].
      apply negb_true_iff, value_eqb_neq in Hd. done.
  - rewrite (bind_Thrown _ _ _ _ _ (ObjectId_Str_malformed _ _ Ho)).
    simpl. split; [done|]. split; [done|]. intros o' [=].
Qed.

(** *** Updating a to-do *)

(** C10: updateToDo applies its whole argument object through [$set]: the
    stored to-do with the given identifier becomes the argument object
    laid over the old record, so it holds [isCompleted] and (when given)
    [content] from the arguments and also a field [id] equal to the
    identifier argument, while every other field, [taskListId] and [_id]
    among them, is as it was; the updated record is what is returned. *)
Theorem updateToDo_sets_whole_argument (w : World) (u t : doc) (id : string)
    (content : nullable) (isCompleted : bool) (o : oid) :
  reachable w -> ObjectId_fromString id = Some o ->
  In t (toDos (db w)) -> get t "_id" = Id o ->
  let data := updateToDo_args id content isCompleted in
  let r := updateToDo data (Some u) w in
  let t' := data ∪ t in
  fst r = Returned (Some t')
  /\ (exists before after,
        toDos (db w) = before ++ t :: after
        /\ db (snd r) = with_collection ToDo (before ++ t' :: after) (db w))
  /\ t' !! "id" = Some (Str id)
  /\ t' !! "isCompleted" = Some (Bool isCompleted)
  /\ t' !! "content"
     = match content with
       | Absent => t !! "content"
       | IsNull => Some Null
       | Given s => Some (Str s)
       end
  /\ t' !! "taskListId" = t !! "taskListId"
  /\ t' !! "_id" = t !! "_id"
  /\ forall k, k <> "id" -> k <> "content" -> k <> "isCompleted" ->
       t' !! k = t !! k.
Proof.
  intros Hw Ho Hin Hid data r t'.
  pose proof (reachable_store_ok w Hw) as Hs.
  pose proof (store_ok_has_id _ ToDo Hs) as Hhas.
  destruct (Hs ToDo) as [_ Hnd]. simpl in Hhas, Hnd.
  destruct (in_split _ _ Hin) as (before & after & Hsplit).
  assert (forall k, k <> "id" -> k <> "content" -> k <> "isCompleted" ->
            t' !! k = t !! k) as Hframe.
  { intros k H1 H2 H3. unfold t'. apply lookup_union_r.
    by apply updateToDo_args_lookup. }
  assert (get data "id" = Str id) as Hdata.
  { unfold get, data. by rewrite updateToDo_args_id. }
  assert (updateOne ToDo "_id" (Id o) (USet data) w
          = (Returned tt,
             mkWorld (with_collection ToDo (before ++ t' :: after) (db w))
               (pk w) (log w ++ [Write ToDo]))) as Eupd.
  { unfold updateOne. simpl. rewrite Hsplit, <- Hid.
    rewrite (update_first_by_id _ _ _ t t'); try done; by rewrite <- Hsplit. }
  assert (store_ok (with_collection ToDo (before ++ t' :: after) (db w)))
    as Hs'.
  { pose proof (keeps_updateToDo id content isCompleted (Some u) w Hs) as [K _].
    unfold updateToDo in K. fold data in K. rewrite Hdata in K.
    rewrite (bind_Returned _ _ _ _ _ (ObjectId_Str _ _ _ Ho)) in K.
    rewrite (bind_Returned _ _ _ _ _ Eupd) in K.
    rewrite (bind_Returned _ _ _ _ _ (ObjectId_Str _ _ _ Ho)) in K.
    exact K. }
  pose proof (store_ok_has_id _ ToDo Hs') as Hhas'.
  destruct (Hs' ToDo) as [_ Hnd']. simpl in Hhas', Hnd'.
  assert (get t' "_id" = Id o) as Hid'.
  { unfold get. rewrite Hframe by done. exact Hid. }
  assert (r = (Returned (Some t'),
               mkWorld (with_collection ToDo (before ++ t' :: after) (db w))
                 (pk w) ((log w ++ [Write ToDo]) ++ [Read ToDo]))) as Er.
  { unfold r, updateToDo. rewrite Hdata.
    rewrite (bind_Returned _ _ _ _ _ (ObjectId_Str _ _ _ Ho)).
    rewrite (bind_Returned _ _ _ _ _ Eupd).
    rewrite (bind_Returned _ _ _ _ _ (ObjectId_Str _ _ _ Ho)).
    unfold findOne. simpl. rewrite <- Hid'.
    rewrite (find_by_id _ t' Hhas' Hnd'); [done|]. apply in_elt. }
  rewrite Er. simpl. split; [done|]. split; [by eauto|].
  split; [|split; [|split; [|split; [|split]]]].
  - unfold t'. apply lookup_union_Some_l, updateToDo_args_id.
  - unfold t'. apply lookup_union_Some_l, updateToDo_args_isCompleted.
  - unfold t', data, updateToDo_args, with_nullable. destruct content.
    + by apply lookup_union_r.
    + by apply lookup_union_Some_l.
    + by apply lookup_union_Some_l.
  - by apply Hframe.
  - by apply Hframe.
  - exact Hframe.
Qed.

(** *** Members are never lost *)

Lemma descends_refl (tl : doc) : descends tl tl.
Proof. split; [done|]. exists []. by rewrite app_nil_r. Qed.

Lemma no_member_lost_sub (s s' : Store) :
  (forall tl, In tl (taskLists s') -> In tl (taskLists s)) ->
  no_member_lost s s'.
Proof. intros Hsub tl' Hin. left. exists tl'. split; [auto|apply descends_refl]. Qed.

Lemma reads_ret {A} (a : A) : reads (ret a).
Proof. done. Qed.

Lemma reads_throw {A} (e : exn) : reads (@throw A e).
Proof. done. Qed.

Lemma reads_bind {A B} (m : M A) (k : A -> M B) :
  reads m -> (forall a, reads (k a)) -> reads (bind m k).
Proof.
  intros Hm Hk w. unfold bind. specialize (Hm w).
  destruct (m w) as [[a|e] w1]; simpl in *; [|done]. by rewrite Hk.
Qed.

Lemma reads_ObjectId (v : value) : reads (ObjectId v).
Proof.
  intros w. unfold ObjectId. destruct v as [ | | b | s | o | l]; try done.
  by destruct (ObjectId_fromString s).
Qed.

Lemma reads_findOne (c : coll) (k : string) (q : value) : reads (findOne c k q).
Proof. done. Qed.

Lemma reads_find (c : coll) (k : string) (q : value) : reads (find c k q).
Proof. done. Qed.

Lemma reads_mapM {A B} (f : A -> M B) (l : list A) :
  (forall a, reads (f a)) -> reads (mapM f l).
Proof.
  intros Hf. induction l as [|a l IH]; simpl; [done|].
  apply reads_bind; [done|]. intros b. apply reads_bind; [done|]. done.
Qed.

Lemma reads_array_find (p : value -> M bool) (l : list value) :
  (forall x, reads (p x)) -> reads (array_find p l).
Proof.
  intros Hp. induction l as [|x l IH]; simpl; [done|].
  apply reads_bind; [done|]. by intros [].
Qed.

Lemma reads_getUserFromToken (env : Env) (token : option string) :
  reads (getUserFromToken env token).
Proof.
  unfold getUserFromToken. destruct token as [t|]; [|done].
  destruct (negb _); [done|].
  destruct (jwt_verify _ _ _) as [tokenData|]; [|done].
  destruct (negb _); [done|].
  apply reads_bind; [apply reads_ObjectId|]. intros o.
  apply reads_bind; [apply reads_findOne|]. done.
Qed.

Lemma reads_evolves {A} (m : M A) : reads m -> evolves m.
Proof. intros Hm w _. rewrite Hm. by apply no_member_lost_sub. Qed.

Lemma evolves_after_reads {A B} (m : M A) (k : A -> M B) :
  reads m -> (forall a, evolves (k a)) -> evolves (bind m k).
Proof.
  intros Hm Hk w Hw. unfold bind. specialize (Hm w).
  destruct (m w) as [[a|e] w1]; simpl in *.
  - rewrite <- Hm. apply Hk. by rewrite Hm.
  - rewrite Hm. by apply no_member_lost_sub.
Qed.

Lemma evolves_before_reads {A B} (m : M A) (k : A -> M B) :
  evolves m -> (forall a, reads (k a)) -> evolves (bind m k).
Proof.
  intros Hm Hk w Hw. unfold bind. specialize (Hm w Hw).
  destruct (m w) as [[a|e] w1]; simpl in *; [|done]. by rewrite Hk.
Qed.

Lemma members_insert_ne (d : doc) (k : string) (v : value) :
  k <> "userIds" -> members (<[k := v]> d) = members d.
Proof. intros. unfold members. by rewrite get_insert_ne. Qed.

Lemma evolves_insertOne (c : coll) (d : doc) :
  d !! "_id" = None -> (exists x, members d = [x]) ->
  evolves (insertOne c d).
Proof.
  intros Hn [x Hx] w Hw. unfold insertOne. rewrite Hn.
  destruct (existsb _ _) eqn:Ex; simpl; [by apply no_member_lost_sub|].
  destruct c; simpl; try (by apply no_member_lost_sub).
  intros tl' [Hin|[<-|[]]]%in_app_or.
  - left. exists tl'. split; [done|apply descends_refl].
  - right. split; [|exists x; by rewrite members_insert_ne].
    intros Hin. apply in_map_iff in Hin as (e & He & Hin).
    assert (existsb (fun e => value_eqb (get e "_id")
              (get (<["_id" := Id (generate (pk w))]> d) "_id"))
              (taskLists (db w)) = true); [|simpl in *; congruence].
    apply existsb_exists. exists e. split; [done|]. by apply value_eqb_eq.
Qed.

Lemma insertOne_elsewhere (c : coll) (d : doc) :
  c <> TaskList -> evolves (insertOne c d).
Proof.
  intros Hc w Hw. apply no_member_lost_sub. unfold insertOne.
  destruct (d !! "_id"); destruct (existsb _ _); simpl; try done;
    by destruct c.
Qed.

Lemma update_first_elem (p : doc -> bool) (f : doc -> option doc)
    (l l' : list doc) (d' : doc) :
  update_first p f l = Some l' -> In d' l' ->
  In d' l \/ exists d, In d l /\ f d = Some d'.
Proof.
  revert l'. induction l as [|a l IH]; simpl; intros l' E Hin.
  - injection E as <-. by left.
  - destruct (p a).
    + destruct (f a) as [a'|] eqn:Ef; [|done]. injection E as <-.
      destruct Hin as [<-|Hin]; [right; eauto|left; auto].
    + destruct (update_first p f l) as [r|]; [|done]. injection E as <-.
      destruct Hin as [<-|Hin]; [left; auto|].
      destruct (IH r eq_refl Hin) as [?|(d & ? & ?)]; [left; auto|right; eauto].
Qed.

Lemma evolves_updateOne (c : coll) (k : string) (q : value) (u : update) :
  (c = TaskList -> forall d d', apply_update u d = Some d' -> descends d d') ->
  evolves (updateOne c k q u).
Proof.
  intros Hu w Hw. unfold updateOne.
  destruct (update_first _ _ _) as [l|] eqn:E; simpl;
    [|by apply no_member_lost_sub].
  destruct c; simpl; try (by apply no_member_lost_sub).
  intros tl' Hin. left.
  destruct (update_first_elem _ _ _ _ _ E Hin) as [?|(d & Hd & Hf)].
  - exists tl'. split; [done|apply descends_refl].
  - exists d. split; [done|]. by apply Hu.
Qed.

Lemma evolves_remove (c : coll) (k : string) (q : value) :
  evolves (remove c k q).
Proof.
  intros w Hw. apply no_member_lost_sub. unfold remove. simpl.
  destruct c; simpl; try done. intros tl Hin%filter_In. tauto.
Qed.

Lemma descends_set_title (title : string) (d : doc) :
  descends d ({["title" := Str title]} ∪ d).
Proof.
  assert (forall k, k <> "title" ->
            get ({["title" := Str title]} ∪ d) k = get d k) as E.
  { intros k Hk. apply get_union_r. by apply lookup_singleton_ne. }
  split; [by apply E|]. exists []. unfold members. by rewrite E, app_nil_r.
Qed.

Lemma descends_push (x : value) (d d' : doc) :
  apply_update (UPush "userIds" x) d = Some d' -> descends d d'.
Proof.
  simpl. intros E. unfold descends, members, get.
  destruct (d !! "userIds") as [[ | | | | |l]|]; try done;
    injection E as <-; rewrite lookup_insert_ne, lookup_insert_eq by done;
    simpl; split; eauto.
Qed.

Lemma evolves_resolve (env : Env) (r : request) (user : option doc) :
  evolves (resolve env r user).
Proof.
  destruct r; simpl; (apply evolves_before_reads; [|done]).
  - apply reads_evolves. unfold myTaskLists. by destruct user.
  - apply reads_evolves. unfold getTaskList. destruct user; [|done].
    apply reads_bind; [apply reads_ObjectId|done].
  - unfold signUp. apply evolves_before_reads; [|done].
    by apply insertOne_elsewhere.
  - apply reads_evolves. unfold signIn. apply reads_bind; [done|].
    intros [u|]; [|done]. destruct (get u "password"); try done.
    by destruct (negb _).
  - unfold createTaskList. destruct user as [u|];
      [|by apply reads_evolves].
    apply evolves_before_reads; [|done].
    apply evolves_insertOne; [done|]. by eexists.
  - unfold updateTaskList. destruct user as [u|];
      [|by apply reads_evolves].
    apply evolves_after_reads; [apply reads_ObjectId|]. intros o.
    apply evolves_before_reads.
    + apply evolves_updateOne. intros _ d d' [= <-].
      apply descends_set_title.
    + intros _. apply reads_bind; [apply reads_ObjectId|done].
  - unfold addUserToTaskList. destruct user as [u|];
      [|by apply reads_evolves].
    apply evolves_after_reads; [apply reads_ObjectId|]. intros o.
    apply evolves_after_reads; [apply reads_findOne|].
    intros [tl|]; [|by apply reads_evolves].
    destruct (get tl "userIds"); try (by apply reads_evolves).
    apply evolves_after_reads.
    { apply reads_array_find. intros x. by destruct (toString x). }
    intros found. destruct (truthy found); [by apply reads_evolves|].
    apply evolves_after_reads; [apply reads_ObjectId|]. intros o1.
    apply evolves_after_reads; [apply reads_ObjectId|]. intros u1.
    apply evolves_before_reads.
    + apply evolves_updateOne. intros _ d d'. apply descends_push.
    + intros _. apply reads_bind; [apply reads_ObjectId|done].
  - unfold deleteTaskList. destruct user as [u|];
      [|by apply reads_evolves].
    apply evolves_after_reads; [apply reads_ObjectId|]. intros o.
    apply evolves_before_reads; [apply evolves_remove|done].
  - unfold createToDo. destruct user as [u|];
      [|by apply reads_evolves].
    apply evolves_after_reads; [apply reads_ObjectId|]. intros o.
    apply evolves_before_reads; [|done]. by apply insertOne_elsewhere.
  - unfold updateToDo. destruct user as [u|];
      [|by apply reads_evolves].
    apply evolves_after_reads; [apply reads_ObjectId|]. intros o.
    apply evolves_before_reads.
    + by apply evolves_updateOne.
    + intros _. apply reads_bind; [apply reads_ObjectId|done].
  - unfold deleteToDo. destruct user as [u|];
      [|by apply reads_evolves].
    apply evolves_after_reads; [apply reads_ObjectId|]. intros o.
    apply evolves_before_reads; [apply evolves_remove|done].
Qed.

Lemma evolves_serve (env : Env) (authorization : option string)
    (r : request) :
  evolves (serve env authorization r).
Proof.
  unfold serve. apply evolves_after_reads.
  - unfold context. apply reads_bind; [apply reads_getUserFromToken|done].
  - intros u. apply evolves_resolve.
Qed.

Lemma reads_resolve_field (f : field) (parent : doc) :
  reads (resolve_field f parent).
Proof.
  destruct f; simpl; (apply reads_bind; [|done]).
  - unfold TaskList_progress.
    apply reads_bind; [apply reads_ObjectId|]. intros o.
    apply reads_bind; [apply reads_find|]. intros l.
    by destruct (Nat.eqb _ _).
  - unfold TaskList_users. destruct (get parent "userIds"); try done.
    by apply reads_mapM.
  - unfold TaskList_todos.
    apply reads_bind; [apply reads_ObjectId|done].
  - unfold ToDo_taskList.
    apply reads_bind; [apply reads_ObjectId|done].
Qed.

(** C9: in every world the server can be in, every TaskList record has at
    least one member.  createTaskList stores and returns a list whose
    members are exactly the creating user; and no operation loses a
    member: after any step, every list of the store either is a list of
    the store before with the members it had then (and possibly more after
    them), or is a new list with a single member. *)
Theorem member_set_never_empty (w : World) :
  reachable w ->
  (forall tl, In tl (taskLists (db w)) -> members tl <> [])
  /\ (forall env title u tl,
        fst (createTaskList env title (Some u) w) = Returned tl ->
        members tl = [get u "_id"]
        /\ In tl (taskLists (db (snd (createTaskList env title (Some u) w)))))
  /\ (forall w', step w w' -> no_member_lost (db w) (db w')).
Proof.
  intros Hw. pose proof (reachable_store_ok w Hw) as Hs. split; [|split].
  - intros tl Hin. destruct (Hs TaskList) as [Hok _].
    rewrite Forall_forall in Hok.
    destruct (Hok tl) as (_ & x & l & E & _); [by apply list_elem_of_In|].
    unfold members. by rewrite E.
  - intros env title u tl. unfold createTaskList, bind, insertOne.
    rewrite !lookup_insert_ne by done. rewrite lookup_empty.
    destruct (existsb _ _); simpl; [done|]. intros [= <-]. split.
    + unfold members. rewrite !get_insert_ne by done.
      by rewrite get_insert_eq.
    + apply in_or_app. right. by left.
  - intros w' Hstep.
    inversion Hstep as [env authorization r w0|f parent w0]; subst.
    + by apply evolves_serve.
    + rewrite reads_resolve_field. by apply no_member_lost_sub.
Qed.

End Claims.

(** ** Further properties of the resolvers *)

Section Extras.

Context `{Capabilities}.

Lemma collection_with_same_lists (l : list doc) (s : Store) :
  taskLists (with_collection TaskList l s) = l.
Proof. done. Qed.

Lemma filter_all (p : doc -> bool) (l : list doc) :
  (forall d, In d l -> p d = true) -> List.filter p l = l.
Proof.
  induction l as [|d l IH]; simpl; intros Hp; [done|].
  rewrite (Hp d) by auto. f_equal. apply IH. auto.
Qed.

Lemma matches_members (x : value) (tl : doc) :
  taskList_ok tl -> is_Id x -> matches "userIds" x tl = is_member x tl.
Proof.
  intros (_ & y & l & E & _) [o ->]. unfold matches, is_member, members.
  by rewrite E.
Qed.

(** X1: for an identity that carries an identifier, myTaskLists returns,
    in store order, exactly the lists that have this identifier among their
    members, and leaves the store as it is. *)
Theorem myTaskLists_spec (w : World) (u : doc) :
  reachable w -> is_Id (get u "_id") ->
  fst (myTaskLists (Some u) w)
  = Returned (List.filter (is_member (get u "_id")) (taskLists (db w)))
  /\ db (snd (myTaskLists (Some u) w)) = db w
  /\ forall tl,
       In tl (List.filter (is_member (get u "_id")) (taskLists (db w)))
       <-> In tl (taskLists (db w)) /\ In (get u "_id") (members tl).
Proof.
  intros Hw Hid. pose proof (reachable_store_ok w Hw) as Hs.
  destruct (Hs TaskList) as [Hok _]. simpl in Hok.
  unfold myTaskLists, find. simpl. split; [|split; [done|]].
  - f_equal. apply filter_ext_Forall. eapply Forall_impl; [exact Hok|].
    intros tl Htl. by apply matches_members.
  - intros tl. rewrite filter_In. unfold is_member.
    by rewrite existsb_value_In.
Qed.

(** X2: for an authenticated identity and the identifier of a stored list,
    updateTaskList replaces the title of that list and nothing else: its
    members, its creation date and its identifier are as before, the other
    lists are untouched, and the updated record is returned. *)
Theorem updateTaskList_spec (w : World) (u tl : doc) (id title : string)
    (o : oid) :
  reachable w -> ObjectId_fromString id = Some o ->
  In tl (taskLists (db w)) -> get tl "_id" = Id o ->
  let r := updateTaskList id title (Some u) w in
  let tl' := {["title" := Str title]} ∪ tl in
  fst r = Returned (Some tl')
  /\ (exists before after,
        taskLists (db w) = before ++ tl :: after
        /\ db (snd r) = with_collection TaskList (before ++ tl' :: after) (db w))
  /\ get tl' "title" = Str title
  /\ forall k, k <> "title" -> tl' !! k = tl !! k.
Proof.
  intros Hw Ho Hin Hid r tl'.
  pose proof (reachable_store_ok w Hw) as Hs.
  pose proof (store_ok_has_id _ TaskList Hs) as Hhas.
  destruct (Hs TaskList) as [_ Hnd]. simpl in Hhas, Hnd.
  destruct (in_split _ _ Hin) as (before & after & Hsplit).
  assert (forall k, k <> "title" -> tl' !! k = tl !! k) as Hframe.
  { intros k Hk. unfold tl'. apply lookup_union_r.
    by apply lookup_singleton_ne. }
  assert (updateOne TaskList "_id" (Id o) (USet {["title" := Str title]}) w
          = (Returned tt,
             mkWorld (with_collection TaskList (before ++ tl' :: after) (db w))
               (pk w) (log w ++ [Write TaskList]))) as Eupd.
  { unfold updateOne. simpl. rewrite Hsplit, <- Hid.
    rewrite (update_first_by_id _ _ _ tl tl'); try done; by rewrite <- Hsplit. }
  assert (store_ok (with_collection TaskList (before ++ tl' :: after) (db w)))
    as Hs'.
  { pose proof (keeps_updateTaskList id title (Some u) w Hs) as [K _].
    unfold updateTaskList in K.
    rewrite (bind_Returned _ _ _ _ _ (ObjectId_Str _ _ _ Ho)) in K.
    rewrite (bind_Returned _ _ _ _ _ Eupd) in K.
    rewrite (bind_Returned _ _ _ _ _ (ObjectId_Str _ _ _ Ho)) in K.
    exact K. }
  pose proof (store_ok_has_id _ TaskList Hs') as Hhas'.
  destruct (Hs' TaskList) as [_ Hnd']. simpl in Hhas', Hnd'.
  assert (get tl' "_id" = Id o) as Hid'.
  { unfold get. rewrite Hframe by done. exact Hid. }
  assert (r = (Returned (Some tl'),
               mkWorld (with_collection TaskList (before ++ tl' :: after) (db w))
                 (pk w) ((log w ++ [Write TaskList]) ++ [Read TaskList])))
    as Er.
  { unfold r, updateTaskList.
    rewrite (bind_Returned _ _ _ _ _ (ObjectId_Str _ _ _ Ho)).
    rewrite (bind_Returned _ _ _ _ _ Eupd).
    rewrite (bind_Returned _ _ _ _ _ (ObjectId_Str _ _ _ Ho)).
    unfold findOne. simpl. rewrite <- Hid'.
    rewrite (find_by_id _ tl' Hhas' Hnd'); [done|]. apply in_elt. }
  rewrite Er. simpl. split; [done|]. split; [by eauto|]. split; [|done].
  unfold tl'. apply get_union_l. apply lookup_singleton_eq.
Qed.

Lemma update_missing (w : World) (c : coll) (o : oid) (upd : update) :
  store_ok (db w) ->
  (forall d, In d (collection c (db w)) -> get d "_id" <> Id o) ->
  updateOne c "_id" (Id o) upd w
  = (Returned tt, mkWorld (db w) (pk w) (log w ++ [Write c])).
Proof.
  intros Hs Hno. unfold updateOne.
  pose proof (store_ok_has_id _ c Hs) as Hhas. rewrite Forall_forall in Hhas.
  rewrite update_first_no_match.
  - f_equal. f_equal. destruct (db w), c; reflexivity.
  - intros d Hd. destruct (matches "_id" (Id o) d) eqn:E; [|done].
    apply matches_id_iff in E; [|by apply Hhas, list_elem_of_In].
    by destruct (Hno d Hd).
Qed.

(** X3: when no stored record has the given identifier, updateTaskList and
    updateToDo return null, not an error, and leave the store as it is. *)
Theorem update_of_missing_record (w : World) (u : doc) (id : string)
    (o : oid) :
  reachable w -> ObjectId_fromString id = Some o ->
  ((forall tl, In tl (taskLists (db w)) -> get tl "_id" <> Id o) ->
   forall title,
     fst (updateTaskList id title (Some u) w) = Returned None
     /\ db (snd (updateTaskList id title (Some u) w)) = db w)
  /\ ((forall t, In t (toDos (db w)) -> get t "_id" <> Id o) ->
      forall content isCompleted,
        let data := updateToDo_args id content isCompleted in
        fst (updateToDo data (Some u) w) = Returned None
        /\ db (snd (updateToDo data (Some u) w)) = db w).
Proof.
  intros Hw Ho. pose proof (reachable_store_ok w Hw) as Hs. split.
  - intros Hno title. unfold updateTaskList.
    rewrite (bind_Returned _ _ _ _ _ (ObjectId_Str _ _ _ Ho)).
    rewrite (bind_Returned _ _ _ _ _ (update_missing w TaskList o _ Hs Hno)).
    rewrite (bind_Returned _ _ _ _ _ (ObjectId_Str _ _ _ Ho)).
    unfold findOne. simpl.
    by rewrite find_by_id_None by (by apply (store_ok_has_id _ TaskList) || done).
  - intros Hno content isCompleted data. unfold updateToDo.
    assert (get data "id" = Str id) as ->.
    { unfold get, data. by rewrite updateToDo_args_id. }
    rewrite (bind_Returned _ _ _ _ _ (ObjectId_Str _ _ _ Ho)).
    rewrite (bind_Returned _ _ _ _ _ (update_missing w ToDo o _ Hs Hno)).
    rewrite (bind_Returned _ _ _ _ _ (ObjectId_Str _ _ _ Ho)).
    unfold findOne. simpl.
    by rewrite find_by_id_None by (by apply (store_ok_has_id _ ToDo) || done).
Qed.

(** X4: createToDo stores a to-do with the given content, the given list
    reference and [isCompleted = false] under a fresh identifier, appends it
    to the ToDo collection and returns it; its only store access is that
    write, so the list it refers to is never looked up and need not exist.
    A list reference that [ObjectId] rejects makes it throw before anything
    is written. *)
Theorem createToDo_spec (w : World) (u : doc) (content taskListId : string) :
  (forall o,
     ObjectId_fromString taskListId = Some o ->
     (forall t, In t (toDos (db w)) -> get t "_id" <> Id (generate (pk w))) ->
     let t : doc :=
       <["_id" := Id (generate (pk w))]>
         (<["content" := Str content]>
            (<["taskListId" := Id o]> (<["isCompleted" := Bool false]> ∅))) in
     createToDo content taskListId (Some u) w
     = (Returned t,
        mkWorld (with_collection ToDo (toDos (db w) ++ [t]) (db w))
          (pk w + 1) (log w ++ [Write ToDo])))
  /\ (ObjectId_fromString taskListId = None ->
      createToDo content taskListId (Some u) w = (Thrown BSONTypeError, w)).
Proof.
  split.
  - intros o Ho Hfresh t. unfold createToDo.
    rewrite (bind_Returned _ _ _ _ _ (ObjectId_Str _ _ _ Ho)).
    unfold bind, insertOne. rewrite !lookup_insert_ne by done.
    rewrite lookup_empty. fold t.
    destruct (existsb _ _) eqn:Ex; [|done].
    apply existsb_exists in Ex as (e & Hin & E). apply value_eqb_eq in E.
    unfold t in E. rewrite get_insert_eq in E. by destruct (Hfresh e Hin).
  - intros Hbad. unfold createToDo.
    by rewrite (bind_Thrown _ _ _ _ _ (ObjectId_Str_malformed _ _ Hbad)).
Qed.

Lemma filter_filter_same (p : doc -> bool) (l : list doc) :
  List.filter p (List.filter p l) = List.filter p l.
Proof.
  apply filter_all. intros d Hd%filter_In. tauto.
Qed.

(** X5: for an authenticated identity and an identifier [ObjectId] accepts,
    deleteToDo returns true whether or not a to-do has that identifier; it
    removes the to-dos with that identifier and no other record, so with no
    such to-do the store is as before, and a second call changes nothing
    more.  An identifier [ObjectId] rejects makes it throw with nothing
    removed. *)
Theorem deleteToDo_spec (w : World) (u : doc) (id : string) :
  reachable w ->
  let r := deleteToDo id (Some u) w in
  (forall o, ObjectId_fromString id = Some o ->
     fst r = Returned true
     /\ db (snd r)
        = with_collection ToDo
            (List.filter (fun t => negb (value_eqb (get t "_id") (Id o)))
               (toDos (db w))) (db w)
     /\ ((forall t, In t (toDos (db w)) -> get t "_id" <> Id o) ->
         db (snd r) = db w)
     /\ fst (deleteToDo id (Some u) (snd r)) = Returned true
     /\ db (snd (deleteToDo id (Some u) (snd r))) = db (snd r))
  /\ (ObjectId_fromString id = None -> r = (Thrown BSONTypeError, w)).
Proof.
  intros Hw r. pose proof (reachable_store_ok w Hw) as Hs.
  pose proof (store_ok_has_id _ ToDo Hs) as Hhas. simpl in Hhas. split.
  - intros o Ho.
    set (keep := fun t : doc => negb (value_eqb (get t "_id") (Id o))).
    assert (forall l, Forall has_id l ->
              List.filter (fun d => negb (matches "_id" (Id o) d)) l
              = List.filter keep l) as E.
    { intros l Hl. apply filter_ext_Forall. eapply Forall_impl; [exact Hl|].
      intros d Hd. simpl. unfold keep. by rewrite matches_id_eqb. }
    assert (forall w0, Forall has_id (toDos (db w0)) ->
              deleteToDo id (Some u) w0
              = (Returned true,
                 mkWorld (with_collection ToDo
                            (List.filter keep (toDos (db w0))) (db w0))
                   (pk w0) (log w0 ++ [Write ToDo]))) as Edel.
    { intros w0 Hw0. unfold deleteToDo.
      rewrite (bind_Returned _ _ _ _ _ (ObjectId_Str _ _ _ Ho)).
      unfold bind, remove, ret. simpl. by rewrite (E _ Hw0). }
    unfold r. rewrite (Edel w Hhas). cbn [fst snd db].
    split; [done|]. split; [done|]. split.
    + intros Hno. rewrite filter_all; [by destruct (db w)|].
      intros t Ht. unfold keep. apply negb_true_iff, value_eqb_neq. auto.
    + rewrite Edel by (simpl; by apply filter_Forall). simpl.
      split; [done|]. by rewrite filter_filter_same.
  - intros Hbad. unfold r, deleteToDo.
    by rewrite (bind_Thrown _ _ _ _ _ (ObjectId_Str_malformed _ _ Hbad)).
Qed.

(** *** Field resolvers *)

Lemma mapM_findOne_users (l : list value) (w : World) :
  Forall has_id (users (db w)) ->
  exists w',
    mapM (fun userId => findOne Users "_id" userId) l w
    = (Returned (map (fun x => user_by_id x (db w)) l), w')
    /\ db w' = db w.
Proof.
  intros Hhas. revert w Hhas.
  induction l as [|x l IH]; intros w Hhas; [by exists w|].
  destruct (IH (mkWorld (db w) (pk w) (log w ++ [Read Users])) Hhas)
    as (w' & E & Edb).
  exists w'. split; [|exact Edb].
  cbn [mapM]. unfold bind at 1, findOne at 1.
  cbn [fst snd db collection].
  rewrite (bind_Returned _ _ _ _ _ E). unfold ret. cbn [map db].
  f_equal. f_equal. f_equal.
  unfold user_by_id. apply find_ext_Forall.
  eapply Forall_impl; [exact Hhas|]. intros d Hd. simpl.
  by apply matches_id_eqb.
Qed.

(** X6: on a record whose [userIds] is an array, [TaskList.users] returns
    one entry per member, in the order of the members: the stored user with
    that identifier, or null when no user has it; the store is untouched.
    On a record whose [userIds] is not an array it throws. *)
Theorem TaskList_users_spec (w : World) (parent : doc) :
  reachable w ->
  (forall l, get parent "userIds" = Array l ->
     exists r,
       fst (TaskList_users parent w) = Returned r
       /\ db (snd (TaskList_users parent w)) = db w
       /\ length r = length l
       /\ Forall2
            (fun x e =>
               match e with
               | Some u => In u (users (db w)) /\ get u "_id" = x
               | None => forall u, In u (users (db w)) -> get u "_id" <> x
               end) l r)
  /\ ((forall l, get parent "userIds" <> Array l) ->
      TaskList_users parent w = (Thrown TypeError, w)).
Proof.
  intros Hw. pose proof (reachable_store_ok w Hw) as Hs.
  pose proof (store_ok_has_id _ Users Hs) as Hhas. simpl in Hhas. split.
  - intros l Hl. unfold TaskList_users. rewrite Hl.
    destruct (mapM_findOne_users l w Hhas) as (w' & E & Edb). rewrite E.
    eexists. split; [reflexivity|]. split; [exact Edb|].
    split; [by rewrite length_map|].
    clear. induction l as [|x l IH]; simpl; constructor; [|exact IH].
    unfold user_by_id. destruct (List.find _ _) as [u|] eqn:E.
    + apply find_some in E as [Hin E]. by apply value_eqb_eq in E.
    + intros u Hin. pose proof (find_none _ _ E u Hin) as Hne. simpl in Hne.
      by apply value_eqb_neq in Hne.
  - intros Hno. unfold TaskList_users.
    destruct (get parent "userIds") as [ | | | | |l]; try done.
    by destruct (Hno l).
Qed.

Lemma referencing_matches (s : Store) (o : oid) :
  store_ok s ->
  List.filter (matches "taskListId" (Id o)) (toDos s) = referencing o s.
Proof.
  intros Hs. destruct (Hs ToDo) as [Hok _]. simpl in Hok.
  apply filter_ext_Forall. eapply Forall_impl; [exact Hok|].
  intros t (_ & [o' Ho'] & _). unfold matches. rewrite Ho'. simpl.
  by rewrite orb_false_r.
Qed.

(** X7: on a list record, [TaskList.todos] returns, in store order, exactly
    the to-dos whose [taskListId] is the identifier of the list, and leaves
    the store untouched; [progress] is computed, in binary64, over this
    same list. *)
Theorem TaskList_todos_spec (w : World) (parent : doc) (o : oid) :
  reachable w -> get parent "_id" = Id o ->
  fst (TaskList_todos parent w) = Returned (referencing o (db w))
  /\ db (snd (TaskList_todos parent w)) = db w
  /\ (forall t, In t (referencing o (db w))
                <-> In t (toDos (db w)) /\ get t "taskListId" = Id o)
  /\ fst (TaskList_progress parent w)
     = Returned
         (let todos := referencing o (db w) in
          if Nat.eqb (length todos) 0 then number_of_nat 0
          else number_div
                 (number_mul (number_of_nat 100)
                    (number_of_nat (length (completed todos))))
                 (number_of_nat (length todos))).
Proof.
  intros Hw Hid. pose proof (reachable_store_ok w Hw) as Hs.
  destruct (Hs ToDo) as [Hok _]. simpl in Hok.
  unfold TaskList_todos, TaskList_progress. rewrite Hid.
  rewrite !(bind_Returned _ _ _ _ _ (ObjectId_Id _ _)).
  unfold bind, find. simpl. rewrite (referencing_matches _ _ Hs).
  split; [done|]. split; [done|]. split.
  - intros t. unfold referencing. rewrite filter_In.
    by rewrite value_eqb_eq.
  - assert (List.filter (fun t => truthy (get t "isCompleted"))
              (referencing o (db w)) = completed (referencing o (db w))) as ->.
    { apply filter_ext_Forall. apply filter_Forall.
      eapply Forall_impl; [exact Hok|].
      intros t (_ & _ & [b Hb]). rewrite Hb. by destruct b. }
    by destruct (Nat.eqb _ _).
Qed.

(** X8: after createToDo has stored a to-do under a list reference, the
    [todos] of a list with that identifier are the ones it had before
    followed by the new to-do, and the [todos] of every other list are as
    before. *)
Theorem createToDo_then_todos (w : World) (u parent t : doc)
    (content taskListId : string) (o o' : oid) :
  reachable w -> ObjectId_fromString taskListId = Some o ->
  fst (createToDo content taskListId (Some u) w) = Returned t ->
  get parent "_id" = Id o' ->
  let w' := snd (createToDo content taskListId (Some u) w) in
  fst (TaskList_todos parent w')
  = Returned (if bool_decide (o' = o) then referencing o' (db w) ++ [t]
              else referencing o' (db w)).
Proof.
  intros Hw Ho Hret Hid w'. pose proof (reachable_store_ok w Hw) as Hs.
  assert (store_ok (db w')) as Hs'.
  { by apply (keeps_createToDo content taskListId (Some u) w). }
  assert (toDos (db w') = toDos (db w) ++ [t]
          /\ get t "taskListId" = Id o) as [Htodos Href].
  { unfold w'. revert Hret. unfold createToDo.
    rewrite (bind_Returned _ _ _ _ _ (ObjectId_Str _ _ _ Ho)).
    unfold bind, insertOne. rewrite !lookup_insert_ne by done.
    rewrite lookup_empty. destruct (existsb _ _); simpl; [done|].
    intros [= <-]. split; [done|].
    rewrite !get_insert_ne by done. by rewrite get_insert_eq. }
  unfold TaskList_todos. rewrite Hid.
  rewrite (bind_Returned _ _ _ _ _ (ObjectId_Id _ _)).
  unfold find. simpl. rewrite (referencing_matches _ _ Hs').
  unfold referencing. rewrite Htodos, List.filter_app. simpl. rewrite Href. simpl.
  f_equal. case_bool_decide as E.
  - subst. by rewrite bool_decide_eq_true_2.
  - rewrite bool_decide_eq_false_2 by congruence. by rewrite app_nil_r.
Qed.

(** X9: for a to-do whose [taskListId] is an identifier, [ToDo.taskList]
    returns the stored list with that identifier when there is one, and
    null when there is none; the store is untouched. *)
Theorem ToDo_taskList_spec (w : World) (t : doc) (o : oid) :
  reachable w -> get t "taskListId" = Id o ->
  (forall tl, In tl (taskLists (db w)) -> get tl "_id" = Id o ->
     fst (ToDo_taskList t w) = Returned (Some tl))
  /\ ((forall tl, In tl (taskLists (db w)) -> get tl "_id" <> Id o) ->
      fst (ToDo_taskList t w) = Returned None)
  /\ db (snd (ToDo_taskList t w)) = db w.
Proof.
  intros Hw Href. pose proof (reachable_store_ok w Hw) as Hs.
  pose proof (store_ok_has_id _ TaskList Hs) as Hhas.
  destruct (Hs TaskList) as [_ Hnd]. simpl in Hhas, Hnd.
  unfold ToDo_taskList. rewrite Href.
  rewrite (bind_Returned _ _ _ _ _ (ObjectId_Id _ _)).
  unfold findOne. simpl. split; [|split; [|done]].
  - intros tl Hin Hid. by rewrite <- Hid, (find_by_id _ _ Hhas Hnd Hin).
  - intros Hno. by rewrite find_by_id_None.
Qed.

(** *** Accounts and tokens *)

Lemma signIn_outcome (w : World) (env : Env) (input : SignInInput) :
  store_ok (db w) ->
  fst (signIn env input w)
  = match user_by_email (si_email input) (db w) with
    | None => Thrown (Error "Invalid credentials!")
    | Some u =>
        match get u "password" with
        | Str hash =>
            if bcrypt_compareSync (si_password input) hash
            then Returned (mkAuthUser u (getToken env u))
            else Thrown (Error "Invalid credentials!")
        | _ => Thrown BcryptError
        end
    end.
Proof.
  intros Hs. unfold signIn, bind, findOne. simpl.
  rewrite (find_by_email _ _ Hs). fold (user_by_email (si_email input) (db w)).
  destruct (user_by_email _ _) as [u|]; [|done].
  destruct (get u "password"); try done. by destruct (bcrypt_compareSync _ _).
Qed.

Lemma find_app_Some (p : doc -> bool) (l ext : list doc) (d : doc) :
  List.find p l = Some d -> List.find p (l ++ ext) = Some d.
Proof.
  induction l as [|a l IH]; simpl; [done|]. destruct (p a); auto.
Qed.

(** X10: signUp does not look for an earlier account with the same email:
    when one exists and the generated identifier is free, signUp still
    succeeds and the store then holds both records under that email.
    signIn with that email goes on selecting the earlier record: its
    outcome after the second sign-up is the one it had before, so the
    password of the second account is accepted only if it matches the hash
    of the first. *)
Theorem signUp_duplicate_email (w : World) (env env' : Env)
    (input : SignUpInput) (u0 : doc) (hash0 : string) :
  reachable w ->
  user_by_email (su_email input) (db w) = Some u0 ->
  get u0 "password" = Str hash0 ->
  (forall u, In u (users (db w)) -> get u "_id" <> Id (generate (pk w))) ->
  let w' := snd (signUp env input w) in
  (exists a,
     fst (signUp env input w) = Returned a
     /\ users (db w') = users (db w) ++ [user a]
     /\ get (user a) "email" = Str (su_email input)
     /\ get u0 "email" = Str (su_email input) /\ In u0 (users (db w)))
  /\ (forall password,
        let credentials :=
          {| si_email := su_email input; si_password := password |} in
        fst (signIn env' credentials w') = fst (signIn env' credentials w)
        /\ (fst (signIn env' credentials w')
            = Thrown (Error "Invalid credentials!")
            <-> bcrypt_compareSync password hash0 = false)).
Proof.
  intros Hw Hfound Hhash Hfresh w'.
  pose proof (reachable_store_ok w Hw) as Hs.
  assert (store_ok (db w')) as Hs' by (by apply (keeps_signUp env input w)).
  assert (SignUpInput_obj input !! "_id" = None) as Hn.
  { unfold SignUpInput_obj, with_nullable. by destruct (su_avatar input). }
  set (d' := <["_id" := Id (generate (pk w))]>
               (<["password" :=
                    Str (bcrypt_hashSync (salt env) (su_password input))]>
                  (SignUpInput_obj input))).
  set (a := mkAuthUser d' (getToken env d')).
  assert (signUp env input w
          = (Returned a,
             mkWorld (with_collection Users (users (db w) ++ [user a]) (db w))
               (pk w + 1) (log w ++ [Write Users]))) as Ea.
  { unfold signUp, bind, insertOne.
    rewrite lookup_insert_ne, Hn by done. rewrite get_insert_eq.
    destruct (existsb _ _) eqn:Ex; [|done].
    apply existsb_exists in Ex as (u & Hin & E). apply value_eqb_eq in E.
    by destruct (Hfresh u Hin). }
  assert (get (user a) "email" = Str (su_email input)) as Hmail.
  { unfold a, d'. cbn [user]. rewrite !get_insert_ne by done.
    unfold SignUpInput_obj, with_nullable.
    destruct (su_avatar input); rewrite ?get_insert_ne by done;
      by rewrite get_insert_eq. }
  assert (users (db w') = users (db w) ++ [user a]) as Husers.
  { unfold w'. by rewrite Ea. }
  pose proof (find_some _ _ Hfound) as [Hin0 Hmail0].
  apply value_eqb_eq in Hmail0. split.
  - exists a. unfold w'. rewrite Ea. by repeat split.
  - intros password credentials.
    assert (user_by_email (si_email credentials) (db w') = Some u0) as Hfound'.
    { unfold user_by_email. rewrite Husers. by apply find_app_Some. }
    rewrite (signIn_outcome w' env' credentials Hs').
    rewrite (signIn_outcome w env' credentials Hs).
    rewrite Hfound'. simpl. rewrite Hfound, Hhash. split; [done|].
    destruct (bcrypt_compareSync password hash0); split; done.
Qed.

Lemma getUserFromToken_verified (w : World) (env : Env) (t s : string)
    (tokenData : doc) (o : oid) :
  store_ok (db w) ->
  jwt_verify t JWT_SECRET (now env) = Some tokenData -> t <> "" ->
  get tokenData "id" = Str s -> ObjectId_fromString s = Some o ->
  getUserFromToken env (Some t) w
  = (Returned (user_by_id (Id o) (db w)),
     mkWorld (db w) (pk w) (log w ++ [Read Users])).
Proof.
  intros Hs Hv Ht Hid Ho.
  pose proof (store_ok_has_id _ Users Hs) as Hhas. simpl in Hhas.
  unfold getUserFromToken. simpl.
  destruct (String.eqb_spec t "") as [|_]; [done|]. simpl.
  rewrite Hv, Hid, (ObjectId_fromString_nonempty _ _ Ho). simpl.
  rewrite (bind_Returned _ _ _ _ _ (ObjectId_Str _ _ _ Ho)).
  unfold bind, findOne, ret. simpl. f_equal. f_equal.
  unfold user_by_id. apply find_ext_Forall.
  eapply Forall_impl; [exact Hhas|]. intros d Hd. simpl.
  by apply matches_id_eqb.
Qed.

(** X11: a token issued by getToken for a stored user resolves back to that
    user: if [jwt.verify] accepts the token and yields the claim that was
    signed, with the identifier printed as a string that [ObjectId] reads
    back, getUserFromToken returns the user's record, with one read of the
    Users collection and no write. *)
Theorem getUserFromToken_of_getToken (w : World) (env env' : Env) (u : doc)
    (o : oid) (tokenData : doc) :
  reachable w -> In u (users (db w)) -> get u "_id" = Id o ->
  getToken env u <> "" ->
  jwt_verify (getToken env u) JWT_SECRET (now env') = Some tokenData ->
  get tokenData "id" = Str (oid_toString o) ->
  ObjectId_fromString (oid_toString o) = Some o ->
  getUserFromToken env' (Some (getToken env u)) w
  = (Returned (Some u), mkWorld (db w) (pk w) (log w ++ [Read Users])).
Proof.
  intros Hw Hin Hid Hne Hv Hclaim Hcanon.
  pose proof (reachable_store_ok w Hw) as Hs.
  pose proof (store_ok_has_id _ Users Hs) as Hhas.
  destruct (Hs Users) as [_ Hnd]. simpl in Hhas, Hnd.
  rewrite (getUserFromToken_verified w env' _ _ _ _ Hs Hv Hne Hclaim Hcanon).
  f_equal. f_equal. unfold user_by_id.
  rewrite <- (find_by_id _ _ Hhas Hnd Hin). rewrite Hid.
  symmetry. apply find_ext_Forall.
  eapply Forall_impl; [exact Hhas|]. intros d Hd. simpl.
  by apply matches_id_eqb.
Qed.

(** X12: a request for a protected operation that carries no authorization
    header is refused with the authentication error and leaves the world
    exactly as it was; one that carries a token which verifies but names no
    stored user is refused with the same error after a single read of the
    Users collection, with the store unchanged. *)
Theorem serve_refuses_unknown_identity (w : World) (env : Env) (r : request) :
  protected r = true ->
  serve env None r w
  = (Thrown (Error "Authentication Error. Please sing in"), w)
  /\ forall t tokenData s o,
       reachable w ->
       jwt_verify t JWT_SECRET (now env) = Some tokenData -> t <> "" ->
       get tokenData "id" = Str s -> ObjectId_fromString s = Some o ->
       (forall u, In u (users (db w)) -> get u "_id" <> Id o) ->
       serve env (Some t) r w
       = (Thrown (Error "Authentication Error. Please sing in"),
          mkWorld (db w) (pk w) (log w ++ [Read Users])).
Proof.
  intros Hp. split.
  - by destruct r.
  - intros t tokenData s o Hw Hv Ht Hid Ho Hno.
    pose proof (reachable_store_ok w Hw) as Hs.
    unfold serve, context.
    rewrite (bind_Returned _ _ _
               (mkWorld (db w) (pk w) (log w ++ [Read Users])) None).
    + by destruct r.
    + rewrite (bind_Returned _ _ _ _ _
                 (getUserFromToken_verified w env _ _ _ _ Hs Hv Ht Hid Ho)).
      unfold ret. f_equal. f_equal. unfold user_by_id.
      destruct (List.find _ _) as [u|] eqn:E; [|done].
      apply find_some in E as [Hin E]. apply value_eqb_eq in E.
      by destruct (Hno u Hin).
Qed.

(** *** What the operations never do *)

Lemma only_reads_ret {A} (a : A) : only_reads (ret a).
Proof. intros w. split; [done|]. exists []. by rewrite app_nil_r. Qed.

Lemma only_reads_throw {A} (e : exn) : only_reads (@throw A e).
Proof. intros w. split; [done|]. exists []. by rewrite app_nil_r. Qed.

Lemma only_reads_bind {A B} (m : M A) (k : A -> M B) :
  only_reads m -> (forall a, only_reads (k a)) -> only_reads (bind m k).
Proof.
  intros Hm Hk w. unfold bind. destruct (Hm w) as (E1 & l1 & E2 & F1).
  destruct (m w) as [[a|e] w1]; simpl in *; [|by eauto].
  destruct (Hk a w1) as (E3 & l2 & E4 & F2). split; [congruence|].
  exists (l1 ++ l2). rewrite E4, E2, app_assoc. split; [done|].
  by apply Forall_app.
Qed.

Lemma only_reads_ObjectId (v : value) : only_reads (ObjectId v).
Proof.
  intros w. unfold ObjectId.
  destruct v as [ | | b | s | o | l]; simpl;
    try (split; [done|]; exists []; by rewrite app_nil_r).
  destruct (ObjectId_fromString s); simpl;
    (split; [done|]; exists []; by rewrite app_nil_r).
Qed.

Lemma only_reads_findOne (c : coll) (k : string) (q : value) :
  only_reads (findOne c k q).
Proof.
  intros w. split; [done|]. exists [Read c]. split; [done|].
  repeat constructor. by eexists.
Qed.

Lemma only_reads_find (c : coll) (k : string) (q : value) :
  only_reads (find c k q).
Proof.
  intros w. split; [done|]. exists [Read c]. split; [done|].
  repeat constructor. by eexists.
Qed.

Lemma only_reads_mapM {A B} (f : A -> M B) (l : list A) :
  (forall a, only_reads (f a)) -> only_reads (mapM f l).
Proof.
  intros Hf. induction l as [|a l IH]; simpl; [apply only_reads_ret|].
  apply only_reads_bind; [done|]. intros b.
  apply only_reads_bind; [done|]. intros bs. apply only_reads_ret.
Qed.

Lemma only_reads_getUserFromToken (env : Env) (token : option string) :
  only_reads (getUserFromToken env token).
Proof.
  unfold getUserFromToken. destruct token as [t|]; [|apply only_reads_ret].
  destruct (negb _); [apply only_reads_ret|].
  destruct (jwt_verify _ _ _) as [tokenData|]; [|apply only_reads_throw].
  destruct (negb _); [apply only_reads_ret|].
  apply only_reads_bind; [apply only_reads_ObjectId|]. intros o.
  apply only_reads_bind; [apply only_reads_findOne|]. intros u.
  apply only_reads_ret.
Qed.

(** X13: the two queries, signIn, the identity resolver and the four
    store-backed field resolvers never write: whatever their arguments and
    outcome, the store is left as it was and every store access they make
    is a read. *)
Theorem queries_and_resolvers_never_write (env : Env) (user : option doc) :
  only_reads (myTaskLists user)
  /\ (forall id, only_reads (getTaskList id user))
  /\ (forall input, only_reads (signIn env input))
  /\ (forall token, only_reads (getUserFromToken env token))
  /\ (forall authorization, only_reads (context env authorization))
  /\ (forall parent,
        only_reads (TaskList_progress parent)
        /\ only_reads (TaskList_users parent)
        /\ only_reads (TaskList_todos parent)
        /\ only_reads (ToDo_taskList parent)).
Proof.
  split; [|split; [|split; [|split; [|split]]]].
  - unfold myTaskLists. destruct user;
      [apply only_reads_find|apply only_reads_throw].
  - intros id. unfold getTaskList. destruct user; [|apply only_reads_throw].
    apply only_reads_bind; [apply only_reads_ObjectId|]. intros o.
    apply only_reads_findOne.
  - intros input. unfold signIn.
    apply only_reads_bind; [apply only_reads_findOne|].
    intros [u|]; [|apply only_reads_throw].
    destruct (get u "password"); try apply only_reads_throw.
    destruct (negb _); [apply only_reads_throw|apply only_reads_ret].
  - apply only_reads_getUserFromToken.
  - intros authorization. unfold context.
    apply only_reads_bind; [apply only_reads_getUserFromToken|].
    intros u. apply only_reads_ret.
  - intros parent. split; [|split; [|split]].
    + unfold TaskList_progress.
      apply only_reads_bind; [apply only_reads_ObjectId|]. intros o.
      apply only_reads_bind; [apply only_reads_find|]. intros l.
      destruct (Nat.eqb _ _); apply only_reads_ret.
    + unfold TaskList_users.
      destruct (get parent "userIds"); try apply only_reads_throw.
      apply only_reads_mapM. intros x. apply only_reads_findOne.
    + unfold TaskList_todos.
      apply only_reads_bind; [apply only_reads_ObjectId|]. intros o.
      apply only_reads_find.
    + unfold ToDo_taskList.
      apply only_reads_bind; [apply only_reads_ObjectId|]. intros o.
      apply only_reads_findOne.
Qed.

Lemma leaves_users_reads {A} (m : M A) : reads m -> leaves_users m.
Proof. intros Hm w. by rewrite Hm. Qed.

Lemma leaves_users_bind {A B} (m : M A) (k : A -> M B) :
  leaves_users m -> (forall a, leaves_users (k a)) -> leaves_users (bind m k).
Proof.
  intros Hm Hk w. unfold bind. specialize (Hm w).
  destruct (m w) as [[a|e] w1]; simpl in *; [|done]. by rewrite Hk.
Qed.

Lemma leaves_users_insertOne (c : coll) (d : doc) :
  c <> Users -> leaves_users (insertOne c d).
Proof.
  intros Hc w. unfold insertOne.
  destruct (d !! "_id"); destruct (existsb _ _); simpl; try done;
    by destruct c.
Qed.

Lemma leaves_users_updateOne (c : coll) (k : string) (q : value)
    (upd : update) :
  c <> Users -> leaves_users (updateOne c k q upd).
Proof.
  intros Hc w. unfold updateOne.
  destruct (update_first _ _ _); simpl; [|done]. by destruct c.
Qed.

Lemma leaves_users_remove (c : coll) (k : string) (q : value) :
  c <> Users -> leaves_users (remove c k q).
Proof. intros Hc w. unfold remove. simpl. by destruct c. Qed.

Lemma leaves_users_resolve (env : Env) (r : request) (user : option doc) :
  (forall input, r <> SignUp input) -> leaves_users (resolve env r user).
Proof.
  intros Hr.
  assert (forall A (m : M A), leaves_users m ->
            forall B (f : A -> B), leaves_users (let* x := m in ret (f x)))
    as Hwrap.
  { intros A m Hm B f. apply leaves_users_bind; [done|]. by intros a w0. }
  destruct r; simpl; try apply Hwrap.
  - apply leaves_users_reads. unfold myTaskLists. by destruct user.
  - apply leaves_users_reads. unfold getTaskList. destruct user; [|done].
    apply reads_bind; [apply reads_ObjectId|done].
  - by destruct (Hr input).
  - apply leaves_users_reads. unfold signIn. apply reads_bind; [done|].
    intros [u|]; [|done]. destruct (get u "password"); try done.
    by destruct (negb _).
  - unfold createTaskList. destruct user as [u|]; [|done].
    apply Hwrap. by apply leaves_users_insertOne.
  - unfold updateTaskList. destruct user as [u|]; [|done].
    apply leaves_users_bind;
      [apply leaves_users_reads, reads_ObjectId|]. intros o.
    apply leaves_users_bind; [by apply leaves_users_updateOne|]. intros _.
    apply leaves_users_reads.
    apply reads_bind; [apply reads_ObjectId|done].
  - unfold addUserToTaskList. destruct user as [u|]; [|done].
    apply leaves_users_bind;
      [apply leaves_users_reads, reads_ObjectId|]. intros o.
    apply leaves_users_bind; [by apply leaves_users_reads|].
    intros [tl|]; [|done].
    destruct (get tl "userIds"); try done.
    apply leaves_users_bind.
    { apply leaves_users_reads, reads_array_find. intros x.
      by destruct (toString x). }
    intros found. destruct (truthy found); [done|].
    apply leaves_users_bind;
      [apply leaves_users_reads, reads_ObjectId|]. intros o1.
    apply leaves_users_bind;
      [apply leaves_users_reads, reads_ObjectId|]. intros u1.
    apply leaves_users_bind; [by apply leaves_users_updateOne|]. intros _.
    apply leaves_users_reads.
    apply reads_bind; [apply reads_ObjectId|done].
  - unfold deleteTaskList. destruct user as [u|]; [|done].
    apply leaves_users_bind;
      [apply leaves_users_reads, reads_ObjectId|]. intros o.
    apply leaves_users_bind; [by apply leaves_users_remove|]. done.
  - unfold createToDo. destruct user as [u|]; [|done].
    apply leaves_users_bind;
      [apply leaves_users_reads, reads_ObjectId|]. intros o.
    apply Hwrap. by apply leaves_users_insertOne.
  - unfold updateToDo. destruct user as [u|]; [|done].
    apply leaves_users_bind;
      [apply leaves_users_reads, reads_ObjectId|]. intros o.
    apply leaves_users_bind; [by apply leaves_users_updateOne|]. intros _.
    apply leaves_users_reads.
    apply reads_bind; [apply reads_ObjectId|done].
  - unfold deleteToDo. destruct user as [u|]; [|done].
    apply leaves_users_bind;
      [apply leaves_users_reads, reads_ObjectId|]. intros o.
    apply leaves_users_bind; [by apply leaves_users_remove|]. done.
Qed.

Lemma signUp_appends_user (env : Env) (input : SignUpInput) (w : World) :
  exists ext, users (db (snd (signUp env input w))) = users (db w) ++ ext.
Proof.
  unfold signUp, bind, insertOne.
  destruct (_ !! "_id"); destruct (existsb _ _); simpl;
    first [by exists []; rewrite app_nil_r | by eexists].
Qed.

Lemma leaves_users_serve (env : Env) (authorization : option string)
    (r : request) :
  (forall input, r <> SignUp input) ->
  leaves_users (serve env authorization r).
Proof.
  intros Hr. unfold serve. apply leaves_users_bind.
  - apply leaves_users_reads. unfold context.
    apply reads_bind; [apply reads_getUserFromToken|done].
  - intros u. by apply leaves_users_resolve.
Qed.

Lemma step_appends_users (w w' : World) :
  step w w' -> exists ext, users (db w') = users (db w) ++ ext.
Proof.
  intros Hstep. inversion Hstep as [env authorization r w0|f parent w0]; subst.
  - destruct r as [ |?|input|?|?|? ?|? ?|?|? ?|? ? ?|?];
      try (exists []; rewrite app_nil_r; by apply leaves_users_serve).
    unfold serve, bind.
    assert (db (snd (context env authorization w)) = db w) as Hctx.
    { apply reads_bind; [apply reads_getUserFromToken|done]. }
    destruct (context env authorization w) as [[u|e] w1]; simpl in Hctx.
    + rewrite <- Hctx. cbn [resolve]. unfold bind.
      destruct (signUp_appends_user env input w1) as [ext E].
      destruct (signUp env input w1) as [[a|e] w2]; simpl in *; by exists ext.
    + simpl. rewrite Hctx. exists []. by rewrite app_nil_r.
  - rewrite reads_resolve_field. exists []. by rewrite app_nil_r.
Qed.

(** X14: a user record is never changed and never removed: over any
    sequence of requests and field resolutions the Users collection only
    grows at its end, and a single request other than signUp leaves it
    exactly as it was. *)
Theorem users_are_append_only (w : World) :
  (forall w', rtc step w w' ->
     exists ext, users (db w') = users (db w) ++ ext)
  /\ (forall env authorization r,
        (forall input, r <> SignUp input) ->
        users (db (snd (serve env authorization r w))) = users (db w)).
Proof.
  split.
  - intros w' Hsteps. induction Hsteps as [w|w w1 w2 Hstep _ IH].
    + exists []. by rewrite app_nil_r.
    + destruct (step_appends_users _ _ Hstep) as [ext1 E1].
      destruct IH as [ext2 E2]. exists (ext1 ++ ext2).
      by rewrite E2, E1, app_assoc.
  - intros env authorization r Hr. by apply leaves_users_serve.
Qed.

(** X15: in every world the server can be in, identifiers are unique within
    each collection; every user record has an identifier, a string email
    and a string password hash; every list has an identifier and a
    non-empty array of member identifiers; every to-do has an identifier, a
    list reference that is an identifier, and a boolean [isCompleted]. *)
Theorem reachable_store_is_typed (w : World) :
  reachable w ->
  (NoDup (ids (users (db w))) /\ NoDup (ids (taskLists (db w)))
   /\ NoDup (ids (toDos (db w))))
  /\ (forall u, In u (users (db w)) ->
        is_Id (get u "_id") /\ (exists e, get u "email" = Str e)
        /\ exists h, get u "password" = Str h)
  /\ (forall tl, In tl (taskLists (db w)) ->
        is_Id (get tl "_id")
        /\ exists x l, get tl "userIds" = Array (x :: l)
                       /\ Forall is_Id (x :: l))
  /\ (forall t, In t (toDos (db w)) ->
        is_Id (get t "_id") /\ is_Id (get t "taskListId")
        /\ exists b, get t "isCompleted" = Bool b).
Proof.
  intros Hw. pose proof (reachable_store_ok w Hw) as Hs.
  destruct (Hs Users) as [HU NU]. destruct (Hs TaskList) as [HL NL].
  destruct (Hs ToDo) as [HT NT]. simpl in *.
  rewrite Forall_forall in HU, HL, HT.
  split; [done|]. split; [|split].
  - intros u Hin. by apply HU, list_elem_of_In.
  - intros tl Hin. by apply HL, list_elem_of_In.
  - intros t Hin. by apply HT, list_elem_of_In.
Qed.

(** *** Sharing a list *)

Lemma lower_hex_digit (c : ascii) :
  is_hex_digit c = true ->
  is_hex_digit (lower_hex c) = true /\ lower_hex (lower_hex c) = lower_hex c.
Proof.
  destruct c as [[] [] [] [] [] [] [] []]; vm_compute; intros E;
    first [discriminate E | split; reflexivity].
Qed.

Lemma hex_of_byte_digits (c : ascii) :
  exists a b,
    hex_of_byte c = String a (String b EmptyString)
    /\ (is_hex_digit a = true /\ lower_hex a = a)
    /\ (is_hex_digit b = true /\ lower_hex b = b).
Proof.
  exists (hex_digit (N_of_ascii c / 16)), (hex_digit (N_of_ascii c mod 16)).
  split; [reflexivity|].
  assert (forall d,
            is_hex_digit d && Ascii.eqb (lower_hex d) d = true ->
            is_hex_digit d = true /\ lower_hex d = d) as Hd.
  { intros d [E1 E2]%andb_true_iff. by apply Ascii.eqb_eq in E2. }
  split; apply Hd; by destruct c as [[] [] [] [] [] [] [] []].
Qed.

Lemma string_map_length (f : ascii -> ascii) (s : string) :
  String.length (string_map f s) = String.length s.
Proof. induction s as [|c s IH]; simpl; congruence. Qed.

Lemma string_map_lower_hex (s : string) :
  string_forallb is_hex_digit s = true ->
  string_forallb is_hex_digit (string_map lower_hex s) = true
  /\ string_map lower_hex (string_map lower_hex s) = string_map lower_hex s.
Proof.
  induction s as [|c s IH]; simpl; [done|].
  intros [Hc Hs]%andb_true_iff. destruct (lower_hex_digit c Hc) as [E1 E2].
  destruct (IH Hs) as [E3 E4]. by rewrite E1, E2, E3, E4.
Qed.

Lemma string_flat_map_hex (s : string) :
  let h := string_flat_map hex_of_byte s in
  String.length h = 2 * String.length s
  /\ string_forallb is_hex_digit h = true
  /\ string_map lower_hex h = h.
Proof.
  induction s as [|c s (E1 & E2 & E3)]; [done|].
  cbn [string_flat_map].
  destruct (hex_of_byte_digits c) as (a & b & Ec & [Ha Ha'] & [Hb Hb']).
  rewrite Ec.
  change (String a (String b EmptyString) +:+ string_flat_map hex_of_byte s)
    with (String a (String b (string_flat_map hex_of_byte s))).
  cbn [String.length string_forallb string_map].
  rewrite E1, E2, E3, Ha, Ha', Hb, Hb'. split; [lia|done].
Qed.

(** What [ObjectId] reads from a string prints as a string it reads back
    to the same identifier. *)
Lemma ObjectId_fromString_canonical (s : string) (o : oid) :
  ObjectId_fromString s = Some o ->
  ObjectId_fromString (oid_toString o) = Some o.
Proof.
  unfold ObjectId_fromString at 1.
  destruct (Nat.eqb_spec (String.length s) 12) as [E12|_].
  - intros [= <-]. cbn [oid_toString].
    destruct (string_flat_map_hex s) as (E1 & E2 & E3).
    cbv zeta in E1, E2, E3.
    unfold ObjectId_fromString. by rewrite E1, E12, E2, E3.
  - destruct (Nat.eqb_spec (String.length s) 24) as [E24|_]; [|done].
    simpl. destruct (string_forallb is_hex_digit s) eqn:Eh; [|done].
    intros [= <-]. cbn [oid_toString].
    destruct (string_map_lower_hex s Eh) as [E1 E2].
    unfold ObjectId_fromString.
    by rewrite string_map_length, E24, E1, E2.
Qed.

Lemma array_find_total (p : string -> bool) (l : list value) (w : World) :
  Forall is_Id l ->
  exists x,
    array_find
      (fun dbId =>
         match toString dbId with
         | Some s => ret (p s)
         | None => throw TypeError
         end) l w
    = (Returned x, w).
Proof.
  induction 1 as [|x l [o ->] _ [y IH]]; simpl; [by eexists|].
  unfold bind, ret at 1. simpl. destruct (p (oid_toString o)); by eauto.
Qed.

Lemma addUserToTaskList_effect (w : World) (u tl : doc)
    (taskListId userId : string) (l m : oid) (members : list value)
    (before after : list doc) :
  store_ok (db w) ->
  ObjectId_fromString taskListId = Some l ->
  ObjectId_fromString userId = Some m ->
  taskLists (db w) = before ++ tl :: after ->
  get tl "_id" = Id l -> get tl "userIds" = Array members ->
  let w1 := mkWorld (db w) (pk w) (log w ++ [Read TaskList]) in
  let tl' := <["userIds" := Array (members ++ [Id m])]> tl in
  exists found : bool,
    addUserToTaskList taskListId userId (Some u) w
    = if found
      then (Thrown (Error "User already exists in this TaskList!"), w1)
      else (Returned (Some tl'),
            mkWorld (with_collection TaskList (before ++ tl' :: after) (db w))
              (pk w) (log w1 ++ [Write TaskList])).
Proof.
  intros Hs Hl Hm Hsplit Hid Hmem w1 tl'.
  pose proof (store_ok_has_id _ TaskList Hs) as Hhas.
  destruct (Hs TaskList) as [Hok Hnd]. simpl in Hhas, Hok, Hnd.
  assert (In tl (taskLists (db w))) as Hin.
  { rewrite Hsplit. apply in_elt. }
  assert (Forall is_Id members) as Hids.
  { rewrite Forall_forall in Hok.
    destruct (Hok tl) as (_ & x & r & E & HF); [by apply list_elem_of_In|].
    rewrite Hmem in E. by injection E as ->. }
  unfold addUserToTaskList.
  rewrite (bind_Returned _ _ _ _ _ (ObjectId_Str _ _ _ Hl)).
  unfold bind at 1, findOne at 1. simpl.
  rewrite <- Hid, (find_by_id _ _ Hhas Hnd Hin), Hmem.
  destruct (array_find_total (fun s => String.eqb s userId) members w1 Hids)
    as [x Ex].
  rewrite (bind_Returned _ _ _ _ _ Ex). exists (truthy x).
  destruct (truthy x); [done|].
  rewrite (bind_Returned _ _ _ _ _ (ObjectId_Str _ _ _ Hl)).
  rewrite (bind_Returned _ _ _ _ _ (ObjectId_Str _ _ _ Hm)).
  unfold bind at 1, updateOne at 1. simpl. rewrite Hsplit, <- Hid.
  rewrite (update_first_by_id _ _ _ tl tl').
  - by rewrite (bind_Returned _ _ _ _ _ (ObjectId_Str _ _ _ Hm)).
  - by rewrite <- Hsplit.
  - by rewrite <- Hsplit.
  - simpl. by rewrite (get_Array_lookup _ _ _ Hmem).
Qed.

(** X16: for a stored list and a user identifier in any spelling that
    [ObjectId] accepts, addUserToTaskList either throws the conflict error
    and leaves the store alone, or appends the identifier the spelling
    denotes to the members of the stored list and returns the list so
    extended; once it has been added, adding the same user under the
    spelling that [toString] prints is a conflict. *)
Theorem addUserToTaskList_any_spelling (w : World) (u tl : doc)
    (taskListId userId : string) (l m : oid) :
  reachable w ->
  ObjectId_fromString taskListId = Some l ->
  ObjectId_fromString userId = Some m ->
  In tl (taskLists (db w)) -> get tl "_id" = Id l ->
  let r := addUserToTaskList taskListId userId (Some u) w in
  let conflict := Error "User already exists in this TaskList!" in
  (fst r = Thrown conflict /\ db (snd r) = db w)
  \/ (exists tl',
        fst r = Returned (Some tl')
        /\ members tl' = members tl ++ [Id m]
        /\ In tl' (taskLists (db (snd r)))
        /\ fst (addUserToTaskList taskListId (oid_toString m) (Some u) (snd r))
           = Thrown conflict).
Proof.
  intros Hw Hl Hm Hin Hid r conflict.
  pose proof (reachable_store_ok w Hw) as Hs.
  destruct (Hs TaskList) as [Hok _]. simpl in Hok.
  rewrite Forall_forall in Hok.
  destruct (Hok tl) as (_ & x & rest & Hmem & _); [by apply list_elem_of_In|].
  destruct (in_split _ _ Hin) as (before & after & Hsplit).
  set (tl' := <["userIds" := Array ((x :: rest) ++ [Id m])]> tl).
  destruct (addUserToTaskList_effect w u tl taskListId userId l m (x :: rest)
              before after Hs Hl Hm Hsplit Hid Hmem) as [[] E];
    cbv zeta in E; fold r in E.
  - left. by rewrite E.
  - right. exists tl'.
    assert (store_ok (db (snd r))) as Hs'.
    { by apply (keeps_addUserToTaskList taskListId userId (Some u) w). }
    assert (fst r = Returned (Some tl')) as E1 by (by rewrite E).
    assert (taskLists (db (snd r)) = before ++ tl' :: after) as E2
      by (by rewrite E).
    split; [done|]. split.
    { unfold members, tl'. by rewrite get_insert_eq, Hmem. }
    split.
    { rewrite E2. apply in_elt. }
    rewrite (addUserToTaskList_found (snd r) u tl' taskListId (oid_toString m)
               l m ((x :: rest) ++ [Id m]) before after Hs' Hl
               (ObjectId_fromString_canonical _ _ Hm) eq_refl).
    + rewrite (proj2 (existsb_value_In _ _)); [done|].
      apply in_or_app. right. by left.
    + exact E2.
    + unfold tl'. by rewrite get_insert_ne.
    + unfold tl'. by rewrite get_insert_eq.
Qed.

Lemma myTaskLists_outcome (w : World) (u : doc) :
  Forall taskList_ok (taskLists (db w)) -> is_Id (get u "_id") ->
  fst (myTaskLists (Some u) w)
  = Returned (List.filter (is_member (get u "_id")) (taskLists (db w))).
Proof.
  intros Hok Hid. unfold myTaskLists, find. simpl. f_equal.
  apply filter_ext_Forall. eapply Forall_impl; [exact Hok|].
  intros tl Htl. by apply matches_members.
Qed.

(** X17: a list that createTaskList has returned carries the given title,
    the creation date the clock printed and an identifier no earlier list
    has; the creator's myTaskLists afterwards returns the lists it returned
    before, followed by the new one. *)
Theorem createTaskList_then_myTaskLists (w : World) (env : Env)
    (title : string) (u tl : doc) :
  reachable w -> is_Id (get u "_id") ->
  fst (createTaskList env title (Some u) w) = Returned tl ->
  let w' := snd (createTaskList env title (Some u) w) in
  get tl "title" = Str title
  /\ get tl "createdAt" = Str (toISOString (now env))
  /\ ~ In (get tl "_id") (ids (taskLists (db w)))
  /\ fst (myTaskLists (Some u) w')
     = Returned (List.filter (is_member (get u "_id")) (taskLists (db w))
                 ++ [tl]).
Proof.
  intros Hw Hid Hret w'. pose proof (reachable_store_ok w Hw) as Hs.
  destruct (Hs TaskList) as [Hok _]. simpl in Hok.
  set (d := <["_id" := Id (generate (pk w))]>
              (<["title" := Str title]>
                 (<["createdAt" := Str (toISOString (now env))]>
                    (<["userIds" := Array [get u "_id"]]> (∅ : doc))))).
  assert (tl = d /\ taskLists (db w') = taskLists (db w) ++ [d]
          /\ ~ In (get d "_id") (ids (taskLists (db w)))) as (-> & Hlists & Hnew).
  { unfold w'. revert Hret. unfold createTaskList, bind, insertOne.
    rewrite !lookup_insert_ne by done. rewrite lookup_empty. fold d.
    destruct (existsb _ _) eqn:Ex; simpl; [done|]. intros [= <-].
    split; [done|]. split; [done|].
    intros Hin. apply in_map_iff in Hin as (e & He & Hin).
    assert (existsb (fun e => value_eqb (get e "_id") (get d "_id"))
              (taskLists (db w)) = true); [|simpl in *; congruence].
    apply existsb_exists. exists e. split; [done|]. by apply value_eqb_eq. }
  assert (get d "userIds" = Array [get u "_id"]) as Hmem.
  { unfold d. rewrite !get_insert_ne by done. by rewrite get_insert_eq. }
  assert (taskList_ok d) as Hd.
  { split; [unfold has_id, d; rewrite get_insert_eq; by eexists|].
    exists (get u "_id"), []. split; [done|]. by constructor. }
  split; [|split; [|split; [done|]]].
  - unfold d. rewrite get_insert_ne by done. by rewrite get_insert_eq.
  - unfold d. rewrite !get_insert_ne by done. by rewrite get_insert_eq.
  - rewrite myTaskLists_outcome; [|rewrite Hlists; apply Forall_app;
                                   split; [done|by constructor]|done].
    rewrite Hlists, List.filter_app. simpl. f_equal. f_equal.
    unfold is_member, members. rewrite Hmem. simpl.
    by rewrite value_eqb_refl.
Qed.

(** X18: sharing makes a list visible: when a user who is not a member of
    a stored list is added to it by addUserToTaskList (user identifier in
    the spelling [toString] prints), the list is not among that user's
    myTaskLists before the call and the extended list is among them after
    it. *)
Theorem addUserToTaskList_then_myTaskLists (w : World) (u u' tl : doc)
    (taskListId userId : string) (l m : oid) (old : list value) :
  reachable w ->
  ObjectId_fromString taskListId = Some l ->
  ObjectId_fromString userId = Some m -> oid_toString m = userId ->
  In tl (taskLists (db w)) -> get tl "_id" = Id l ->
  get tl "userIds" = Array old -> ~ In (Id m) old ->
  get u' "_id" = Id m ->
  let w' := snd (addUserToTaskList taskListId userId (Some u) w) in
  let tl' := <["userIds" := Array (old ++ [Id m])]> tl in
  (forall seen, fst (myTaskLists (Some u') w) = Returned seen -> ~ In tl seen)
  /\ exists seen',
       fst (myTaskLists (Some u') w') = Returned seen' /\ In tl' seen'.
Proof.
  intros Hw Hl Hm Hcanon Hin Hid Hmem Hnew Hu' w' tl'.
  pose proof (reachable_store_ok w Hw) as Hs.
  destruct (Hs TaskList) as [Hok _]. simpl in Hok.
  assert (is_Id (get u' "_id")) as Hid' by (by eexists).
  destruct (in_split _ _ Hin) as (before & after & Hsplit).
  pose proof (addUserToTaskList_found w u tl taskListId userId l m old
                before after Hs Hl Hm Hcanon Hsplit Hid Hmem) as E.
  cbv zeta in E.
  destruct (existsb _ old) eqn:Ex; [by apply existsb_value_In in Ex|].
  assert (store_ok (db w')) as Hs'.
  { by apply (keeps_addUserToTaskList taskListId userId (Some u) w). }
  destruct (Hs' TaskList) as [Hok' _]. simpl in Hok'.
  assert (taskLists (db w') = before ++ tl' :: after) as Hlists.
  { unfold w'. by rewrite E. }
  split.
  - intros seen. rewrite (myTaskLists_outcome w u' Hok Hid').
    intros [= <-] [_ Hmember]%filter_In.
    unfold is_member, members in Hmember. rewrite Hmem, Hu' in Hmember.
    by rewrite Ex in Hmember.
  - eexists. split; [by apply myTaskLists_outcome|].
    apply filter_In. split; [rewrite Hlists; apply in_elt|].
    unfold is_member, members, tl'. rewrite get_insert_eq, Hu'.
    apply existsb_value_In, in_or_app. right. by left.
Qed.

End Extras.

(** ** The claims on the sample deployment *)

Section OnSample.

Import Sample.

#[local] Existing Instance capabilities.

Ltac evaluate := vm_compute; first [reflexivity | intros [=]].

Lemma served7_eq : served7 = w7.
Proof. vm_compute. reflexivity. Qed.

Lemma served8_eq : served8 = w8.
Proof. vm_compute. reflexivity. Qed.

Lemma reachable_w7 : reachable w7.
Proof.
  rewrite <- served7_eq.
  unfold served7, served6, served5, served4, served3, served2, served1, run.
  repeat (eapply reachable_step; [|apply step_serve]).
  apply reachable_empty.
Qed.

Lemma reachable_w8 : reachable w8.
Proof.
  rewrite <- served8_eq. unfold served8, run.
  eapply reachable_step; [|apply step_serve].
  fold (run alice_token (CreateToDo "oats" id2) served6). fold served7.
  rewrite served7_eq. apply reachable_w7.
Qed.

Lemma served9_eq : run alice_token (DeleteToDo id6) w8 = w9.
Proof. vm_compute. reflexivity. Qed.

Lemma reachable_w9 : reachable w9.
Proof.
  rewrite <- served9_eq. unfold run.
  eapply reachable_step; [apply reachable_w8|apply step_serve].
Qed.

(** With one to-do of three completed, [progress] is not a third of 100
    but the double next to it, which is larger. *)
Lemma TaskList_progress_counterexample :
  let todos := referencing (OID id2) (db w9) in
  reachable w9 /\ get groceries "_id" = Id (OID id2)
  /\ length todos = 3 /\ length (completed todos) = 1
  /\ fst (TaskList_progress groceries w9) = Returned third
  /\ exists q : Q,
       number_value third = Some q
       /\ ~ (q == 100 * inject_Z 1 / inject_Z 3)%Q
       /\ (100 * inject_Z 1 / inject_Z 3 < q)%Q.
Proof.
  intros todos. split; [apply reachable_w9|]. split; [evaluate|].
  split; [evaluate|]. split; [evaluate|]. split; [evaluate|].
  exists (4691249611844267 # 140737488355328)%Q.
  split; [evaluate|]. split; evaluate.
Qed.

Lemma TaskList_progress_witness :
  reachable w8 /\ get groceries "_id" = Id (OID id2)
  /\ exists p : number,
       fst (TaskList_progress groceries w8) = Returned p
       /\ p = number_of_nat 25 /\ number_value p = Some 25%Q
       /\ number_leb (number_of_nat 0) p = true
       /\ number_leb p (number_of_nat 100) = true.
Proof.
  split; [apply reachable_w8|]. split; [evaluate|].
  destruct (TaskList_progress_spec w8 groceries (OID id2) reachable_w8)
    as (p & E & _ & _ & _ & Hr & _ & H25); [evaluate|].
  exists p. split; [exact E|].
  destruct H25 as [Hp Hv]; [evaluate|evaluate|].
  destruct Hr as [H0 H100]; [evaluate|].
  split; [exact Hp|]. split; [exact Hv|]. split; [exact H0|exact H100].
Defined.

(** In capitals the same user is added twice, and a malformed list
    identifier is an error, not null. *)
Lemma addUserToTaskList_counterexample :
  let first := addUserToTaskList id2 capitals (Some alice_doc) w8 in
  let second := addUserToTaskList id2 capitals (Some alice_doc) (snd first) in
  reachable w8
  /\ ObjectId_fromString capitals = Some small
  /\ match fst first with
     | Returned (Some tl) => members tl = [Id (OID id0); Id small]
     | _ => False
     end
  /\ match fst second with
     | Returned (Some tl) => members tl = [Id (OID id0); Id small; Id small]
     | _ => False
     end
  /\ fst second <> Thrown (Error "User already exists in this TaskList!")
  /\ (forall tl, In tl (taskLists (db w8)) ->
        toString (get tl "_id") <> Some malformed)
  /\ fst (addUserToTaskList malformed id1 (Some alice_doc) w8)
     = Thrown BSONTypeError.
Proof.
  intros first second.
  assert (match fst second with
          | Returned (Some tl) =>
              members tl = [Id (OID id0); Id small; Id small]
          | _ => False
          end) as Htwice by evaluate.
  split; [apply reachable_w8|]. split; [evaluate|].
  split; [evaluate|]. split; [exact Htwice|].
  split; [intros E; by rewrite E in Htwice|]. split; [|evaluate].
  intros tl [<-|[]]. evaluate.
Qed.

Lemma addUserToTaskList_witness :
  let first := addUserToTaskList id2 id1 (Some alice_doc) w8 in
  reachable w8
  /\ ObjectId_fromString id1 = Some (OID id1) /\ oid_toString (OID id1) = id1
  /\ ObjectId_fromString id2 = Some (OID id2)
  /\ ObjectId_fromString malformed = None
  /\ fst first
     = Returned
         (Some (<["userIds" := Array [Id (OID id0); Id (OID id1)]]> groceries))
  /\ fst (addUserToTaskList id2 id1 (Some alice_doc) (snd first))
     = Thrown (Error "User already exists in this TaskList!")
  /\ addUserToTaskList malformed id1 (Some alice_doc) w8
     = (Thrown BSONTypeError, w8).
Proof.
  intros first.
  split; [apply reachable_w8|]. split; [evaluate|]. split; [reflexivity|].
  split; [evaluate|]. split; [evaluate|].
  destruct (addUserToTaskList_spec w8 alice_doc id2 id1 (OID id1)
              reachable_w8) as [_ Hgood]; [evaluate|reflexivity|].
  destruct (Hgood (OID id2)) as [_ Hfound]; [evaluate|].
  destruct (Hfound groceries [Id (OID id0)]) as [_ Hnew];
    [by left|evaluate|evaluate|].
  destruct Hnew as (E1 & _ & E2); [by intros [[=]|[]]|].
  split; [exact E1|]. split; [exact E2|].
  destruct (addUserToTaskList_spec w8 alice_doc malformed id1 (OID id1)
              reachable_w8) as [Hbad _]; [evaluate|reflexivity|].
  apply Hbad. evaluate.
Defined.

Lemma getTaskList_witness :
  reachable w8 /\ ObjectId_fromString id2 = Some (OID id2)
  /\ In groceries (taskLists (db w8)) /\ get groceries "_id" = Id (OID id2)
  /\ ~ In (get bob_doc "_id") (members groceries)
  /\ fst (getTaskList id2 (Some bob_doc) w8) = Returned (Some groceries).
Proof.
  split; [apply reachable_w8|]. split; [evaluate|]. split; [by left|].
  split; [evaluate|]. split; [vm_compute; by intros [[=]|[]]|].
  apply (getTaskList_ignores_membership w8 bob_doc groceries id2 (OID id2)
           reachable_w8); [evaluate|by left|evaluate].
Defined.

Lemma signIn_witness :
  let wrong := {| si_email := "alice@example.org"; si_password := "pw1" |} in
  reachable w8
  /\ fst (signIn env wrong w8) = Thrown (Error "Invalid credentials!").
Proof.
  intros wrong. split; [apply reachable_w8|].
  apply (signIn_spec w8 env wrong reachable_w8). right.
  exists alice_doc, "s$pw". split; [evaluate|]. split; evaluate.
Defined.

(** Carol signs up: the handler's object holds the hash, the response
    does not, and a request that selects [password] is refused. *)
Lemma signUp_counterexample :
  reachable w8
  /\ match fst (signUp env carol w8) with
     | Returned a =>
         get (user a) "password" = Str "s$tr0ub4dor"
         /\ User_select User_fields (user a) = Some Scenario.carol_payload
         /\ Scenario.carol_payload !! "password" = None
         /\ User_select ["id"; "password"] (user a) = None
     | Thrown _ => False
     end.
Proof.
  split; [apply reachable_w8|].
  assert (fst (signUp env carol w8)
          = Returned (mkAuthUser
                        (<["_id" := Id (OID Scenario.id7)]>
                           (<["password" := Str "s$tr0ub4dor"]>
                              (SignUpInput_obj carol)))
                        ("k:" +:+ Scenario.id7))) as -> by evaluate.
  cbn [user]. split; [evaluate|]. split; [evaluate|]. split; evaluate.
Qed.

Lemma signUp_witness :
  (forall u, In u (users (db w8)) -> get u "_id" <> Id (generate (pk w8)))
  /\ exists a,
       fst (signUp env carol w8) = Returned a
       /\ get (user a) "password" = Str "s$tr0ub4dor"
       /\ users (db (snd (signUp env carol w8))) = users (db w8) ++ [user a]
       /\ (forall selection payload,
             User_select selection (user a) = Some payload ->
             payload !! "password" = None)
       /\ User_select ["password"] (user a) = None.
Proof.
  assert (forall u, In u (users (db w8)) ->
            get u "_id" <> Id (generate (pk w8))) as Hfresh.
  { intros u [<-|[<-|[]]]; evaluate. }
  split; [exact Hfresh|].
  destruct (signUp_response_omits_hash w8 env carol Hfresh)
    as (a & E & Hpw & Hstored & _ & Hsel & Hrefused & _).
  exists a. split; [exact E|]. split; [exact Hpw|]. split; [exact Hstored|].
  split.
  - intros selection payload Hp. exact (proj1 (Hsel selection payload Hp)).
  - exact (Hrefused ["password"] (or_introl eq_refl)).
Defined.

Lemma getUserFromToken_witness :
  reachable w8
  /\ jwt_verify stranger_token JWT_SECRET (now env)
     = Some {["id" := Str stranger]}
  /\ jwt_verify forged_token JWT_SECRET (now env) = None
  /\ getUserFromToken env None w8 = (Returned None, w8)
  /\ fst (getUserFromToken env (Some stranger_token) w8) = Returned None
  /\ forall r, serve env (Some forged_token) r w8
               = (Thrown JsonWebTokenError, w8).
Proof.
  split; [apply reachable_w8|]. split; [evaluate|].
  split; [evaluate|].
  destruct (getUserFromToken_spec w8 env) as (Habsent & _ & Hnone & Hthrow).
  split; [exact Habsent|]. split.
  - destruct (Hnone stranger_token {["id" := Str stranger]} stranger
                (OID stranger) reachable_w8) as (E & _ & _);
      [evaluate|evaluate|evaluate|evaluate| |exact E].
    intros u [<-|[<-|[]]]; evaluate.
  - destruct (Hthrow forged_token) as (_ & _ & E);
      [evaluate|evaluate|exact E].
Defined.

Lemma deleteTaskList_witness :
  let after := snd (deleteTaskList id2 (Some alice_doc) w8) in
  reachable w8 /\ ObjectId_fromString id2 = Some (OID id2)
  /\ In milk (toDos (db w8)) /\ get milk "taskListId" = Id (OID id2)
  /\ toDos (db after) = toDos (db w8)
  /\ fst (findOne ToDo "_id" (get milk "_id") after) = Returned (Some milk)
  /\ fst (ToDo_taskList milk after) = Returned None.
Proof.
  intros after.
  split; [apply reachable_w8|]. split; [evaluate|]. split; [by left|].
  split; [evaluate|].
  destruct (deleteTaskList_orphans_todos w8 alice_doc id2 reachable_w8)
    as (Htodos & _ & Hrest).
  destruct (Hrest (OID id2)) as (_ & _ & Horphan); [evaluate|].
  destruct (Horphan milk) as [Hfetch Hnull]; [by left|evaluate|].
  split; [exact Htodos|]. split; [exact Hfetch|exact Hnull].
Defined.

Lemma member_set_never_empty_witness :
  reachable w8
  /\ In groceries (taskLists (db w8)) /\ members groceries <> [].
Proof.
  split; [apply reachable_w8|]. split; [by left|].
  destruct (member_set_never_empty w8 reachable_w8) as (Hinv & _ & _).
  apply Hinv. by left.
Defined.

Lemma updateToDo_witness :
  let data := updateToDo_args id3 (Given "oat milk") true in
  reachable w7 /\ ObjectId_fromString id3 = Some (OID id3)
  /\ In milk_before (toDos (db w7)) /\ get milk_before "_id" = Id (OID id3)
  /\ milk_before !! "id" = None
  /\ exists t',
       fst (updateToDo data (Some alice_doc) w7) = Returned (Some t')
       /\ t' !! "id" = Some (Str id3)
       /\ t' !! "content" = Some (Str "oat milk")
       /\ t' !! "isCompleted" = Some (Bool true)
       /\ t' !! "taskListId" = milk_before !! "taskListId"
       /\ t' !! "_id" = milk_before !! "_id".
Proof.
  intros data.
  split; [apply reachable_w7|]. split; [evaluate|]. split; [by left|].
  split; [evaluate|]. split; [evaluate|].
  destruct (updateToDo_sets_whole_argument w7 alice_doc milk_before id3
              (Given "oat milk") true (OID id3) reachable_w7)
    as (E & _ & Hid & Hdone & Hcontent & Hlist & Hkey & _);
    [evaluate|by left|evaluate|].
  eexists. split; [exact E|].
  split; [exact Hid|]. split; [exact Hcontent|]. split; [exact Hdone|].
  split; [exact Hlist|exact Hkey].
Defined.

End OnSample.

(** ** The further properties on the sample deployment *)

Module ExtrasOnSample.

Import Sample Scenario.

#[local] Existing Instance capabilities.

Ltac evaluate := vm_compute; first [reflexivity | intros [=]].

Lemma alice_has_id : is_Id (get alice_doc "_id").
Proof. exists (OID id0). evaluate. Qed.

Lemma myTaskLists_witness :
  reachable w8 /\ is_Id (get alice_doc "_id")
  /\ fst (myTaskLists (Some alice_doc) w8) = Returned [groceries]
  /\ fst (myTaskLists (Some bob_doc) w8) = Returned [].
Proof.
  split; [apply reachable_w8|]. split; [apply alice_has_id|].
  destruct (myTaskLists_spec w8 alice_doc reachable_w8 alice_has_id)
    as (Ea & _ & _).
  destruct (myTaskLists_spec w8 bob_doc reachable_w8) as (Eb & _ & _);
    [exists (OID id1); evaluate|].
  split.
  - rewrite Ea. evaluate.
  - rewrite Eb. evaluate.
Defined.

Lemma updateTaskList_witness :
  reachable w8 /\ ObjectId_fromString id2 = Some (OID id2)
  /\ In groceries (taskLists (db w8)) /\ get groceries "_id" = Id (OID id2)
  /\ exists tl',
       fst (updateTaskList id2 "Food" (Some bob_doc) w8) = Returned (Some tl')
       /\ get tl' "title" = Str "Food"
       /\ tl' !! "userIds" = groceries !! "userIds".
Proof.
  split; [apply reachable_w8|]. split; [evaluate|]. split; [by left|].
  split; [evaluate|].
  destruct (updateTaskList_spec w8 bob_doc groceries id2 "Food" (OID id2)
              reachable_w8) as (E & _ & Htitle & Hframe);
    [evaluate|by left|evaluate|].
  eexists. split; [exact E|]. split; [exact Htitle|]. by apply Hframe.
Defined.

Lemma update_of_missing_record_witness :
  reachable w8 /\ ObjectId_fromString stranger = Some (OID stranger)
  /\ fst (updateTaskList stranger "Food" (Some alice_doc) w8) = Returned None
  /\ fst (updateToDo (updateToDo_args stranger Absent true) (Some alice_doc) w8)
     = Returned None.
Proof.
  split; [apply reachable_w8|]. split; [evaluate|].
  destruct (update_of_missing_record w8 alice_doc stranger (OID stranger)
              reachable_w8) as [Hlist Htodo]; [evaluate|].
  split.
  - apply Hlist. intros tl [<-|[]]. evaluate.
  - apply Htodo. intros t [<-|[<-|[<-|[<-|[]]]]]; evaluate.
Defined.

Lemma createToDo_witness :
  ObjectId_fromString stranger = Some (OID stranger)
  /\ (forall tl, In tl (taskLists (db w8)) -> get tl "_id" <> Id (OID stranger))
  /\ (exists t,
        fst (createToDo "tea" stranger (Some alice_doc) w8) = Returned t
        /\ get t "taskListId" = Id (OID stranger)
        /\ get t "isCompleted" = Bool false
        /\ log (snd (createToDo "tea" stranger (Some alice_doc) w8))
           = log w8 ++ [Write ToDo])
  /\ createToDo "tea" malformed (Some alice_doc) w8 = (Thrown BSONTypeError, w8).
Proof.
  split; [evaluate|]. split; [intros tl [<-|[]]; evaluate|].
  destruct (createToDo_spec w8 alice_doc "tea" stranger) as [Hgood _].
  destruct (createToDo_spec w8 alice_doc "tea" malformed) as [_ Hbad].
  split; [|apply Hbad; evaluate].
  rewrite (Hgood (OID stranger)); [|evaluate|].
  - eexists. split; [reflexivity|]. cbn [fst snd log].
    split; [evaluate|]. split; [evaluate|reflexivity].
  - intros t [<-|[<-|[<-|[<-|[]]]]]; evaluate.
Defined.

Lemma deleteToDo_witness :
  let r := deleteToDo id3 (Some alice_doc) w8 in
  reachable w8 /\ ObjectId_fromString id3 = Some (OID id3)
  /\ fst r = Returned true
  /\ toDos (db (snd r)) = [eggs; salt_; oats]
  /\ db (snd (deleteToDo id3 (Some alice_doc) (snd r))) = db (snd r).
Proof.
  intros r. split; [apply reachable_w8|]. split; [evaluate|].
  destruct (deleteToDo_spec w8 alice_doc id3 reachable_w8) as [Hgood _].
  destruct (Hgood (OID id3)) as (E1 & E2 & _ & _ & E3); [evaluate|].
  fold r in E1, E2, E3. split; [exact E1|]. split; [|exact E3].
  rewrite E2. evaluate.
Defined.

Lemma TaskList_users_witness :
  reachable w8
  /\ get shared_with_stranger "userIds"
     = Array [Id (OID id0); Id (OID stranger)]
  /\ exists r,
       fst (TaskList_users shared_with_stranger w8) = Returned r
       /\ length r = 2.
Proof.
  split; [apply reachable_w8|]. split; [evaluate|].
  destruct (TaskList_users_spec w8 shared_with_stranger reachable_w8)
    as [Harray _].
  destruct (Harray [Id (OID id0); Id (OID stranger)]) as (r & E & _ & Hlen & _);
    [evaluate|].
  exists r. split; [exact E|exact Hlen].
Defined.

Lemma TaskList_todos_witness :
  reachable w8 /\ get groceries "_id" = Id (OID id2)
  /\ fst (TaskList_todos groceries w8) = Returned [milk; eggs; salt_; oats].
Proof.
  split; [apply reachable_w8|]. split; [evaluate|].
  destruct (TaskList_todos_spec w8 groceries (OID id2) reachable_w8)
    as (E & _); [evaluate|].
  rewrite E. evaluate.
Defined.

Lemma createToDo_then_todos_witness :
  let w' := snd (createToDo "tea" id2 (Some alice_doc) w8) in
  reachable w8 /\ ObjectId_fromString id2 = Some (OID id2)
  /\ fst (createToDo "tea" id2 (Some alice_doc) w8) = Returned tea
  /\ get groceries "_id" = Id (OID id2)
  /\ fst (TaskList_todos groceries w')
     = Returned [milk; eggs; salt_; oats; tea].
Proof.
  intros w'. split; [apply reachable_w8|]. split; [evaluate|].
  assert (fst (createToDo "tea" id2 (Some alice_doc) w8) = Returned tea)
    as Hret by evaluate.
  split; [exact Hret|]. split; [evaluate|]. unfold w'.
  rewrite (createToDo_then_todos w8 alice_doc groceries tea "tea" id2
             (OID id2) (OID id2) reachable_w8); [|evaluate|exact Hret|evaluate].
  evaluate.
Defined.

Lemma ToDo_taskList_witness :
  reachable w8 /\ get milk "taskListId" = Id (OID id2)
  /\ In groceries (taskLists (db w8)) /\ get groceries "_id" = Id (OID id2)
  /\ fst (ToDo_taskList milk w8) = Returned (Some groceries).
Proof.
  split; [apply reachable_w8|]. split; [evaluate|]. split; [by left|].
  split; [evaluate|].
  destruct (ToDo_taskList_spec w8 milk (OID id2) reachable_w8) as (Hfound & _);
    [evaluate|].
  apply Hfound; [by left|evaluate].
Defined.

Lemma signUp_duplicate_email_witness :
  let w' := snd (signUp env alice_again w8) in
  reachable w8
  /\ user_by_email "alice@example.org" (db w8) = Some alice_doc
  /\ get alice_doc "password" = Str "s$pw"
  /\ (forall u, In u (users (db w8)) -> get u "_id" <> Id (generate (pk w8)))
  /\ length (users (db w')) = 3
  /\ fst (signIn env
            {| si_email := "alice@example.org"; si_password := "other" |} w')
     = Thrown (Error "Invalid credentials!").
Proof.
  intros w'.
  assert (forall u, In u (users (db w8)) ->
            get u "_id" <> Id (generate (pk w8))) as Hfresh.
  { intros u [<-|[<-|[]]]; evaluate. }
  split; [apply reachable_w8|]. split; [evaluate|]. split; [evaluate|].
  split; [exact Hfresh|].
  destruct (signUp_duplicate_email w8 env env alice_again alice_doc "s$pw"
              reachable_w8) as [(a & _ & Husers & _) Hsame];
    [evaluate|evaluate|exact Hfresh|].
  fold w' in Husers, Hsame. split.
  - rewrite Husers. reflexivity.
  - apply (Hsame "other"). evaluate.
Defined.

Lemma getUserFromToken_of_getToken_witness :
  reachable w8 /\ In alice_doc (users (db w8))
  /\ get alice_doc "_id" = Id (OID id0)
  /\ jwt_verify (getToken env alice_doc) JWT_SECRET (now env)
     = Some {["id" := Str id0]}
  /\ ObjectId_fromString id0 = Some (OID id0)
  /\ fst (getUserFromToken env (Some (getToken env alice_doc)) w8)
     = Returned (Some alice_doc).
Proof.
  split; [apply reachable_w8|]. split; [by left|]. split; [evaluate|].
  split; [evaluate|]. split; [evaluate|].
  rewrite (getUserFromToken_of_getToken w8 env env alice_doc (OID id0)
             {["id" := Str id0]} reachable_w8);
    [reflexivity|by left|evaluate|evaluate|evaluate|evaluate|evaluate].
Defined.

Lemma serve_refuses_unknown_identity_witness :
  protected (DeleteTaskList id2) = true
  /\ reachable w8
  /\ serve env None (DeleteTaskList id2) w8
     = (Thrown (Error "Authentication Error. Please sing in"), w8)
  /\ fst (serve env (Some stranger_token) (DeleteTaskList id2) w8)
     = Thrown (Error "Authentication Error. Please sing in").
Proof.
  split; [reflexivity|]. split; [apply reachable_w8|].
  destruct (serve_refuses_unknown_identity w8 env (DeleteTaskList id2) eq_refl)
    as [Hnone Hunknown].
  split; [exact Hnone|].
  rewrite (Hunknown stranger_token {["id" := Str stranger]} stranger
             (OID stranger) reachable_w8);
    [reflexivity|evaluate|evaluate|evaluate|evaluate|].
  intros u [<-|[<-|[]]]; evaluate.
Defined.

Lemma step_w7_w8 : step w7 w8.
Proof.
  rewrite <- served8_eq, <- served7_eq. unfold served8 at 1, run.
  apply step_serve.
Qed.

Lemma users_are_append_only_witness :
  rtc step w7 w8
  /\ (exists ext, users (db w8) = users (db w7) ++ ext)
  /\ users (db (snd (serve env alice_token (DeleteToDo id3) w8)))
     = users (db w8).
Proof.
  assert (rtc step w7 w8) as Hsteps by (apply rtc_once, step_w7_w8).
  split; [exact Hsteps|].
  destruct (users_are_append_only w7) as [Hgrow _].
  destruct (users_are_append_only w8) as [_ Hsame].
  split; [by apply Hgrow|]. by apply Hsame.
Defined.

Lemma reachable_store_is_typed_witness :
  reachable w8 /\ NoDup (ids (toDos (db w8)))
  /\ exists b, get milk "isCompleted" = Bool b.
Proof.
  split; [apply reachable_w8|].
  destruct (reachable_store_is_typed w8 reachable_w8)
    as ((_ & _ & Hnd) & _ & _ & Htodo).
  split; [exact Hnd|]. apply (Htodo milk). by left.
Defined.

Lemma addUserToTaskList_any_spelling_witness :
  let r := addUserToTaskList id2 capitals (Some alice_doc) w8 in
  reachable w8 /\ ObjectId_fromString id2 = Some (OID id2)
  /\ ObjectId_fromString capitals = Some small
  /\ In groceries (taskLists (db w8)) /\ get groceries "_id" = Id (OID id2)
  /\ fst (addUserToTaskList id2 (oid_toString small) (Some alice_doc) (snd r))
     = Thrown (Error "User already exists in this TaskList!").
Proof.
  intros r. split; [apply reachable_w8|]. split; [evaluate|].
  split; [evaluate|]. split; [by left|]. split; [evaluate|].
  destruct (addUserToTaskList_any_spelling w8 alice_doc groceries id2 capitals
              (OID id2) small reachable_w8) as [[E _]|(tl' & _ & _ & _ & E)];
    [evaluate|evaluate|by left|evaluate| |exact E].
  exfalso. fold r in E.
  assert (fst r <> Thrown (Error "User already exists in this TaskList!"))
    as Hne by evaluate.
  by apply Hne.
Defined.

Lemma createTaskList_then_myTaskLists_witness :
  let w' := snd (createTaskList env "Chores" (Some alice_doc) w8) in
  reachable w8 /\ is_Id (get alice_doc "_id")
  /\ fst (createTaskList env "Chores" (Some alice_doc) w8) = Returned chores
  /\ fst (myTaskLists (Some alice_doc) w') = Returned [groceries; chores].
Proof.
  intros w'. split; [apply reachable_w8|]. split; [apply alice_has_id|].
  assert (fst (createTaskList env "Chores" (Some alice_doc) w8)
          = Returned chores) as Hret by evaluate.
  split; [exact Hret|].
  destruct (createTaskList_then_myTaskLists w8 env "Chores" alice_doc chores
              reachable_w8 alice_has_id Hret) as (_ & _ & _ & E).
  fold w' in E. rewrite E. evaluate.
Defined.

Lemma addUserToTaskList_then_myTaskLists_witness :
  let w' := snd (addUserToTaskList id2 id1 (Some alice_doc) w8) in
  reachable w8 /\ ObjectId_fromString id2 = Some (OID id2)
  /\ ObjectId_fromString id1 = Some (OID id1) /\ oid_toString (OID id1) = id1
  /\ In groceries (taskLists (db w8)) /\ get groceries "_id" = Id (OID id2)
  /\ get groceries "userIds" = Array [Id (OID id0)]
  /\ ~ In (Id (OID id1)) [Id (OID id0)]
  /\ get bob_doc "_id" = Id (OID id1)
  /\ exists seen',
       fst (myTaskLists (Some bob_doc) w') = Returned seen'
       /\ In (<["userIds" := Array [Id (OID id0); Id (OID id1)]]> groceries)
            seen'.
Proof.
  intros w'. split; [apply reachable_w8|]. split; [evaluate|].
  split; [evaluate|]. split; [reflexivity|]. split; [by left|].
  split; [evaluate|]. split; [evaluate|].
  assert (~ In (Id (OID id1)) [Id (OID id0)]) as Hnew
    by (by intros [[=]|[]]).
  split; [exact Hnew|]. split; [evaluate|].
  destruct (addUserToTaskList_then_myTaskLists w8 alice_doc bob_doc groceries
              id2 id1 (OID id2) (OID id1) [Id (OID id0)] reachable_w8)
    as [_ Hafter];
    [evaluate|evaluate|reflexivity|by left|evaluate|evaluate|exact Hnew
    |evaluate|].
  exact Hafter.
Defined.

End ExtrasOnSample.
